(** * PumpSwap demo client: quote engine and instruction decoder

    A shallow embedding of the two computational pieces of the trading bot:

    - the constant-product quote ([CalcMinAmountOutByAmm],
      [CalcMinAmountOutBySwap] of the swap client and [CalculateMinAmountOut]
      of the utils package), written over a model of the [shopspring/decimal]
      operations the Go code calls;
    - the discriminator dispatch of [analyzeTransactionWithRPC] in the
      transaction decoder.

    Go's [uint64] and [uint32] are integers in [Z] with the wrap-around of
    each conversion written out; a [panic] is the [Panic] outcome of [Exec]. *)

From Stdlib Require Import ZArith QArith Qround Qpower Qfield Lia List String Bool.
From Stdlib Require Import DecimalString.
From coqutil Require Import Byte Z.prove_Zeq_bitwise.
Import ListNotations.
Local Open Scope Z_scope.

(** ** Outcomes of a Go call: a returned value or a panic *)

Inductive Exec (A : Type) : Type :=
| Ret (a : A)
| Panic (msg : string).
Arguments Ret {A} a.
Arguments Panic {A} msg.

Definition bind {A B : Type} (m : Exec A) (k : A -> Exec B) : Exec B :=
  match m with
  | Ret a => k a
  | Panic msg => Panic msg
  end.

Notation "x <- m ;; k" := (bind m (fun x => k))
  (at level 61, m at next level, right associativity).

(** Go's [error] interface value: [None] is [nil]. *)
Definition error := option string.

(** ** The decimal library

    [github.com/shopspring/decimal] represents a number as
    [value * 10 ^ exp] with an arbitrary-precision [value].  The operations
    below follow the library's definitions; its [int32] range checks on
    exponents are left out (exponents stay within a few dozen here). *)

Module decimal.

Record Decimal : Type := New { value : Z; exp : Z }.

(** [DivisionPrecision]: digits after the decimal point kept by [Div]. *)
Definition DivisionPrecision : Z := 16.

Definition NewFromUint64 (v : Z) : Decimal := New v 0.
Definition NewFromInt (v : Z) : Decimal := New v 0.

(** [decimal.Zero] is declared as [New(0, 1)]. *)
Definition Zero : Decimal := New 0 1.

(** [rescale]: same number at exponent [e]; digits are cut (toward zero)
    when [e] is larger than the current exponent. *)
Definition rescale (d : Decimal) (e : Z) : Decimal :=
  if exp d =? e then d
  else
    let diff := Z.abs (e - exp d) in
    let expScale := 10 ^ diff in
    if e >? exp d then New (Z.quot (value d) expScale) e
    else New (value d * expScale) e.

Definition RescalePair (d1 d2 : Decimal) : Decimal * Decimal :=
  if exp d1 <? exp d2 then (d1, rescale d2 (exp d1))
  else if exp d1 >? exp d2 then (rescale d1 (exp d2), d2)
  else (d1, d2).

Definition Add (d d2 : Decimal) : Decimal :=
  let '(rd, rd2) := RescalePair d d2 in
  New (value rd + value rd2) (exp rd).

Definition Sub (d d2 : Decimal) : Decimal :=
  let '(rd, rd2) := RescalePair d d2 in
  New (value rd - value rd2) (exp rd).

Definition Mul (d d2 : Decimal) : Decimal :=
  New (value d * value d2) (exp d + exp d2).

Definition Abs (d : Decimal) : Decimal := New (Z.abs (value d)) (exp d).

(** [Cmp]: -1, 0 or 1. *)
Definition Cmp (d d2 : Decimal) : Z :=
  if exp d =? exp d2 then Z.sgn (value d - value d2)
  else
    let '(rd, rd2) := RescalePair d d2 in
    Z.sgn (value rd - value rd2).

Definition Sign (d : Decimal) : Z := Z.sgn (value d).
Definition IsPositive (d : Decimal) : bool := Sign d =? 1.
Definition LessThanOrEqual (d d2 : Decimal) : bool := Cmp d d2 <=? 0.

(** [QuoRem]: quotient [q], an integer multiple of [10 ^ (- precision)],
    and remainder [r] with [d = d2 * q + r]; panics on a zero divisor. *)
Definition QuoRem (d d2 : Decimal) (precision : Z) : Exec (Decimal * Decimal) :=
  if value d2 =? 0 then Panic "decimal division by 0"
  else
    let scale := - precision in
    let e := exp d - exp d2 - scale in
    let '(aa, bb, scalerest) :=
      if e <? 0 then (value d, value d2 * 10 ^ (- e), exp d)
      else (value d * 10 ^ e, value d2, scale + exp d2) in
    Ret (New (Z.quot aa bb) scale, New (Z.rem aa bb) scalerest).

(** [DivRound]: the quotient rounded to [precision] digits, a final digit 5
    rounded away from zero. *)
Definition DivRound (d d2 : Decimal) (precision : Z) : Exec Decimal :=
  qr <- QuoRem d d2 precision ;;
  let '(q, r) := qr in
  let rv2 := Z.shiftl (Z.abs (value r)) 1 in
  let r2 := New rv2 (exp r + precision) in
  let c := Cmp r2 (Abs d2) in
  if c <? 0 then Ret q
  else if Z.sgn (value d) * Z.sgn (value d2) <? 0
       then Ret (Sub q (New 1 (- precision)))
       else Ret (Add q (New 1 (- precision))).

Definition Div (d d2 : Decimal) : Exec Decimal :=
  DivRound d d2 DivisionPrecision.

(** [big.Int.Int64]: the low 64 bits of the magnitude read as a signed
    word, negated (in 64 bits) for a negative number. *)
Definition to_int64 (x : Z) : Z := (x + 2 ^ 63) mod 2 ^ 64 - 2 ^ 63.

Definition bigInt64 (x : Z) : Z :=
  let v := to_int64 (Z.abs x mod 2 ^ 64) in
  if x <? 0 then to_int64 (- v) else v.

(** [IntPart]: the integer part, as an [int64]. *)
Definition IntPart (d : Decimal) : Z := bigInt64 (value (rescale d 0)).

End decimal.

Import decimal.

(** Go's conversion [uint64(x)] of an [int64]. *)
Definition uint64 (x : Z) : Z := x mod 2 ^ 64.

(** ** The quote engine of the swap client *)

Definition FeeRateDenominatorValue : Decimal := NewFromUint64 1000000.
Definition AllBpDecimal : Decimal := NewFromInt 10000.

(** The decimals [outDecimal] and [minOut] that [CalcMinAmountOutBySwap]
    computes before its final test; the pair is (minOut, outDecimal). *)
Definition CalcMinAmountOutBySwap_decimals
    (slipPageBP amountIn totalInTokenAmount totalOutTokenAmount feeRate : Z)
    : Exec (Decimal * Decimal) :=
  let amountDecimal := NewFromUint64 amountIn in
  feeRateDecimal <- Div (NewFromUint64 feeRate) FeeRateDenominatorValue ;;
  let feeDecimal := Mul amountDecimal feeRateDecimal in
  let amountDecimal := Sub amountDecimal feeDecimal in
  let totalInTokenAmountDecimal := NewFromUint64 totalInTokenAmount in
  let totalOutTokenAmountDecimal := NewFromUint64 totalOutTokenAmount in
  let productDecimal := Mul totalInTokenAmountDecimal totalOutTokenAmountDecimal in
  newOut <- Div productDecimal (Add totalInTokenAmountDecimal amountDecimal) ;;
  let outDecimal := Sub totalOutTokenAmountDecimal newOut in
  slipRatio <- Div (Sub AllBpDecimal (NewFromUint64 slipPageBP)) AllBpDecimal ;;
  let minOut := Mul outDecimal slipRatio in
  Ret (minOut, outDecimal).

Definition CalcMinAmountOutBySwap
    (slipPageBP amountIn totalInTokenAmount totalOutTokenAmount feeRate : Z)
    : Exec (Z * Z * error) :=
  ds <- CalcMinAmountOutBySwap_decimals slipPageBP amountIn
          totalInTokenAmount totalOutTokenAmount feeRate ;;
  let '(minOut, outDecimal) := ds in
  if negb (IsPositive minOut) || negb (IsPositive outDecimal)
  then Ret (0, 0, None)
  else Ret (uint64 (IntPart minOut), uint64 (IntPart outDecimal), None).

Definition CalcMinAmountOutByAmm
    (slipPageBP amountIn : Z) (isBuy : bool) (tokenAmount baseAmount feeRate : Z)
    : Exec (Z * Z * error) :=
  if isBuy
  then CalcMinAmountOutBySwap slipPageBP amountIn baseAmount tokenAmount feeRate
  else CalcMinAmountOutBySwap slipPageBP amountIn tokenAmount baseAmount feeRate.

(** ** The quote of the utils package *)

(** The decimals [amountOut] and [minAmountOut] of [CalculateMinAmountOut]
    before its final test; the pair is (minAmountOut, amountOut). *)
Definition CalculateMinAmountOut_decimals
    (slippageBP amountIn : Z) (isBuy : bool) (tokenAmount baseAmount feeRate : Z)
    : Exec (Decimal * Decimal) :=
  let amountInDec := NewFromUint64 amountIn in
  let tokenAmountDec := NewFromUint64 tokenAmount in
  let baseAmountDec := NewFromUint64 baseAmount in
  feeRateDec <- Div (NewFromUint64 feeRate) (NewFromUint64 1000000) ;;
  let feeDec := Mul amountInDec feeRateDec in
  let amountInAfterFee := Sub amountInDec feeDec in
  let '(inReserve, outReserve) :=
    if isBuy then (baseAmountDec, tokenAmountDec)
    else (tokenAmountDec, baseAmountDec) in
  let k := Mul inReserve outReserve in
  let newInReserve := Add inReserve amountInAfterFee in
  newOutReserve <- Div k newInReserve ;;
  let amountOut := Sub outReserve newOutReserve in
  minAmountOut <-
    Div (Mul amountOut (Sub (NewFromUint64 10000) (NewFromUint64 slippageBP)))
        (NewFromUint64 10000) ;;
  Ret (minAmountOut, amountOut).

Definition CalculateMinAmountOut
    (slippageBP amountIn : Z) (isBuy : bool) (tokenAmount baseAmount feeRate : Z)
    : Exec (Z * Z * error) :=
  ds <- CalculateMinAmountOut_decimals slippageBP amountIn isBuy
          tokenAmount baseAmount feeRate ;;
  let '(minAmountOut, amountOut) := ds in
  if LessThanOrEqual minAmountOut Zero || LessThanOrEqual amountOut Zero
  then Ret (0, 0, Some "calculated amount out is zero or negative"%string)
  else Ret (uint64 (IntPart minAmountOut), uint64 (IntPart amountOut), None).

(** ** The instruction decoder

    The part of [analyzeTransactionWithRPC] that inspects the data of one
    instruction of the PumpSwap program, from the point where
    [instDataBytes] holds the bytes to inspect (the instruction data, read
    as base58 first when it happens to be a base58 string).  What the code
    prints is kept as a list of [Output] records, one per report; the lines
    of one report are one record. *)

Definition unsigned_bytes (l : list Z) : list byte := map byte.of_Z l.

Definition BuyDiscriminator : list byte :=
  unsigned_bytes [102; 6; 61; 18; 1; 218; 235; 234].
Definition SellDiscriminator : list byte :=
  unsigned_bytes [143; 244; 89; 80; 224; 16; 16; 88].
Definition CreatePoolDiscriminator : list byte :=
  unsigned_bytes [175; 175; 109; 31; 13; 152; 155; 9].

Record TokenInfo : Type := {
  Symbol : string;
  Name : string;
  Decimals : Z;
  Description : string;
  Image : string;
  Website : string;
  Twitter : string;
  Telegram : string
}.

Record TransactionSummary : Type := {
  Operation : string;
  Direction : string;
  BaseMint : string;
  AmountIn : Z;
  AmountOut : Z;
  BaseMintName : string;
  TokenInfoPtr : option TokenInfo
}.

(** The summary as [analyzeTransactionWithRPC] initialises it: the fields
    not listed in the composite literal are zero. *)
Definition initial_summary : TransactionSummary :=
  {| Operation := "Unknown"; Direction := "Unknown"; BaseMint := "Unknown";
     AmountIn := 0; AmountOut := 0; BaseMintName := ""; TokenInfoPtr := None |}.

(** The detection variables of the analysis, shared by all instructions of
    a transaction. *)
Record Detection : Type := {
  isSwapInstruction : bool;
  isBuy : bool;
  isSell : bool;
  summary : TransactionSummary
}.

Definition initial_detection : Detection :=
  {| isSwapInstruction := false; isBuy := false; isSell := false;
     summary := initial_summary |}.

Inductive Output : Type :=
| InstructionDiscriminator (d : list byte)
| BuyParameters (baseAmountOut maxQuoteAmountIn : Z)
| SellParameters (baseAmountIn minQuoteAmountOut : Z)
| DetectedCreatePool
| UnknownInstructionType (d : list byte) (data : list byte)
| DataTooShort (len : Z).

(** [bytes.Equal]. *)
Definition bytes_Equal (a b : list byte) : bool :=
  if list_eq_dec Byte.byte_eq_dec a b then true else false.

Definition len {A : Type} (l : list A) : Z := Z.of_nat (List.length l).

(** The slice expression [s[lo:hi]]; out of range it panics. *)
Definition slice (s : list byte) (lo hi : Z) : Exec (list byte) :=
  if (0 <=? lo) && (lo <=? hi) && (hi <=? len s)
  then Ret (firstn (Z.to_nat (hi - lo)) (skipn (Z.to_nat lo) s))
  else Panic "slice bounds out of range".

(** [binary.LittleEndian.Uint64]. *)
Definition LittleEndian_Uint64 (b : list byte) : Exec Z :=
  match b with
  | b0 :: b1 :: b2 :: b3 :: b4 :: b5 :: b6 :: b7 :: _ =>
      Ret (Z.lor (byte.unsigned b0)
          (Z.lor (Z.shiftl (byte.unsigned b1) 8)
          (Z.lor (Z.shiftl (byte.unsigned b2) 16)
          (Z.lor (Z.shiftl (byte.unsigned b3) 24)
          (Z.lor (Z.shiftl (byte.unsigned b4) 32)
          (Z.lor (Z.shiftl (byte.unsigned b5) 40)
          (Z.lor (Z.shiftl (byte.unsigned b6) 48)
                 (Z.shiftl (byte.unsigned b7) 56))))))))
  | _ => Panic "index out of range"
  end.

(** [encodeU64] of the swap client: a [uint64] in little-endian order. *)
Definition encodeU64 (val : Z) : list byte :=
  [ byte.of_Z val;
    byte.of_Z (Z.shiftr val 8);
    byte.of_Z (Z.shiftr val 16);
    byte.of_Z (Z.shiftr val 24);
    byte.of_Z (Z.shiftr val 32);
    byte.of_Z (Z.shiftr val 40);
    byte.of_Z (Z.shiftr val 48);
    byte.of_Z (Z.shiftr val 56) ].

(** What the inspection of one instruction leaves behind: the detection
    variables, the instruction's [currentDiscriminator] ([nil] when none
    was read) and the reports printed. *)
Record Inspected : Type := {
  detection : Detection;
  currentDiscriminator : list byte;
  printed : list Output
}.

Definition set_direction (s : TransactionSummary) (dir : string)
    : TransactionSummary :=
  {| Operation := "Swap"; Direction := dir; BaseMint := BaseMint s;
     AmountIn := AmountIn s; AmountOut := AmountOut s;
     BaseMintName := BaseMintName s; TokenInfoPtr := TokenInfoPtr s |}.

Definition set_amounts (s : TransactionSummary) (amountIn amountOut : Z)
    : TransactionSummary :=
  {| Operation := Operation s; Direction := Direction s; BaseMint := BaseMint s;
     AmountIn := amountIn; AmountOut := amountOut;
     BaseMintName := BaseMintName s; TokenInfoPtr := TokenInfoPtr s |}.

Definition set_operation (s : TransactionSummary) (op : string)
    : TransactionSummary :=
  {| Operation := op; Direction := Direction s; BaseMint := BaseMint s;
     AmountIn := AmountIn s; AmountOut := AmountOut s;
     BaseMintName := BaseMintName s; TokenInfoPtr := TokenInfoPtr s |}.

(** The dispatch on the first 8 bytes of [instDataBytes]. *)
Definition inspectInstructionData (st : Detection) (instDataBytes : list byte)
    : Exec Inspected :=
  if len instDataBytes >=? 8 then
    currentDiscriminator <- slice instDataBytes 0 8 ;;
    let out := [InstructionDiscriminator currentDiscriminator] in
    if bytes_Equal currentDiscriminator BuyDiscriminator then
      let summary1 := set_direction (summary st) "Buy (SOL → Token)" in
      if len instDataBytes >=? 24 then
        p1 <- slice instDataBytes 8 16 ;;
        baseAmountOut <- LittleEndian_Uint64 p1 ;;
        p2 <- slice instDataBytes 16 24 ;;
        maxQuoteAmountIn <- LittleEndian_Uint64 p2 ;;
        Ret {| detection :=
                 {| isSwapInstruction := true; isBuy := true;
                    isSell := isSell st;
                    summary := set_amounts summary1 maxQuoteAmountIn baseAmountOut |};
               currentDiscriminator := currentDiscriminator;
               printed := out ++ [BuyParameters baseAmountOut maxQuoteAmountIn] |}
      else
        Ret {| detection :=
                 {| isSwapInstruction := true; isBuy := true;
                    isSell := isSell st; summary := summary1 |};
               currentDiscriminator := currentDiscriminator;
               printed := out |}
    else if bytes_Equal currentDiscriminator SellDiscriminator then
      let summary1 := set_direction (summary st) "Sell (Token → SOL)" in
      if len instDataBytes >=? 24 then
        p1 <- slice instDataBytes 8 16 ;;
        baseAmountIn <- LittleEndian_Uint64 p1 ;;
        p2 <- slice instDataBytes 16 24 ;;
        minQuoteAmountOut <- LittleEndian_Uint64 p2 ;;
        Ret {| detection :=
                 {| isSwapInstruction := true; isBuy := isBuy st;
                    isSell := true;
                    summary := set_amounts summary1 baseAmountIn minQuoteAmountOut |};
               currentDiscriminator := currentDiscriminator;
               printed := out ++ [SellParameters baseAmountIn minQuoteAmountOut] |}
      else
        Ret {| detection :=
                 {| isSwapInstruction := true; isBuy := isBuy st;
                    isSell := true; summary := summary1 |};
               currentDiscriminator := currentDiscriminator;
               printed := out |}
    else if bytes_Equal currentDiscriminator CreatePoolDiscriminator then
      Ret {| detection :=
               {| isSwapInstruction := isSwapInstruction st; isBuy := isBuy st;
                  isSell := isSell st;
                  summary := set_operation (summary st) "CreatePool" |};
             currentDiscriminator := currentDiscriminator;
             printed := out ++ [DetectedCreatePool] |}
    else
      let maxPrint := if len instDataBytes >? 32 then 32 else len instDataBytes in
      shown <- slice instDataBytes 0 maxPrint ;;
      Ret {| detection := st;
             currentDiscriminator := currentDiscriminator;
             printed := out ++ [UnknownInstructionType currentDiscriminator shown] |}
  else
    Ret {| detection := st;
           currentDiscriminator := [];
           printed := [DataTooShort (len instDataBytes)] |}.

(** The instruction type reported after the dispatch, from the stored
    discriminator. *)
Definition instructionType (currentDiscriminator : list byte) : string :=
  if bytes_Equal currentDiscriminator BuyDiscriminator then "Buy"
  else if bytes_Equal currentDiscriminator SellDiscriminator then "Sell"
  else if bytes_Equal currentDiscriminator CreatePoolDiscriminator then "CreatePool"
  else "Unknown".

(** The loop over the instructions of a transaction, restricted to the
    inspection of their data: the detection variables are threaded
    through, the reports accumulate. *)
Fixpoint inspectInstructions (st : Detection) (insts : list (list byte))
    : Exec (Detection * list Output) :=
  match insts with
  | [] => Ret (st, [])
  | instDataBytes :: rest =>
      r <- inspectInstructionData st instDataBytes ;;
      rs <- inspectInstructions (detection r) rest ;;
      Ret (fst rs, printed r ++ snd rs)
  end.


(** The report that sums up the detection variables after the loop. *)
Definition detectionReport (isPumpSwap : bool) (st : Detection) : list string :=
  if isPumpSwap then
    "Summary: This is a PumpSwap transaction"%string ::
    (if isSwapInstruction st then
       "Operation: Swap"%string ::
       (if isBuy st then ["Direction: Buy (SOL → Token)"%string]
        else if isSell st then ["Direction: Sell (Token → SOL)"%string]
        else ["Direction: Unknown"%string])
     else ["Operation: Other PumpSwap operation (not a swap)"%string])
  else
    ["Summary: Not a PumpSwap transaction or could not detect PumpSwap operations"%string].

(** ** The encoder of the utils package

    [encodeU64] of the utils package fills a buffer of 8 bytes in a loop. *)

(** The assignment [buf[i] = b]; out of range it panics. *)
Fixpoint set_index {A : Type} (buf : list A) (i : nat) (b : A)
    : Exec (list A) :=
  match buf, i with
  | [], _ => Panic "index out of range"
  | _ :: rest, O => Ret (b :: rest)
  | x :: rest, S i' => rest' <- set_index rest i' b ;; Ret (x :: rest')
  end.

Module utils.

(** [n] rounds of the loop [for ; i < 8; i++], from index [i]. *)
Fixpoint encodeU64_loop (n : nat) (i : Z) (val : Z) (buf : list byte)
    : Exec (list byte) :=
  match n with
  | O => Ret buf
  | S n' =>
      buf' <- set_index buf (Z.to_nat i) (byte.of_Z (Z.shiftr val (i * 8))) ;;
      encodeU64_loop n' (i + 1) val buf'
  end.

Definition encodeU64 (val : Z) : Exec (list byte) :=
  let buf := repeat Byte.x00 8 in
  encodeU64_loop 8 0 val buf.

Section balances.

(** The call [client.GetTokenAccountBalance] for an account, written as
    its base58 text: the text of the amount, or an error; and
    [strconv.ParseUint] in base 10 and 64 bits. *)
Variable GetTokenAccountBalance : string -> string + string.
Variable ParseUint : string -> Z + string.

(** The loop [for i, account := range accounts] of [GetMulTokenBalance],
    from index [i]. *)
Fixpoint GetMulTokenBalance_loop (accounts : list string) (i : Z)
    (balances : list Z) : Exec (list Z * error) :=
  match accounts with
  | [] => Ret (balances, None)
  | account :: rest =>
      match GetTokenAccountBalance account with
      | inr err =>
          Ret ([], Some ("failed to get balance for account " ++ account
                           ++ ": " ++ err)%string)
      | inl amount =>
          match ParseUint amount with
          | inr err =>
              Ret ([], Some ("failed to parse balance amount for account "
                               ++ account ++ ": " ++ err)%string)
          | inl balance =>
              balances' <- set_index balances (Z.to_nat i) balance ;;
              GetMulTokenBalance_loop rest (i + 1) balances'
          end
      end
  end.

(** [GetMulTokenBalance] of the package [utils]. *)
Definition GetMulTokenBalance (accounts : list string)
    : Exec (list Z * error) :=
  if len accounts =? 0
  then Ret ([], Some "no accounts provided"%string)
  else
    let balances := repeat 0 (List.length accounts) in
    GetMulTokenBalance_loop accounts 0 balances.

End balances.

End utils.

(** The index expression [s[i]]; out of range it panics. *)
Definition index {A : Type} (s : list A) (i : Z) : Exec A :=
  if (0 <=? i) && (i <? len s)
  then match nth_error s (Z.to_nat i) with
       | Some b => Ret b
       | None => Panic "index out of range"
       end
  else Panic "index out of range".

(** Go's conversion [uint32(x)] of a [uint64]. *)
Definition uint32 (x : Z) : Z := x mod 2 ^ 32.

(** ** The conversion of the amount typed by the user *)

(** [Decimal.BigInt]: the integer part as a [big.Int]. *)
Definition BigInt (d : Decimal) : Z := value (rescale d 0).

(** [big.Int.Uint64]: the low 64 bits of the magnitude. *)
Definition bigUint64 (x : Z) : Z := Z.abs x mod 2 ^ 64.

(** [amountInLamports] of [ExecutePumpSwap], from the parsed amount: 9
    decimals for a buy, paid in SOL, 6 for a sell. *)
Definition amountInLamports (amountDecimal : Decimal) (isBuy : bool) : Z :=
  if isBuy then bigUint64 (BigInt (Mul amountDecimal (New 1 9)))
  else bigUint64 (BigInt (Mul amountDecimal (New 1 6))).

(** [amtUint64] of [executePumpSwap], from the parsed amount. *)
Definition amtUint64 (amtDecimal : Decimal) : Z :=
  let amtDecimal := Mul amtDecimal (NewFromInt 1000000000) in
  uint64 (IntPart amtDecimal).

(** ** The loop over the instructions of a transaction

    A public key is written as its base58 text. *)

(** [pumpSwapProgramID]. *)
Definition pumpSwapProgramID : string :=
  "pAMMBay6oceH9fJKBRHGP5D4bD4sWpmSwMn52FMfXEA".

Definition accountRoles : list string :=
  ["Pool"; "User"; "Global Config"; "Base Mint (Token)"; "Quote Mint (SOL)";
   "User Base Token Account"; "User Quote Token Account";
   "Pool Base Token Account"; "Pool Quote Token Account";
   "Protocol Fee Recipient"; "Protocol Fee Recipient Token Account";
   "Base Token Program"; "Quote Token Program"; "System Program";
   "Associated Token Program"; "Event Authority"; "Program"]%string.

(** An instruction of the decoded message; [InstData] is [instDataBytes],
    the data of the instruction after the attempt to read them as
    base58. *)
Record CompiledInstruction : Type := {
  ProgramIDIndex : Z;
  InstData : list byte;
  Accounts : list Z
}.

Definition set_BaseMint (s : TransactionSummary) (v : string)
    : TransactionSummary :=
  {| Operation := Operation s; Direction := Direction s; BaseMint := v;
     AmountIn := AmountIn s; AmountOut := AmountOut s;
     BaseMintName := BaseMintName s; TokenInfoPtr := TokenInfoPtr s |}.

Definition set_TokenInfo (s : TransactionSummary) (tokenInfo : TokenInfo)
    (name : string) : TransactionSummary :=
  {| Operation := Operation s; Direction := Direction s;
     BaseMint := BaseMint s;
     AmountIn := AmountIn s; AmountOut := AmountOut s;
     BaseMintName := name; TokenInfoPtr := Some tokenInfo |}.

Section analysis.

(** [getTokenInfo], for the endpoint of the analysis: the token
    information ([None] for [nil]) and an error. *)
Variable getTokenInfo : string -> option TokenInfo * error.

(** What the analysis does with the account in the role of the base
    mint. *)
Definition captureBaseMint (s : TransactionSummary) (tokenAddress : string)
    : TransactionSummary :=
  let s := set_BaseMint s tokenAddress in
  match TokenInfoPtr s with
  | Some _ => s
  | None =>
      match getTokenInfo tokenAddress with
      | (_, Some err) => s
      | (Some tokenInfo, None) =>
          set_TokenInfo s tokenInfo
            (if (Name tokenInfo =? "")%string then Symbol tokenInfo
             else Name tokenInfo)
      | (None, None) => s
      end
  end.

(** The loop over the accounts of an instruction, from position [j]. *)
Fixpoint accountsLoop (AccountKeys : list string) (accounts : list Z) (j : Z)
    (s : TransactionSummary) : Exec TransactionSummary :=
  match accounts with
  | [] => Ret s
  | accIdx :: rest =>
      if accIdx <? len AccountKeys then
        account <- index AccountKeys accIdx ;;
        if j <? len accountRoles then
          role <- index accountRoles j ;;
          if (role =? "Base Mint (Token)")%string
          then accountsLoop AccountKeys rest (j + 1) (captureBaseMint s account)
          else accountsLoop AccountKeys rest (j + 1) s
        else accountsLoop AccountKeys rest (j + 1) s
      else accountsLoop AccountKeys rest (j + 1) s
  end.

(** The body of the loop over the instructions, on [isPumpSwap] and the
    detection variables. *)
Definition analyzeInstruction (AccountKeys : list string)
    (state : bool * Detection) (inst : CompiledInstruction)
    : Exec (bool * Detection) :=
  let programIdIndex := ProgramIDIndex inst in
  if programIdIndex <? len AccountKeys then
    programID <- index AccountKeys programIdIndex ;;
    if (programID =? pumpSwapProgramID)%string then
      r <- inspectInstructionData (snd state) (InstData inst) ;;
      s <- accountsLoop AccountKeys (Accounts inst) 0
             (summary (detection r)) ;;
      Ret (true,
           {| isSwapInstruction := isSwapInstruction (detection r);
              isBuy := isBuy (detection r);
              isSell := isSell (detection r);
              summary := s |})
    else Ret state
  else Ret state.

Fixpoint analyzeInstructions (AccountKeys : list string)
    (state : bool * Detection) (insts : list CompiledInstruction)
    : Exec (bool * Detection) :=
  match insts with
  | [] => Ret state
  | inst :: rest =>
      state' <- analyzeInstruction AccountKeys state inst ;;
      analyzeInstructions AccountKeys state' rest
  end.

End analysis.

(** ** The swap instruction *)

(** The valid protocol fee recipients of the swap client. *)
Definition validProtocolFeeRecipients : list string :=
  ["62qc2CNXwrYqQScmEdiZFFAnJR262PxWEuNQtxfafNgV";
   "7VtfL8fvgNfhz17qKRMjzQEXgbdpnHHHQRh54R9jP2RJ";
   "7hTckgnGnLQR6sdH7YkqFTAA7VwTfYFaZ6EhEsU3saCX";
   "9rPYyANsfQZw3DnDmKE3YCQF5E8oD89UXoHn9JFEhJUz";
   "AVmoTthdrX6tKt4nDjco2D775W2YK3sDhxPcMmzUAmTY";
   "FWsW1xNtWscwNmKv6wVsU1iTzRN6wmmk3MjxRP5tT7hz";
   "G5UZAVbAf46s7cKWoyKu8kYTip9DGTpbLZ2qa9Aq69dP"]%string.

Module amm.

Definition ProtocolFeeRecipient0x00 : string :=
  "62qc2CNXwrYqQScmEdiZFFAnJR262PxWEuNQtxfafNgV".
Definition ProtocolFeeRecipient0x01 : string :=
  "7VtfL8fvgNfhz17qKRMjzQEXgbdpnHHHQRh54R9jP2RJ".
Definition ProtocolFeeRecipient0x02 : string :=
  "7hTckgnGnLQR6sdH7YkqFTAA7VwTfYFaZ6EhEsU3saCX".
Definition ProtocolFeeRecipient0x03 : string :=
  "9rPYyANsfQZw3DnDmKE3YCQF5E8oD89UXoHn9JFEhJUz".
Definition ProtocolFeeRecipient0x04 : string :=
  "AVmoTthdrX6tKt4nDjco2D775W2YK3sDhxPcMmzUAmTY".
Definition ProtocolFeeRecipient0x05 : string :=
  "FWsW1xNtWscwNmKv6wVsU1iTzRN6wmmk3MjxRP5tT7hz".
Definition ProtocolFeeRecipient0x06 : string :=
  "G5UZAVbAf46s7cKWoyKu8kYTip9DGTpbLZ2qa9Aq69dP".
Definition ProtocolFeeRecipient0x07 : string :=
  "G5UZAVbAf46s7cKWoyKu8kYTip9DGTpbLZ2qa9Aq69dP".

Definition ProtocolFeeRecipients : list string :=
  [ProtocolFeeRecipient0x00; ProtocolFeeRecipient0x01;
   ProtocolFeeRecipient0x02; ProtocolFeeRecipient0x03;
   ProtocolFeeRecipient0x04; ProtocolFeeRecipient0x05;
   ProtocolFeeRecipient0x06; ProtocolFeeRecipient0x07].

(** [ProtocolFeeRecipients[i]], for an index of the array. *)
Definition recipient_at (i : nat) : string := nth i ProtocolFeeRecipients ""%string.

Definition ValidateProtocolFeeRecipient (recipient : string) : error :=
  if negb (recipient =? recipient_at 0)%string
     && negb (recipient =? recipient_at 1)%string
     && negb (recipient =? recipient_at 2)%string
     && negb (recipient =? recipient_at 3)%string
     && negb (recipient =? recipient_at 4)%string
     && negb (recipient =? recipient_at 5)%string
     && negb (recipient =? recipient_at 6)%string
     && negb (recipient =? recipient_at 7)%string
  then Some ("invalid protocol fee recipient: " ++ recipient)%string
  else None.

(** [SwapDirection]. *)
Definition BuyDirection : Z := 0.
Definition SellDirection : Z := 1.

Record SwapParam : Type := {
  Direction : Z;
  TokenAmount1 : Z;
  TokenAmount2 : Z;
  Pool : string;
  User : string;
  BaseMint : string;
  QuoteMint : string;
  UserBaseTokenAccount : string;
  UserQuoteTokenAccount : string;
  PoolBaseTokenAccount : string;
  PoolQuoteTokenAccount : string;
  ProtocolFeeRecipient : string;
  ProtocolFeeRecipientTokenAccount : string;
  BaseTokenProgram : string;
  QuoteTokenProgram : string
}.

Section instructions.

(** The instructions, and the generated builders [NewBuyInstruction] and
    [NewSellInstruction] followed by [ValidateAndBuild], applied to the two
    amounts and the accounts of the parameter and to the constant accounts
    of the package: an instruction ([None] for [nil]) and an error. *)
Variable Instruction : Type.
Variable NewBuyInstruction NewSellInstruction
  : SwapParam -> option Instruction * error.

Definition NewSwapInstruction (para : SwapParam) : option Instruction * error :=
  if Direction para =? BuyDirection then
    match ValidateProtocolFeeRecipient (ProtocolFeeRecipient para) with
    | Some err => (None, Some err)
    | None => NewBuyInstruction para
    end
  else if Direction para =? SellDirection then
    match ValidateProtocolFeeRecipient (ProtocolFeeRecipient para) with
    | Some err => (None, Some err)
    | None => NewSellInstruction para
    end
  else
    (None,
     Some ("unknown swap direction: "
           ++ NilZero.string_of_int (Z.to_int (Direction para)))%string).

End instructions.

End amm.

Section swap_instruction.

Variable Instruction : Type.
Variable NewBuyInstruction NewSellInstruction
  : amm.SwapParam -> option Instruction * error.

(** [createPumpSwapInstruction] of the utils package. *)
Definition createPumpSwapInstruction
    (pool user baseMint quoteMint userBaseTokenAccount userQuoteTokenAccount
       poolBaseTokenAccount poolQuoteTokenAccount protocolFeeRecipient
       protocolFeeRecipientTokenAccount : string)
    (minAmountOut amountIn : Z) : option Instruction * error :=
  let baseTokenProgram := "TokenkegQfeZyiNwAJbNbGKPFXCWuBvf9Ss623VQ5DA"%string in
  let quoteTokenProgram := "TokenkegQfeZyiNwAJbNbGKPFXCWuBvf9Ss623VQ5DA"%string in
  let swapParam :=
    {| amm.TokenAmount1 := minAmountOut;
       amm.TokenAmount2 := amountIn;
       amm.Direction := amm.BuyDirection;
       amm.Pool := pool;
       amm.User := user;
       amm.BaseMint := baseMint;
       amm.QuoteMint := quoteMint;
       amm.UserBaseTokenAccount := userBaseTokenAccount;
       amm.UserQuoteTokenAccount := userQuoteTokenAccount;
       amm.PoolBaseTokenAccount := poolBaseTokenAccount;
       amm.PoolQuoteTokenAccount := poolQuoteTokenAccount;
       amm.ProtocolFeeRecipient := protocolFeeRecipient;
       amm.ProtocolFeeRecipientTokenAccount := protocolFeeRecipientTokenAccount;
       amm.BaseTokenProgram := baseTokenProgram;
       amm.QuoteTokenProgram := quoteTokenProgram |} in
  let '(swapInstruction, _) :=
    amm.NewSwapInstruction Instruction NewBuyInstruction NewSellInstruction
      swapParam in
  (swapInstruction, None).

End swap_instruction.

(** ** The sell quote on the bonding curve *)

(** [big.Int.Div]: Euclidean division, which panics on a zero divisor. *)
Definition bigDiv (x y : Z) : Exec Z :=
  if y =? 0 then Panic "division by zero"
  else if 0 <? y then Ret (x / y)
  else Ret (- (x / - y)).

Section sell_quote.

(** Go's [float64], and the product of an integer and a [float64] computed
    with [big.Float] and cut to an integer ([Mul] then [Int]). *)
Variable float64 : Type.
Variable scaled_by : Z -> float64 -> Z.

(** [calculateSellQuote], from the two virtual reserves of the bonding
    curve; [tokenAmount] goes through [int64]. *)
Definition calculateSellQuote
    (tokenAmount virtualSolReserves virtualTokenReserves : Z)
    (percentage : float64) : Exec (Z * Z) :=
  let amount := to_int64 tokenAmount in
  let x := virtualSolReserves * virtualTokenReserves in
  let y := virtualTokenReserves + amount in
  a <- bigDiv x y ;;
  let out := virtualSolReserves - a in
  let final := scaled_by out percentage in
  Ret (bigUint64 final, bigUint64 out).

End sell_quote.

(** ** The retry loop of the RPC calls *)

Definition maxRetries : nat := 3.

Section retry.

Variable T : Type.

(** The answer of the network to the call of each attempt, numbered from
    0: a value or an error. *)
Variable call : nat -> T + string.

(** The loop [for retryCount := 0; retryCount < maxRetries; retryCount++]
    with [n] rounds left: the value or the error last assigned, the number
    of calls made and the seconds slept, in order. *)
Fixpoint retry_from (n retryCount : nat) (last : T + string) (slept : list Z)
    : (T + string) * nat * list Z :=
  match n with
  | O => (last, retryCount, slept)
  | S n' =>
      match call retryCount with
      | inl v => (inl v, S retryCount, slept)
      | inr err =>
          let slept :=
            if (retryCount <? maxRetries - 1)%nat
            then slept ++ [Z.of_nat (retryCount + 1)]
            else slept in
          retry_from n' (S retryCount) (inr err) slept
      end
  end.

(** The loop as [getHistoricalTransactions] and [decodeSpecificTransaction]
    run it; [err] is [nil] before it. *)
Definition with_retries (zero : T) : (T + string) * nat * list Z :=
  retry_from maxRetries 0 (inl zero) [].

End retry.

(** ** The fallback endpoints *)

Definition fallbackRPCEndpoints : list string :=
  ["https://api.mainnet-beta.solana.com";
   "https://solana-api.projectserum.com";
   "https://rpc.ankr.com/solana";
   "https://solana-mainnet.g.alchemy.com/v2/demo";
   "https://mainnet.rpcpool.com"]%string.

Section fallback.

(** The error of [decodeSpecificTransaction], or of
    [getHistoricalTransactions], run at an endpoint. *)
Variable run : string -> error.

(** The loop [for i, endpoint := range fallbackRPCEndpoints] of [main] and
    [decodeTxCmd]: [success] and the endpoints run, in order. *)
Fixpoint try_fallbacks (rpcEndpoint : string) (endpoints : list string)
    (ran : list string) : bool * list string :=
  match endpoints with
  | [] => (false, ran)
  | endpoint :: rest =>
      if (endpoint =? rpcEndpoint)%string
      then try_fallbacks rpcEndpoint rest ran
      else
        match run endpoint with
        | None => (true, ran ++ [endpoint])
        | Some _ => try_fallbacks rpcEndpoint rest (ran ++ [endpoint])
        end
  end.

(** The primary endpoint, then the fallbacks when it fails: whether the
    command succeeds (it exits with status 1 otherwise) and the endpoints
    run. *)
Definition with_fallbacks (rpcEndpoint : string) : bool * list string :=
  match run rpcEndpoint with
  | None => (true, [rpcEndpoint])
  | Some _ => try_fallbacks rpcEndpoint fallbackRPCEndpoints [rpcEndpoint]
  end.

End fallback.

(** ** The reserves of the pool *)

(** The answer of [GetMultipleAccountsWithOpts]: an error, or one entry for
    each account asked for, [None] for an entry that is [nil] or has no
    data. *)
Definition AccountsResult : Type := (list (option (list byte)) + string)%type.

(** [in.AmountIn] and [in.Slippage] of [executePumpSwap]: the amount is
    [decimal.NewFromString("0.0001")]. *)
Definition in_AmountIn : Decimal := New 1 (-4).
Definition in_Slippage : Z := 10.

Section reserves.

(** The binary decoding of a [token.Account], of the solana-go library:
    the amount held, or an error. *)
Variable decodeAmount : list byte -> Z + string.

(** The loop of [GetMulTokenBalance] over the entries of the answer. *)
Fixpoint balances_loop (values : list (option (list byte))) (amounts : list Z)
    : list Z * error :=
  match values with
  | [] => (amounts, None)
  | None :: rest => balances_loop rest amounts
  | Some data :: rest =>
      match decodeAmount data with
      | inr err => ([], Some err)
      | inl amount => balances_loop rest (amounts ++ [amount])
      end
  end.

(** [GetMulTokenBalance] of the swap client, given the answer of the call. *)
Definition GetMulTokenBalance (res : AccountsResult) : list Z * error :=
  match res with
  | inr err => ([], Some err)
  | inl values => balances_loop values []
  end.

(** [GetMultipleTokenBalances] of the utils package: the same, but no call
    is made for no account. *)
Definition GetMultipleTokenBalances {K : Type} (accounts : list K)
    (res : AccountsResult) : list Z * error :=
  if len accounts =? 0 then ([], None)
  else
    match res with
    | inr err => ([], Some err)
    | inl values => balances_loop values []
    end.

(** The steps of [ExecutePumpSwap] from the reserves of the two pool
    accounts to [minAmountOut]: the function goes on with [inl minAmountOut]
    or returns the error [inr]. *)
Definition ExecutePumpSwap_minAmountOut {K : Type}
    (poolBaseAccount poolQuoteAccount : K) (res : AccountsResult)
    (slippage amountInLamports : Z) (isBuy : bool) : Exec (Z + string) :=
  let feeRate := 2500 in
  let '(reserves, err) :=
    GetMultipleTokenBalances [poolBaseAccount; poolQuoteAccount] res in
  match err with
  | Some e => Ret (inr ("failed to get pool reserves: " ++ e)%string)
  | None =>
      if len reserves <? 2
      then Ret (inr "failed to get both pool reserves"%string)
      else
        reserves0 <- index reserves 0 ;;
        reserves1 <- index reserves 1 ;;
        r <- CalculateMinAmountOut (uint32 slippage) amountInLamports isBuy
               reserves0 reserves1 feeRate ;;
        let '(minAmountOut, _, err) := r in
        match err with
        | Some e =>
            Ret (inr ("failed to calculate minimum amount out: " ++ e)%string)
        | None => Ret (inl minAmountOut)
        end
  end.

(** The same steps of [executePumpSwap]: the error of [GetMulTokenBalance]
    is overwritten before it is read. *)
Definition executePumpSwap_minAmountOut (res : AccountsResult) (isBuy : bool)
    : Exec (Z + string) :=
  let amtUint64 := amtUint64 in_AmountIn in
  let '(amounts, _) := GetMulTokenBalance res in
  amounts0 <- index amounts 0 ;;
  amounts1 <- index amounts 1 ;;
  r <- CalcMinAmountOutByAmm in_Slippage amtUint64 isBuy amounts0 amounts1
         2500 ;;
  let '(minAmountOut, _, err) := r in
  match err with
  | Some e => Ret (inr e)
  | None => Ret (inl minAmountOut)
  end.

End reserves.

(** ** The token metadata decoder *)

(** [binary.LittleEndian.Uint32]. *)
Definition LittleEndian_Uint32 (b : list byte) : Exec Z :=
  match b with
  | b0 :: b1 :: b2 :: b3 :: _ =>
      Ret (Z.lor (byte.unsigned b0)
          (Z.lor (Z.shiftl (byte.unsigned b1) 8)
          (Z.lor (Z.shiftl (byte.unsigned b2) 16)
                 (Z.shiftl (byte.unsigned b3) 24))))
  | _ => Panic "index out of range"
  end.


Module metadata.

Record MetaData : Type := {
  Name : string;
  Symbol : string;
  Uri : string
}.

Record TokenMetadata : Type := {
  Key : byte;
  UpdateAuth : string;
  Mint : string;
  Data : MetaData
}.

Definition set_Name (m : TokenMetadata) (v : string) : TokenMetadata :=
  {| Key := Key m; UpdateAuth := UpdateAuth m; Mint := Mint m;
     Data := {| Name := v; Symbol := Symbol (Data m); Uri := Uri (Data m) |} |}.

Definition set_Symbol (m : TokenMetadata) (v : string) : TokenMetadata :=
  {| Key := Key m; UpdateAuth := UpdateAuth m; Mint := Mint m;
     Data := {| Name := Name (Data m); Symbol := v; Uri := Uri (Data m) |} |}.

Definition set_Uri (m : TokenMetadata) (v : string) : TokenMetadata :=
  {| Key := Key m; UpdateAuth := UpdateAuth m; Mint := Mint m;
     Data := {| Name := Name (Data m); Symbol := Symbol (Data m); Uri := v |} |}.

Section decoder.

(** [solana.PublicKey.String] of the solana-go library: the base58 text of
    the 32 bytes copied into the key. *)
Variable PublicKey_String : list byte -> string.

(** [decodeTokenMetadata]: the pair of the metadata pointer ([None] for
    [nil]) and the error.  The positions are of type [int], 64 bits wide,
    so the sums of a position and a 32-bit length do not wrap. *)
Definition decodeTokenMetadata (data : list byte)
    : Exec (option TokenMetadata * error) :=
  if len data <? 1 then Ret (None, Some "metadata too short"%string)
  else
    key <- index data 0 ;;
    let metadata :=
      {| Key := key; UpdateAuth := ""; Mint := "";
         Data := {| Name := ""; Symbol := ""; Uri := "" |} |} in
    if len data <? 65 then Ret (Some metadata, None)
    else
      updateAuth <- slice data 1 33 ;;
      mint <- slice data 33 65 ;;
      let metadata :=
        {| Key := Key metadata; UpdateAuth := PublicKey_String updateAuth;
           Mint := PublicKey_String mint; Data := Data metadata |} in
      if len data >? 69 then
        l <- slice data 65 69 ;;
        nameLen <- LittleEndian_Uint32 l ;;
        let startPos := 69 in
        if len data >=? startPos + nameLen then
          name <- slice data startPos (startPos + nameLen) ;;
          let metadata := set_Name metadata (string_of_list_byte name) in
          let startPos := startPos + nameLen in
          if len data >=? startPos + 4 then
            l <- slice data startPos (startPos + 4) ;;
            symbolLen <- LittleEndian_Uint32 l ;;
            let startPos := startPos + 4 in
            if len data >=? startPos + symbolLen then
              symbol <- slice data startPos (startPos + symbolLen) ;;
              let metadata := set_Symbol metadata (string_of_list_byte symbol) in
              let startPos := startPos + symbolLen in
              if len data >=? startPos + 4 then
                l <- slice data startPos (startPos + 4) ;;
                uriLen <- LittleEndian_Uint32 l ;;
                let startPos := startPos + 4 in
                if len data >=? startPos + uriLen then
                  uri <- slice data startPos (startPos + uriLen) ;;
                  Ret (Some (set_Uri metadata (string_of_list_byte uri)), None)
                else Ret (Some metadata, None)
              else Ret (Some metadata, None)
            else Ret (Some metadata, None)
          else Ret (Some metadata, None)
        else Ret (Some metadata, None)
      else Ret (Some metadata, None).

End decoder.

End metadata.

(** ** Auxiliary definitions for the statements *)

(** The mantissa [DivRound] produces from the integers [a] and [b] it
    divides: the truncated quotient, moved away from zero by one when the
    remainder is at least half the divisor. *)
Definition round_quot (a b : Z) : Z :=
  let q := Z.quot a b in
  let r := Z.rem a b in
  if 2 * Z.abs r <? Z.abs b then q
  else if Z.sgn a * Z.sgn b <? 0 then q - 1 else q + 1.

(** The two integers [QuoRem] divides. *)
Definition div_operands (d d2 : Decimal) : Z * Z :=
  let e := exp d - exp d2 + DivisionPrecision in
  if e <? 0 then (value d, value d2 * 10 ^ (- e))
  else (value d * 10 ^ e, value d2).

Definition div_mantissa (d d2 : Decimal) : Z :=
  round_quot (fst (div_operands d d2)) (snd (div_operands d d2)).

(** The rational number a decimal stands for. *)
Definition toQ (d : Decimal) : Q :=
  (inject_Z (value d) * inject_Z 10 ^ exp d)%Q.

(** *** Exact and rounded arithmetic on rationals, as the quote is
    described *)

Definition Qpositive (x : Q) : bool := negb (Qle_bool x 0).

(** The integer part: truncation toward zero. *)
Definition integer_part (x : Q) : Z := Z.quot (Qnum x) (Zpos (Qden x)).

(** Rounding to the nearest integer, a half away from zero. *)
Definition round_half_away (x : Q) : Z :=
  if Qle_bool 0 x then Qfloor (x + (1 # 2))
  else - Qfloor (- x + (1 # 2)).

(** Rounding to [n] digits after the decimal point. *)
Definition round_places (n : Z) (x : Q) : Q :=
  (inject_Z (round_half_away (x * inject_Z 10 ^ n)) / inject_Z 10 ^ n)%Q.

Definition exactly (x : Q) : Q := x.

Record Quote : Type := {
  fee : Q;
  amountInNet : Q;
  k : Q;
  newInputReserve : Q;
  newOutputReserve : Q;
  exactAmountOut : Q;
  minAmountOut : Q
}.

(** The six steps of the quote; [div_round] is applied to the quotient of
    step 4 and [min_round] to the result of step 6. *)
Definition quote_steps (div_round min_round : Q -> Q)
    (slippageBasisPoints amountIn inputReserve outputReserve feeRate : Z)
    : Quote :=
  let fee := (inject_Z amountIn * (inject_Z feeRate / inject_Z 1000000))%Q in
  let amountInNet := (inject_Z amountIn - fee)%Q in
  let k := (inject_Z inputReserve * inject_Z outputReserve)%Q in
  let newInputReserve := (inject_Z inputReserve + amountInNet)%Q in
  let newOutputReserve := div_round (k / newInputReserve)%Q in
  let exactAmountOut := (inject_Z outputReserve - newOutputReserve)%Q in
  let minAmountOut :=
    min_round (exactAmountOut * (inject_Z 10000 - inject_Z slippageBasisPoints)
               / inject_Z 10000)%Q in
  {| fee := fee; amountInNet := amountInNet; k := k;
     newInputReserve := newInputReserve;
     newOutputReserve := newOutputReserve;
     exactAmountOut := exactAmountOut; minAmountOut := minAmountOut |}.

(** The quote in exact arithmetic. *)
Definition exact_quote := quote_steps exactly exactly.

(** The quote with the quotient of step 4 kept to 16 digits. *)
Definition swap_quote := quote_steps (round_places 16) exactly.

(** The quote with the quotient of step 4 and the result of step 6 kept to
    16 digits. *)
Definition utils_quote := quote_steps (round_places 16) (round_places 16).

(** The triple returned for a quote: the integer parts as [uint64] when both
    amounts are positive, zeros and [err] otherwise. *)
Definition quote_result (q : Quote) (err : error) : Z * Z * error :=
  if Qpositive (minAmountOut q) && Qpositive (exactAmountOut q)
  then (uint64 (integer_part (minAmountOut q)),
        uint64 (integer_part (exactAmountOut q)), None)
  else (0, 0, err).

(** The divisor of step 4, [newInputReserve], multiplied by 1,000,000. *)
Definition scaled_divisor (amountIn inputReserve feeRate : Z) : Z :=
  inputReserve * 1000000 + amountIn * (1000000 - feeRate).

(** The mantissa, at 16 digits, of [outDecimal]: the output reserve less the
    rounded quotient of step 4. *)
Definition out_mantissa (amountIn inputReserve outputReserve feeRate : Z) : Z :=
  outputReserve * 10 ^ 16
  - round_quot (inputReserve * outputReserve * 10 ^ 32)
               (scaled_divisor amountIn inputReserve feeRate * 10 ^ 10).

(** The roles [CalculateMinAmountOut] gives its two reserves. *)
Definition in_reserve (isBuy : bool) (tokenAmount baseAmount : Z) : Z :=
  if isBuy then baseAmount else tokenAmount.
Definition out_reserve (isBuy : bool) (tokenAmount baseAmount : Z) : Z :=
  if isBuy then tokenAmount else baseAmount.

(** The triple returned for the mantissas of [minOut] (with [n] digits)
    and [outDecimal]. *)
Definition result_of_mantissas (mv : Z) (n : Z) (om : Z) (err : error)
    : Z * Z * error :=
  if (0 <? mv) && (0 <? om)
  then (uint64 (Z.quot mv (10 ^ n)), uint64 (Z.quot om (10 ^ 16)), None)
  else (0, 0, err).

(** The integer inputs of the quote, as the Go types bound them. *)
Definition is_uint64 (x : Z) : Prop := 0 <= x < 2 ^ 64.

(** The outcome of a quote described by [q]: the panic of the division when
    the divisor of step 4 is zero, the returned triple otherwise. *)
Definition quote_outcome (q : Z -> Z -> Z -> Z -> Z -> Quote) (err : error)
    (slippageBasisPoints amountIn inputReserve outputReserve feeRate : Z)
    : Exec (Z * Z * error) :=
  let quote :=
    q slippageBasisPoints amountIn inputReserve outputReserve feeRate in
  if Qeq_bool (newInputReserve quote) 0
  then Panic "decimal division by 0"
  else Ret (quote_result quote err).

(** The error value of [CalculateMinAmountOut]. *)
Definition zero_or_negative : error :=
  Some "calculated amount out is zero or negative"%string.

(** A call that returned the minimum [m] and the exact output [e]. *)
Definition returns (r : Exec (Z * Z * error)) (m e : Z) : Prop :=
  exists err, r = Ret (m, e, err).


(** The data of the entries of an answer that are not skipped. *)
Definition present (values : list (option (list byte))) : list (list byte) :=
  flat_map (fun v => match v with Some data => [data] | None => [] end) values.

(** The balance of an account: the amount answered for it, parsed. *)
Definition balance_of (GetTokenAccountBalance : string -> string + string)
    (ParseUint : string -> Z + string) (account : string) (balance : Z)
    : Prop :=
  exists amount,
    GetTokenAccountBalance account = inl amount
    /\ ParseUint amount = inl balance.

(** Token information that holds a name only. *)
Definition token_named (name : string) : TokenInfo :=
  {| Symbol := ""; Name := name; Decimals := 6; Description := "";
     Image := ""; Website := ""; Twitter := ""; Telegram := "" |}.

(** An instruction whose program is the PumpSwap program. *)
Definition uses_PumpSwap (AccountKeys : list string)
    (inst : CompiledInstruction) : bool :=
  (ProgramIDIndex inst <? len AccountKeys)
  && match nth_error AccountKeys (Z.to_nat (ProgramIDIndex inst)) with
     | Some programID => (programID =? pumpSwapProgramID)%string
     | None => false
     end.

(** The key of the account in the role of the base mint, the fourth
    account of an instruction, when its index is one of the message. *)
Definition base_mint (AccountKeys : list string) (accounts : list Z)
    : option string :=
  match accounts with
  | _ :: _ :: _ :: accIdx :: _ =>
      if accIdx <? len AccountKeys
      then nth_error AccountKeys (Z.to_nat accIdx)
      else None
  | _ => None
  end.

(** The indices of an instruction are of type [uint16], not negative. *)
Definition indices_typed (inst : CompiledInstruction) : Prop :=
  0 <= ProgramIDIndex inst /\ Forall (fun accIdx => 0 <= accIdx) (Accounts inst).

(** A payload of at least 8 bytes whose first 8 bytes are [d]. *)
Definition starts_with (payload d : list byte) : bool :=
  (8 <=? len payload) && bytes_Equal (firstn 8 payload) d.

Definition is_buy (payload : list byte) : bool :=
  starts_with payload BuyDiscriminator.

Definition is_sell (payload : list byte) : bool :=
  starts_with payload SellDiscriminator.

(** ** The decimal operations *)

Lemma round_quot_exact (a b : Z) : b <> 0 -> round_quot (a * b) b = a.
Proof.
  intros Hb. unfold round_quot.
  rewrite Z.quot_mul, Z.rem_mul by assumption.
  simpl. destruct (0 <? Z.abs b) eqn:E; [reflexivity | lia].
Qed.

Lemma round_quot_nonneg (a b : Z) :
  0 <= a -> 0 < b -> round_quot a b = (2 * a + b) / (2 * b).
Proof.
  intros Ha Hb. unfold round_quot.
  rewrite Z.quot_div_nonneg, Z.rem_mod_nonneg by lia.
  pose proof (Z.div_mod a b ltac:(lia)) as Hdm.
  pose proof (Z.mod_pos_bound a b Hb) as Hm.
  set (q := a / b) in *. set (r := a mod b) in *.
  rewrite (Z.abs_eq r), (Z.abs_eq b) by lia.
  destruct (2 * r <? b) eqn:E.
  - apply Z.ltb_lt in E. apply (Z.div_unique _ _ q (2 * r + b)); lia.
  - apply Z.ltb_ge in E.
    replace (Z.sgn a * Z.sgn b <? 0) with false
      by (symmetry; apply Z.ltb_ge; rewrite (Z.sgn_pos b) by lia;
          destruct (Z.sgn_spec a) as [[? ->]|[[? ->]|[? ->]]]; lia).
    apply (Z.div_unique _ _ (q + 1) (2 * r - b)); lia.
Qed.

Lemma round_quot_opp_l (a b : Z) :
  b <> 0 -> round_quot (- a) b = - round_quot a b.
Proof.
  intros Hb. unfold round_quot.
  rewrite Z.quot_opp_l, Z.rem_opp_l, Z.abs_opp, Z.sgn_opp by assumption.
  destruct (2 * Z.abs (Z.rem a b) <? Z.abs b) eqn:E; [reflexivity|].
  apply Z.ltb_ge in E.
  assert (Ha : a <> 0).
  { intros ->. rewrite Z.rem_0_l in E by assumption. simpl in E. lia. }
  destruct (Z.sgn_spec a) as [[? ->]|[[? ->]|[? ->]]];
    destruct (Z.sgn_spec b) as [[? ->]|[[? ->]|[? ->]]]; try lia; simpl; lia.
Qed.

Lemma round_quot_nonpos (a b : Z) : a <= 0 -> 0 < b -> round_quot a b <= 0.
Proof.
  intros Ha Hb. replace a with (- - a) by lia.
  rewrite round_quot_opp_l, round_quot_nonneg by lia.
  pose proof (Z.div_pos (2 * - a + b) (2 * b)). lia.
Qed.

Lemma round_quot_nonneg_result (a b : Z) :
  0 <= a -> 0 < b -> 0 <= round_quot a b.
Proof.
  intros Ha Hb. rewrite round_quot_nonneg by lia. apply Z.div_pos; lia.
Qed.

Lemma round_quot_mono (a a' b : Z) :
  a <= a' -> 0 < b -> round_quot a b <= round_quot a' b.
Proof.
  intros Ha Hb.
  destruct (Z.le_gt_cases 0 a) as [H0|H0].
  - rewrite !round_quot_nonneg by lia. apply Z.div_le_mono; lia.
  - destruct (Z.le_gt_cases 0 a') as [H1|H1].
    + pose proof (round_quot_nonpos a b ltac:(lia) Hb).
      pose proof (round_quot_nonneg_result a' b H1 Hb). lia.
    + rewrite <- (Z.opp_involutive a), <- (Z.opp_involutive a').
      rewrite (round_quot_opp_l (- a) b), (round_quot_opp_l (- a') b) by lia.
      rewrite !round_quot_nonneg by lia.
      apply Z.opp_le_mono. rewrite !Z.opp_involutive.
      apply Z.div_le_mono; lia.
Qed.

(** The rounded quotient is within half a unit of the exact one. *)
Lemma round_quot_error (a b : Z) :
  0 <= a -> 0 < b -> 2 * Z.abs (round_quot a b * b - a) <= b.
Proof.
  intros Ha Hb. rewrite round_quot_nonneg by lia.
  pose proof (Z.div_mod (2 * a + b) (2 * b) ltac:(lia)) as Hdm.
  pose proof (Z.mod_pos_bound (2 * a + b) (2 * b) ltac:(lia)) as Hm.
  lia.
Qed.

(** [Cmp] on equal exponents compares the mantissas. *)
Lemma Cmp_same_exp (v v2 e : Z) : Cmp (New v e) (New v2 e) = Z.sgn (v - v2).
Proof. unfold Cmp. simpl. rewrite Z.eqb_refl. reflexivity. Qed.

(** [Div] never fails on a nonzero divisor, and its result has exactly
    [DivisionPrecision] digits: the rounded quotient of the operands. *)
Lemma Div_value (d d2 : Decimal) :
  value d2 <> 0 ->
  Div d d2 = Ret (New (div_mantissa d d2) (- DivisionPrecision)).
Proof.
  intros Hnz.
  unfold Div, DivRound, QuoRem, div_mantissa, div_operands.
  apply Z.eqb_neq in Hnz as Hnzb. rewrite Hnzb.
  replace (exp d - exp d2 - - DivisionPrecision)
    with (exp d - exp d2 + DivisionPrecision) by lia.
  set (e := exp d - exp d2 + DivisionPrecision).
  destruct (e <? 0) eqn:He; cbn [bind fst snd value exp].
  - (* the divisor is scaled up *)
    apply Z.ltb_lt in He.
    assert (Hp : 0 < 10 ^ (- e)) by (apply Z.pow_pos_nonneg; lia).
    set (bb := value d2 * 10 ^ (- e)).
    assert (Hc : Cmp (New (Z.shiftl (Z.abs (Z.rem (value d) bb)) 1)
                          (exp d + DivisionPrecision)) (Abs d2)
                 = Z.sgn (2 * Z.abs (Z.rem (value d) bb) - Z.abs bb)).
    { unfold Cmp, Abs, RescalePair, rescale. cbn [value exp].
      replace (exp d + DivisionPrecision =? exp d2) with false
        by (symmetry; apply Z.eqb_neq; lia).
      replace (exp d + DivisionPrecision <? exp d2) with true
        by (symmetry; apply Z.ltb_lt; lia).
      replace (exp d2 =? exp d + DivisionPrecision) with false
        by (symmetry; apply Z.eqb_neq; lia).
      replace (exp d + DivisionPrecision >? exp d2) with false
        by (symmetry; rewrite Z.gtb_ltb; apply Z.ltb_ge; lia).
      cbn [value exp fst snd].
      rewrite Z.shiftl_mul_pow2 by lia.
      replace (Z.abs (exp d + DivisionPrecision - exp d2)) with (- e) by lia.
      subst bb. rewrite Z.abs_mul, (Z.abs_eq (10 ^ (- e))) by lia.
      f_equal. lia. }
    rewrite Hc. unfold round_quot.
    replace (Z.sgn (value d) * Z.sgn bb) with (Z.sgn (value d) * Z.sgn (value d2))
      by (subst bb; rewrite Z.sgn_mul, (Z.sgn_pos (10 ^ (- e))) by lia; lia).
    destruct (2 * Z.abs (Z.rem (value d) bb) <? Z.abs bb) eqn:E.
    + apply Z.ltb_lt in E.
      replace (Z.sgn (2 * Z.abs (Z.rem (value d) bb) - Z.abs bb) <? 0) with true
        by (symmetry; apply Z.ltb_lt; rewrite Z.sgn_neg; lia).
      reflexivity.
    + apply Z.ltb_ge in E.
      replace (Z.sgn (2 * Z.abs (Z.rem (value d) bb) - Z.abs bb) <? 0) with false
        by (symmetry; apply Z.ltb_ge; apply Z.sgn_nonneg; lia).
      unfold Sub, Add, RescalePair. cbn [value exp].
      rewrite Z.ltb_irrefl, Z.gtb_ltb, Z.ltb_irrefl.
      destruct (Z.sgn (value d) * Z.sgn (value d2) <? 0); reflexivity.
  - (* the dividend is scaled up *)
    apply Z.ltb_ge in He.
    assert (Hp : 0 < 10 ^ e) by (apply Z.pow_pos_nonneg; lia).
    set (aa := value d * 10 ^ e).
    replace (- DivisionPrecision + exp d2 + DivisionPrecision) with (exp d2) by lia.
    unfold Abs. rewrite Cmp_same_exp.
    rewrite Z.shiftl_mul_pow2 by lia.
    unfold round_quot.
    replace (Z.sgn aa * Z.sgn (value d2)) with (Z.sgn (value d) * Z.sgn (value d2))
      by (subst aa; rewrite Z.sgn_mul, (Z.sgn_pos (10 ^ e)) by lia; lia).
    destruct (2 * Z.abs (Z.rem aa (value d2)) <? Z.abs (value d2)) eqn:E.
    + apply Z.ltb_lt in E.
      replace (Z.sgn (Z.abs (Z.rem aa (value d2)) * 2 ^ 1 - Z.abs (value d2)) <? 0)
        with true by (symmetry; apply Z.ltb_lt; rewrite Z.sgn_neg; lia).
      reflexivity.
    + apply Z.ltb_ge in E.
      replace (Z.sgn (Z.abs (Z.rem aa (value d2)) * 2 ^ 1 - Z.abs (value d2)) <? 0)
        with false by (symmetry; apply Z.ltb_ge; apply Z.sgn_nonneg; lia).
      unfold Sub, Add, RescalePair. cbn [value exp].
      rewrite Z.ltb_irrefl, Z.gtb_ltb, Z.ltb_irrefl.
      destruct (Z.sgn (value d) * Z.sgn (value d2) <? 0); reflexivity.
Qed.

(** *** The operations at the exponents the quote uses *)

Lemma Div_int_int (a b : Z) :
  b <> 0 -> Div (New a 0) (New b 0) = Ret (New (round_quot (a * 10 ^ 16) b) (-16)).
Proof. intros Hb. rewrite Div_value by assumption. reflexivity. Qed.

Lemma Div_int_frac (a v : Z) :
  v <> 0 ->
  Div (New a 0) (New v (-16)) = Ret (New (round_quot (a * 10 ^ 32) v) (-16)).
Proof. intros Hv. rewrite Div_value by assumption. reflexivity. Qed.

Lemma Div_frac_int (v b : Z) :
  b <> 0 ->
  Div (New v (-16)) (New b 0) = Ret (New (round_quot v b) (-16)).
Proof.
  intros Hb. rewrite Div_value by assumption.
  unfold div_mantissa, div_operands. cbn [value exp fst snd].
  change (-16 - 0 + DivisionPrecision <? 0) with false. cbn [fst snd].
  change (10 ^ (-16 - 0 + DivisionPrecision)) with 1.
  rewrite Z.mul_1_r. reflexivity.
Qed.

Lemma Div_zero (d d2 : Decimal) :
  value d2 = 0 -> Div d d2 = Panic "decimal division by 0".
Proof.
  intros H. unfold Div, DivRound, QuoRem. rewrite H. reflexivity.
Qed.

Lemma Sub_int_frac (a v : Z) :
  Sub (New a 0) (New v (-16)) = New (a * 10 ^ 16 - v) (-16).
Proof. reflexivity. Qed.

Lemma Add_int_frac (a v : Z) :
  Add (New a 0) (New v (-16)) = New (a * 10 ^ 16 + v) (-16).
Proof. reflexivity. Qed.

Lemma Sub_int_int (a b : Z) : Sub (New a 0) (New b 0) = New (a - b) 0.
Proof. reflexivity. Qed.

Lemma Mul_int_frac (a v : Z) : Mul (New a 0) (New v (-16)) = New (a * v) (-16).
Proof. reflexivity. Qed.

Lemma Mul_int_int (a b : Z) : Mul (New a 0) (New b 0) = New (a * b) 0.
Proof. reflexivity. Qed.

Lemma Mul_frac_frac (v w : Z) : Mul (New v (-16)) (New w (-16)) = New (v * w) (-32).
Proof. reflexivity. Qed.

Lemma Mul_frac_int (v b : Z) : Mul (New v (-16)) (New b 0) = New (v * b) (-16).
Proof. reflexivity. Qed.

(** Dividing by 1,000,000 or by 10,000 at 16 digits loses nothing. *)
Lemma round_quot_million (a : Z) :
  round_quot (a * 10 ^ 16) 1000000 = a * 10 ^ 10.
Proof.
  replace (a * 10 ^ 16) with (a * 10 ^ 10 * 1000000) by lia.
  apply round_quot_exact. discriminate.
Qed.

Lemma round_quot_ten_thousand (a : Z) :
  round_quot (a * 10 ^ 16) 10000 = a * 10 ^ 12.
Proof.
  replace (a * 10 ^ 16) with (a * 10 ^ 12 * 10000) by lia.
  apply round_quot_exact. discriminate.
Qed.

(** ** The decimals of the two quotes *)

Lemma divisor_mantissa_eq (amountIn inputReserve feeRate : Z) :
  inputReserve * 10 ^ 16 + (amountIn * 10 ^ 16 - amountIn * (feeRate * 10 ^ 10))
  = scaled_divisor amountIn inputReserve feeRate * 10 ^ 10.
Proof. unfold scaled_divisor. lia. Qed.

Lemma CalcMinAmountOutBySwap_decimals_value
    (slipPageBP amountIn totalIn totalOut feeRate : Z) :
  scaled_divisor amountIn totalIn feeRate <> 0 ->
  CalcMinAmountOutBySwap_decimals slipPageBP amountIn totalIn totalOut feeRate
  = Ret (New (out_mantissa amountIn totalIn totalOut feeRate
              * ((10000 - slipPageBP) * 10 ^ 12)) (-32),
         New (out_mantissa amountIn totalIn totalOut feeRate) (-16)).
Proof.
  intros Hd. unfold CalcMinAmountOutBySwap_decimals, FeeRateDenominatorValue,
    AllBpDecimal, NewFromUint64, NewFromInt.
  rewrite Div_int_int by discriminate. cbn [bind].
  rewrite round_quot_million, Mul_int_frac, Mul_int_int.
  rewrite Sub_int_frac, Add_int_frac, divisor_mantissa_eq.
  rewrite Div_int_frac by lia. cbn [bind].
  rewrite Sub_int_frac, Sub_int_int.
  rewrite Div_int_int by discriminate. cbn [bind].
  rewrite round_quot_ten_thousand, Mul_frac_frac.
  reflexivity.
Qed.

Lemma CalcMinAmountOutBySwap_decimals_panic
    (slipPageBP amountIn totalIn totalOut feeRate : Z) :
  scaled_divisor amountIn totalIn feeRate = 0 ->
  CalcMinAmountOutBySwap_decimals slipPageBP amountIn totalIn totalOut feeRate
  = Panic "decimal division by 0".
Proof.
  intros Hd. unfold CalcMinAmountOutBySwap_decimals, FeeRateDenominatorValue,
    AllBpDecimal, NewFromUint64, NewFromInt.
  rewrite Div_int_int by discriminate. cbn [bind].
  rewrite round_quot_million, Mul_int_frac, Mul_int_int.
  rewrite Sub_int_frac, Add_int_frac, divisor_mantissa_eq.
  rewrite Div_zero; [reflexivity|]. cbn [value]. lia.
Qed.

Lemma CalculateMinAmountOut_decimals_value
    (slippageBP amountIn : Z) (isBuy : bool) (tokenAmount baseAmount feeRate : Z) :
  let totalIn := in_reserve isBuy tokenAmount baseAmount in
  let totalOut := out_reserve isBuy tokenAmount baseAmount in
  scaled_divisor amountIn totalIn feeRate <> 0 ->
  CalculateMinAmountOut_decimals slippageBP amountIn isBuy tokenAmount baseAmount feeRate
  = Ret (New (round_quot (out_mantissa amountIn totalIn totalOut feeRate
                          * (10000 - slippageBP)) 10000) (-16),
         New (out_mantissa amountIn totalIn totalOut feeRate) (-16)).
Proof.
  intros totalIn totalOut Hd.
  unfold CalculateMinAmountOut_decimals, NewFromUint64.
  rewrite Div_int_int by discriminate. cbn [bind].
  rewrite round_quot_million, Mul_int_frac, Sub_int_frac.
  assert (E : (if isBuy then (New baseAmount 0, New tokenAmount 0)
               else (New tokenAmount 0, New baseAmount 0))
              = (New totalIn 0, New totalOut 0))
    by (subst totalIn totalOut; destruct isBuy; reflexivity).
  rewrite E. clear E.
  rewrite Mul_int_int, Add_int_frac, divisor_mantissa_eq.
  rewrite Div_int_frac by lia. cbn [bind].
  rewrite Sub_int_frac, Sub_int_int, Mul_frac_int.
  rewrite Div_frac_int by discriminate. cbn [bind].
  reflexivity.
Qed.

Lemma CalculateMinAmountOut_decimals_panic
    (slippageBP amountIn : Z) (isBuy : bool) (tokenAmount baseAmount feeRate : Z) :
  scaled_divisor amountIn (in_reserve isBuy tokenAmount baseAmount) feeRate = 0 ->
  CalculateMinAmountOut_decimals slippageBP amountIn isBuy tokenAmount baseAmount feeRate
  = Panic "decimal division by 0".
Proof.
  intros Hd.
  unfold CalculateMinAmountOut_decimals, NewFromUint64.
  rewrite Div_int_int by discriminate. cbn [bind].
  rewrite round_quot_million, Mul_int_frac, Sub_int_frac.
  destruct isBuy; cbn [in_reserve] in Hd;
    rewrite Add_int_frac, divisor_mantissa_eq;
    (rewrite Div_zero; [reflexivity | cbn [value]; lia]).
Qed.

(** ** Decimals as rational numbers *)

#[global] Instance round_half_away_comp : Proper (Qeq ==> eq) round_half_away.
Proof.
  intros x y H. unfold round_half_away.
  assert (E1 : Qle_bool 0 x = Qle_bool 0 y) by (rewrite H; reflexivity).
  assert (E2 : Qfloor (x + (1 # 2)) = Qfloor (y + (1 # 2)))
    by (rewrite H; reflexivity).
  assert (E3 : Qfloor (- x + (1 # 2)) = Qfloor (- y + (1 # 2)))
    by (rewrite H; reflexivity).
  rewrite E1, E2, E3. reflexivity.
Qed.

#[global] Instance round_places_comp (n : Z) : Proper (Qeq ==> Qeq) (round_places n).
Proof.
  intros x y H. unfold round_places. rewrite H. reflexivity.
Qed.

#[global] Instance Qpositive_comp : Proper (Qeq ==> eq) Qpositive.
Proof.
  intros x y H. unfold Qpositive. rewrite H. reflexivity.
Qed.

Lemma Qpositive_make (n : Z) (p : positive) : Qpositive (n # p) = (0 <? n).
Proof.
  unfold Qpositive, Qle_bool. cbn [Qnum Qden].
  rewrite Z.mul_1_r, Z.mul_0_l.
  destruct (0 <? n) eqn:E.
  - apply Z.ltb_lt in E. apply negb_true_iff, Z.leb_gt. assumption.
  - apply Z.ltb_ge in E. apply negb_false_iff, Z.leb_le. assumption.
Qed.

Lemma integer_part_floor (x : Q) :
  integer_part x = if Qle_bool 0 x then Qfloor x else - Qfloor (- x).
Proof.
  destruct x as [n p]. unfold integer_part, Qle_bool, Qfloor, Qopp.
  cbn [Qnum Qden]. rewrite Z.mul_1_r. cbn [Z.mul].
  destruct (0 <=? n) eqn:E.
  - apply Z.leb_le in E. apply Z.quot_div_nonneg; lia.
  - apply Z.leb_gt in E.
    rewrite <- (Z.opp_involutive n) at 1.
    rewrite Z.quot_opp_l by discriminate.
    rewrite Z.quot_div_nonneg by lia. reflexivity.
Qed.

Lemma integer_part_make (n : Z) (p : positive) :
  integer_part (n # p) = Z.quot n (Zpos p).
Proof. reflexivity. Qed.

#[global] Instance integer_part_comp : Proper (Qeq ==> eq) integer_part.
Proof.
  intros x y H. rewrite !integer_part_floor.
  assert (E1 : Qle_bool 0 x = Qle_bool 0 y) by (rewrite H; reflexivity).
  assert (E2 : Qfloor x = Qfloor y) by (rewrite H; reflexivity).
  assert (E3 : Qfloor (- x) = Qfloor (- y)) by (rewrite H; reflexivity).
  rewrite E1, E2, E3. reflexivity.
Qed.

Lemma Qfloor_plus_half (n : Z) (p : positive) :
  Qfloor ((n # p) + (1 # 2)) = (2 * n + Zpos p) / (2 * Zpos p).
Proof.
  unfold Qfloor, Qplus. cbn [Qnum Qden]. f_equal; lia.
Qed.

Lemma round_half_away_make (n : Z) (p : positive) :
  round_half_away (n # p) = round_quot n (Zpos p).
Proof.
  unfold round_half_away.
  destruct (Qle_bool 0 (n # p)) eqn:E.
  - apply Qle_bool_iff in E. unfold Qle in E. cbn [Qnum Qden] in E.
    rewrite Qfloor_plus_half, round_quot_nonneg by lia. reflexivity.
  - assert (Hn : n < 0).
    { destruct (Z.lt_ge_cases n 0) as [?|Hge]; [assumption|].
      assert (Qle_bool 0 (n # p) = true) as Ht
        by (apply Qle_bool_iff; unfold Qle; cbn [Qnum Qden]; lia).
      congruence. }
    change (- (n # p))%Q with (- n # p).
    rewrite Qfloor_plus_half.
    rewrite <- (Z.opp_involutive n) at 2.
    rewrite round_quot_opp_l, round_quot_nonneg by lia. reflexivity.
Qed.

Lemma round_quot_opp_opp (a b : Z) :
  b <> 0 -> round_quot (- a) (- b) = round_quot a b.
Proof.
  intros Hb. unfold round_quot.
  rewrite Z.quot_opp_opp, Z.rem_opp_opp, !Z.abs_opp, !Z.sgn_opp by assumption.
  replace (- Z.sgn a * - Z.sgn b) with (Z.sgn a * Z.sgn b) by lia.
  reflexivity.
Qed.

(** [round_quot] is rounding half away from zero of the quotient. *)
Lemma round_quot_spec (a b : Z) :
  b <> 0 -> round_quot a b = round_half_away (inject_Z a / inject_Z b).
Proof.
  intros Hb. destruct b as [|p|p]; [contradiction| |].
  - rewrite <- Qmake_Qdiv. symmetry. apply round_half_away_make.
  - rewrite <- (round_quot_opp_opp a) by assumption.
    change (- Z.neg p) with (Zpos p).
    rewrite <- round_half_away_make.
    apply round_half_away_comp.
    rewrite Qmake_Qdiv. unfold Qdiv, Qeq, Qinv, Qmult, inject_Z.
    cbn [Qnum Qden Z.opp]. lia.
Qed.

(** The divisor of step 4 does not depend on the roundings. *)
Lemma newInputReserve_scaled (div_round min_round : Q -> Q)
    (slip amountIn inR outR feeRate : Z) :
  (newInputReserve (quote_steps div_round min_round slip amountIn inR outR feeRate)
   == scaled_divisor amountIn inR feeRate # 1000000)%Q.
Proof.
  unfold quote_steps, scaled_divisor. cbn [newInputReserve].
  rewrite Qmake_Qdiv. unfold Zminus.
  rewrite !inject_Z_plus, !inject_Z_mult, inject_Z_plus, inject_Z_opp.
  change (inject_Z (Z.pos 1000000)) with (inject_Z 1000000).
  set (c6 := inject_Z 1000000).
  assert (E : ~ (c6 == 0)%Q) by discriminate.
  field. assumption.
Qed.

Lemma newInputReserve_zero (div_round min_round : Q -> Q)
    (slip amountIn inR outR feeRate : Z) :
  (newInputReserve (quote_steps div_round min_round slip amountIn inR outR feeRate)
   == 0)%Q
  <-> scaled_divisor amountIn inR feeRate = 0.
Proof.
  rewrite newInputReserve_scaled. unfold Qeq. cbn [Qnum Qden]. lia.
Qed.

Lemma newInputReserve_pos (div_round min_round : Q -> Q)
    (slip amountIn inR outR feeRate : Z) :
  (0 < newInputReserve
         (quote_steps div_round min_round slip amountIn inR outR feeRate))%Q
  <-> 0 < scaled_divisor amountIn inR feeRate.
Proof.
  rewrite newInputReserve_scaled. unfold Qlt. cbn [Qnum Qden]. lia.
Qed.

Lemma step4_scaled (amountIn inR outR feeRate : Z) :
  scaled_divisor amountIn inR feeRate <> 0 ->
  (inject_Z inR * inject_Z outR
     / (inject_Z inR
        + (inject_Z amountIn
           - inject_Z amountIn * (inject_Z feeRate / inject_Z 1000000)))
     * inject_Z 10 ^ 16
   == inject_Z (inR * outR * 10 ^ 32)
      / inject_Z (scaled_divisor amountIn inR feeRate * 10 ^ 10))%Q.
Proof.
  intros Hd. unfold scaled_divisor in *.
  assert (Hq : ~ (inject_Z (inR * 1000000 + amountIn * (1000000 - feeRate)) == 0)%Q).
  { intros E. apply Hd. unfold Qeq, inject_Z in E. cbn [Qnum Qden] in E. lia. }
  revert Hq.
  rewrite !inject_Z_mult, !inject_Z_plus, !inject_Z_mult.
  unfold Zminus. rewrite !inject_Z_plus, inject_Z_opp.
  set (c32 := inject_Z (10 ^ 32)).
  set (c10 := inject_Z (10 ^ 10)).
  set (c6 := inject_Z 1000000).
  change (inject_Z 10 ^ 16)%Q with (inject_Z (10 ^ 16)).
  set (c16 := inject_Z (10 ^ 16)).
  assert (E1 : (c32 == c16 * c10 * c6)%Q) by reflexivity.
  assert (E2 : ~ (c10 == 0)%Q) by discriminate.
  assert (E3 : ~ (c6 == 0)%Q) by discriminate.
  intros Hq. rewrite E1. field. auto.
Qed.

(** Step 5 with the quotient kept to 16 digits is the decimal [outDecimal]
    of the code. *)
Lemma rounded_exactAmountOut (min_round : Q -> Q)
    (slip amountIn inR outR feeRate : Z) :
  scaled_divisor amountIn inR feeRate <> 0 ->
  (exactAmountOut (quote_steps (round_places 16) min_round
                     slip amountIn inR outR feeRate)
   == out_mantissa amountIn inR outR feeRate # 10 ^ 16)%Q.
Proof.
  intros Hd. unfold quote_steps. cbn [exactAmountOut]. unfold round_places.
  rewrite step4_scaled by assumption.
  rewrite <- round_quot_spec by (unfold scaled_divisor in *; lia).
  unfold out_mantissa.
  set (rq := round_quot _ _).
  rewrite Qmake_Qdiv. unfold Zminus.
  rewrite inject_Z_plus, inject_Z_opp, inject_Z_mult.
  change (inject_Z 10 ^ 16)%Q with (inject_Z (10 ^ 16)).
  change (inject_Z (Z.pos (10 ^ 16))) with (inject_Z (10 ^ 16)).
  set (c16 := inject_Z (10 ^ 16)).
  assert (E : ~ (c16 == 0)%Q) by discriminate.
  field. assumption.
Qed.

Lemma swap_minAmountOut (slip amountIn inR outR feeRate : Z) :
  scaled_divisor amountIn inR feeRate <> 0 ->
  (minAmountOut (swap_quote slip amountIn inR outR feeRate)
   == out_mantissa amountIn inR outR feeRate * ((10000 - slip) * 10 ^ 12)
      # 10 ^ 32)%Q.
Proof.
  intros Hd.
  pose proof (rounded_exactAmountOut exactly slip amountIn inR outR feeRate Hd) as He.
  unfold swap_quote, quote_steps, exactly in *.
  cbn [minAmountOut exactAmountOut] in *. rewrite He.
  rewrite !Qmake_Qdiv. unfold Zminus.
  rewrite !inject_Z_mult, inject_Z_plus, inject_Z_opp.
  change (inject_Z (Z.pos (10 ^ 16))) with (inject_Z (10 ^ 16)).
  change (inject_Z (Z.pos (10 ^ 32))) with (inject_Z (10 ^ 32)).
  set (c32 := inject_Z (10 ^ 32)).
  set (c16 := inject_Z (10 ^ 16)).
  set (c12 := inject_Z (10 ^ 12)).
  set (c4 := inject_Z 10000).
  assert (E1 : (c32 == c16 * c12 * c4)%Q) by reflexivity.
  assert (E2 : ~ (c16 == 0)%Q) by discriminate.
  assert (E3 : ~ (c12 == 0)%Q) by discriminate.
  assert (E4 : ~ (c4 == 0)%Q) by discriminate.
  rewrite E1. field. auto.
Qed.

Lemma utils_minAmountOut (slip amountIn inR outR feeRate : Z) :
  scaled_divisor amountIn inR feeRate <> 0 ->
  (minAmountOut (utils_quote slip amountIn inR outR feeRate)
   == round_quot (out_mantissa amountIn inR outR feeRate * (10000 - slip)) 10000
      # 10 ^ 16)%Q.
Proof.
  intros Hd.
  pose proof (rounded_exactAmountOut (round_places 16)
                slip amountIn inR outR feeRate Hd) as He.
  unfold utils_quote, quote_steps in *.
  cbn [minAmountOut exactAmountOut] in *. rewrite He.
  unfold round_places at 1.
  rewrite round_quot_spec by discriminate.
  set (om := out_mantissa amountIn inR outR feeRate).
  assert (E : ((om # 10 ^ 16) * (inject_Z 10000 - inject_Z slip) / inject_Z 10000
               * inject_Z 10 ^ 16
               == inject_Z (om * (10000 - slip)) / inject_Z 10000)%Q).
  { rewrite Qmake_Qdiv. unfold Zminus.
    rewrite inject_Z_mult, inject_Z_plus, inject_Z_opp.
    change (inject_Z 10 ^ 16)%Q with (inject_Z (10 ^ 16)).
    change (inject_Z (Z.pos (10 ^ 16))) with (inject_Z (10 ^ 16)).
    set (c16 := inject_Z (10 ^ 16)).
    set (c4 := inject_Z 10000).
    assert (E2 : ~ (c16 == 0)%Q) by discriminate.
    assert (E4 : ~ (c4 == 0)%Q) by discriminate.
    field. auto. }
  rewrite E.
  rewrite Qmake_Qdiv.
  change (inject_Z 10 ^ 16)%Q with (inject_Z (Z.pos (10 ^ 16))).
  reflexivity.
Qed.

(** ** The values returned *)

Lemma IsPositive_New (v e : Z) : IsPositive (New v e) = (0 <? v).
Proof.
  unfold IsPositive, Sign. cbn [value].
  destruct (Z.sgn_spec v) as [[H ->]|[[H ->]|[H ->]]]; simpl;
    symmetry; [apply Z.ltb_lt | apply Z.ltb_ge | apply Z.ltb_ge]; lia.
Qed.

Lemma LessThanOrEqual_Zero_frac (v : Z) :
  LessThanOrEqual (New v (-16)) Zero = negb (0 <? v).
Proof.
  unfold LessThanOrEqual, Cmp, Zero, RescalePair, rescale. cbn.
  rewrite Z.sub_0_r.
  destruct (Z.sgn_spec v) as [[H ->]|[[H ->]|[H ->]]]; simpl;
    symmetry; [apply negb_false_iff, Z.ltb_lt
              | apply negb_true_iff, Z.ltb_ge
              | apply negb_true_iff, Z.ltb_ge]; lia.
Qed.

Lemma IntPart_frac16 (v : Z) :
  IntPart (New v (-16)) = bigInt64 (Z.quot v (10 ^ 16)).
Proof. reflexivity. Qed.

Lemma IntPart_frac32 (v : Z) :
  IntPart (New v (-32)) = bigInt64 (Z.quot v (10 ^ 32)).
Proof. reflexivity. Qed.

(** Read back as a [uint64], the [int64] of a non-negative number is the
    number modulo [2 ^ 64]. *)
Lemma uint64_bigInt64 (x : Z) : 0 <= x -> uint64 (bigInt64 x) = uint64 x.
Proof.
  intros Hx. unfold uint64, bigInt64, to_int64.
  replace (x <? 0) with false by (symmetry; apply Z.ltb_ge; assumption).
  rewrite Z.abs_eq by assumption.
  rewrite Zminus_mod_idemp_l.
  replace (x mod 2 ^ 64 + 2 ^ 63 - 2 ^ 63) with (x mod 2 ^ 64) by lia.
  apply Z.mod_mod. discriminate.
Qed.

Lemma uint64_small (x : Z) : 0 <= x < 2 ^ 64 -> uint64 x = x.
Proof. intros H. apply Z.mod_small. assumption. Qed.

Lemma CalcMinAmountOutBySwap_value
    (slipPageBP amountIn totalIn totalOut feeRate : Z) :
  scaled_divisor amountIn totalIn feeRate <> 0 ->
  CalcMinAmountOutBySwap slipPageBP amountIn totalIn totalOut feeRate
  = Ret (result_of_mantissas
           (out_mantissa amountIn totalIn totalOut feeRate
            * ((10000 - slipPageBP) * 10 ^ 12)) 32
           (out_mantissa amountIn totalIn totalOut feeRate) None).
Proof.
  intros Hd. unfold CalcMinAmountOutBySwap.
  rewrite CalcMinAmountOutBySwap_decimals_value by assumption.
  cbn [bind]. rewrite !IsPositive_New, IntPart_frac16, IntPart_frac32.
  unfold result_of_mantissas.
  set (om := out_mantissa _ _ _ _). set (mv := om * _).
  destruct (0 <? mv) eqn:Em; destruct (0 <? om) eqn:Eo; cbn [negb orb andb];
    try reflexivity.
  apply Z.ltb_lt in Em, Eo.
  rewrite !uint64_bigInt64 by (apply Z.quot_pos; lia). reflexivity.
Qed.

Lemma CalculateMinAmountOut_value
    (slippageBP amountIn : Z) (isBuy : bool) (tokenAmount baseAmount feeRate : Z) :
  let totalIn := in_reserve isBuy tokenAmount baseAmount in
  let totalOut := out_reserve isBuy tokenAmount baseAmount in
  scaled_divisor amountIn totalIn feeRate <> 0 ->
  CalculateMinAmountOut slippageBP amountIn isBuy tokenAmount baseAmount feeRate
  = Ret (result_of_mantissas
           (round_quot (out_mantissa amountIn totalIn totalOut feeRate
                        * (10000 - slippageBP)) 10000) 16
           (out_mantissa amountIn totalIn totalOut feeRate)
           (Some "calculated amount out is zero or negative"%string)).
Proof.
  intros totalIn totalOut Hd. unfold CalculateMinAmountOut.
  rewrite CalculateMinAmountOut_decimals_value by assumption.
  cbn [bind]. fold totalIn totalOut.
  rewrite !LessThanOrEqual_Zero_frac, !IntPart_frac16.
  unfold result_of_mantissas.
  set (om := out_mantissa _ _ _ _). set (mv := round_quot _ _).
  destruct (0 <? mv) eqn:Em; destruct (0 <? om) eqn:Eo; cbn [negb orb andb];
    try reflexivity.
  apply Z.ltb_lt in Em, Eo.
  rewrite !uint64_bigInt64 by (apply Z.quot_pos; lia). reflexivity.
Qed.

(** The returned triples, in terms of the rounded quotes. *)
Lemma CalcMinAmountOutBySwap_quote
    (slipPageBP amountIn totalIn totalOut feeRate : Z) :
  scaled_divisor amountIn totalIn feeRate <> 0 ->
  CalcMinAmountOutBySwap slipPageBP amountIn totalIn totalOut feeRate
  = Ret (quote_result (swap_quote slipPageBP amountIn totalIn totalOut feeRate)
           None).
Proof.
  intros Hd. rewrite CalcMinAmountOutBySwap_value by assumption.
  unfold quote_result, result_of_mantissas.
  pose proof (swap_minAmountOut slipPageBP _ _ totalOut _ Hd) as Hm.
  pose proof (rounded_exactAmountOut exactly slipPageBP _ _ totalOut _ Hd) as He.
  fold swap_quote in He.
  set (q := swap_quote _ _ _ _ _) in *.
  rewrite (Qpositive_comp _ _ Hm), (Qpositive_comp _ _ He), !Qpositive_make.
  rewrite (integer_part_comp _ _ Hm), (integer_part_comp _ _ He).
  rewrite !integer_part_make.
  change (Z.pos (10 ^ 32)) with (10 ^ 32).
  change (Z.pos (10 ^ 16)) with (10 ^ 16).
  reflexivity.
Qed.

Lemma CalculateMinAmountOut_quote
    (slippageBP amountIn : Z) (isBuy : bool) (tokenAmount baseAmount feeRate : Z) :
  let totalIn := in_reserve isBuy tokenAmount baseAmount in
  let totalOut := out_reserve isBuy tokenAmount baseAmount in
  scaled_divisor amountIn totalIn feeRate <> 0 ->
  CalculateMinAmountOut slippageBP amountIn isBuy tokenAmount baseAmount feeRate
  = Ret (quote_result (utils_quote slippageBP amountIn totalIn totalOut feeRate)
           (Some "calculated amount out is zero or negative"%string)).
Proof.
  intros totalIn totalOut Hd.
  rewrite CalculateMinAmountOut_value by assumption. fold totalIn totalOut.
  unfold quote_result, result_of_mantissas.
  pose proof (utils_minAmountOut slippageBP _ _ totalOut _ Hd) as Hm.
  pose proof (rounded_exactAmountOut (round_places 16) slippageBP _ _ totalOut _ Hd)
    as He.
  fold utils_quote in He.
  set (q := utils_quote _ _ _ _ _) in *.
  rewrite (Qpositive_comp _ _ Hm), (Qpositive_comp _ _ He), !Qpositive_make.
  rewrite (integer_part_comp _ _ Hm), (integer_part_comp _ _ He).
  rewrite !integer_part_make.
  change (Z.pos (10 ^ 32)) with (10 ^ 32).
  change (Z.pos (10 ^ 16)) with (10 ^ 16).
  reflexivity.
Qed.

(** *** Signs *)

Lemma toQ_pos (d : Decimal) : (0 < toQ d)%Q <-> 0 < value d.
Proof.
  unfold toQ.
  assert (Hp : (0 < inject_Z 10 ^ exp d)%Q) by (apply Qpower_0_lt; reflexivity).
  split; intros H.
  - destruct (Z.lt_ge_cases 0 (value d)) as [?|Hle]; [assumption|exfalso].
    assert (Hq : (inject_Z (value d) <= 0)%Q)
      by (unfold Qle, inject_Z; cbn [Qnum Qden]; lia).
    apply (Qlt_not_le _ _ H).
    rewrite <- (Qmult_0_l (inject_Z 10 ^ exp d)).
    apply Qmult_le_compat_r; [assumption | apply Qlt_le_weak; assumption].
  - rewrite <- (Qmult_0_l (inject_Z 10 ^ exp d)).
    apply Qmult_lt_compat_r; [assumption|].
    unfold Qlt, inject_Z; cbn [Qnum Qden]; lia.
Qed.

Lemma IsPositive_toQ (d : Decimal) : IsPositive d = true <-> (0 < toQ d)%Q.
Proof.
  destruct d as [v e]. rewrite IsPositive_New, toQ_pos. cbn [value].
  apply Z.ltb_lt.
Qed.

Lemma Cmp_Zero (d : Decimal) : Cmp d Zero = Z.sgn (value d).
Proof.
  destruct d as [v e]. unfold Cmp, Zero, RescalePair, rescale. cbn [value exp].
  destruct (e =? 1) eqn:E1; [f_equal; lia|].
  apply Z.eqb_neq in E1.
  destruct (e <? 1) eqn:E2; cbn [value exp fst snd].
  - replace (1 =? e) with false by (symmetry; apply Z.eqb_neq; lia).
    destruct (e >? 1); cbn [value]; f_equal.
    + rewrite Z.quot_0_l; [lia|].
      apply Z.ltb_lt in E2. apply Z.pow_nonzero; lia.
    + lia.
  - apply Z.ltb_ge in E2.
    replace (e >? 1) with true by (symmetry; apply Z.gtb_lt; lia).
    replace (1 >? e) with false
      by (symmetry; rewrite Z.gtb_ltb; apply Z.ltb_ge; lia).
    cbn [value]. rewrite Z.sub_0_r, Z.sgn_mul.
    rewrite (Z.sgn_pos (10 ^ _)) by (apply Z.pow_pos_nonneg; lia). lia.
Qed.

Lemma LessThanOrEqual_Zero_toQ (d : Decimal) :
  LessThanOrEqual d Zero = true <-> (toQ d <= 0)%Q.
Proof.
  unfold LessThanOrEqual. rewrite Cmp_Zero, Z.leb_le.
  split; intros H.
  - apply Qnot_lt_le. rewrite toQ_pos.
    destruct (Z.sgn_spec (value d)) as [[? E]|[[? E]|[? E]]]; lia.
  - apply Qle_not_lt in H. rewrite toQ_pos in H.
    destruct (Z.sgn_spec (value d)) as [[? E]|[[? E]|[? E]]]; lia.
Qed.

(** ** Bounds on the amounts *)

Lemma CalcMinAmountOutBySwap_panic
    (slipPageBP amountIn totalIn totalOut feeRate : Z) :
  scaled_divisor amountIn totalIn feeRate = 0 ->
  CalcMinAmountOutBySwap slipPageBP amountIn totalIn totalOut feeRate
  = Panic "decimal division by 0".
Proof.
  intros Hd. unfold CalcMinAmountOutBySwap.
  rewrite CalcMinAmountOutBySwap_decimals_panic by assumption. reflexivity.
Qed.

Lemma CalculateMinAmountOut_panic
    (slippageBP amountIn : Z) (isBuy : bool) (tokenAmount baseAmount feeRate : Z) :
  scaled_divisor amountIn (in_reserve isBuy tokenAmount baseAmount) feeRate = 0 ->
  CalculateMinAmountOut slippageBP amountIn isBuy tokenAmount baseAmount feeRate
  = Panic "decimal division by 0".
Proof.
  intros Hd. unfold CalculateMinAmountOut.
  rewrite CalculateMinAmountOut_decimals_panic by assumption. reflexivity.
Qed.

Lemma out_mantissa_le (amountIn inR outR feeRate : Z) :
  0 <= inR -> 0 <= outR -> 0 < scaled_divisor amountIn inR feeRate ->
  out_mantissa amountIn inR outR feeRate <= outR * 10 ^ 16.
Proof.
  intros Hi Ho Hd. unfold out_mantissa.
  rewrite round_quot_nonneg by nia.
  assert (0 <= (2 * (inR * outR * 10 ^ 32)
                + scaled_divisor amountIn inR feeRate * 10 ^ 10)
               / (2 * (scaled_divisor amountIn inR feeRate * 10 ^ 10)))
    by (apply Z.div_pos; nia).
  lia.
Qed.

Lemma quot_lt_of_lt (x b c : Z) : 0 <= x -> 0 < c -> x < b * c -> Z.quot x c < b.
Proof.
  intros Hx Hc H. rewrite Z.quot_div_nonneg by lia.
  apply Z.div_lt_upper_bound; lia.
Qed.

(** The returned minimum does not grow when the mantissa of [minOut]
    shrinks, as long as the integer parts fit in 64 bits. *)
Lemma result_min_mono (mv1 mv2 n om : Z) (err : error) :
  0 <= n ->
  (0 < om -> mv2 <= mv1 /\ mv1 < 2 ^ 64 * 10 ^ n) ->
  fst (fst (result_of_mantissas mv2 n om err))
  <= fst (fst (result_of_mantissas mv1 n om err)).
Proof.
  intros Hn H. unfold result_of_mantissas.
  assert (Hp : 0 < 10 ^ n) by (apply Z.pow_pos_nonneg; lia).
  destruct (0 <? om) eqn:Eo.
  - apply Z.ltb_lt in Eo. destruct (H Eo) as [Hle Hlt].
    destruct (0 <? mv2) eqn:E2; cbn [andb fst].
    + apply Z.ltb_lt in E2.
      replace (0 <? mv1) with true by (symmetry; apply Z.ltb_lt; lia).
      cbn [andb fst].
      assert (Z.quot mv2 (10 ^ n) <= Z.quot mv1 (10 ^ n))
        by (apply Z.quot_le_mono; lia).
      assert (0 <= Z.quot mv2 (10 ^ n)) by (apply Z.quot_pos; lia).
      assert (Z.quot mv1 (10 ^ n) < 2 ^ 64) by (apply quot_lt_of_lt; lia).
      rewrite !uint64_small by lia. assumption.
    + destruct (0 <? mv1); cbn [andb fst]; [|lia].
      unfold uint64. apply Z.mod_pos_bound. reflexivity.
  - rewrite !andb_false_r. cbn [fst]. lia.
Qed.

(** With no slippage the two returned amounts coincide. *)
Lemma result_min_eq_exact (mv n om : Z) (err : error) :
  Z.quot mv (10 ^ n) = Z.quot om (10 ^ 16) ->
  (0 < mv <-> 0 < om) ->
  fst (fst (result_of_mantissas mv n om err))
  = snd (fst (result_of_mantissas mv n om err)).
Proof.
  intros Hq Hs. unfold result_of_mantissas.
  destruct (0 <? mv) eqn:E1; destruct (0 <? om) eqn:E2; cbn [andb fst snd];
    try reflexivity.
  rewrite Hq. reflexivity.
Qed.

Lemma swap_min_mantissa_bounds (s1 s2 amountIn inR outR feeRate : Z) :
  0 <= inR -> is_uint64 outR -> 0 < scaled_divisor amountIn inR feeRate ->
  0 <= s1 <= s2 ->
  let om := out_mantissa amountIn inR outR feeRate in
  0 < om ->
  om * ((10000 - s2) * 10 ^ 12) <= om * ((10000 - s1) * 10 ^ 12)
  /\ om * ((10000 - s1) * 10 ^ 12) < 2 ^ 64 * 10 ^ 32.
Proof.
  intros Hi [Ho1 Ho2] Hd Hs om Hom.
  pose proof (out_mantissa_le amountIn inR outR feeRate Hi Ho1 Hd) as Hle.
  fold om in Hle. split.
  - apply Z.mul_le_mono_nonneg_l; lia.
  - assert (om * ((10000 - s1) * 10 ^ 12) <= om * (10000 * 10 ^ 12))
      by (apply Z.mul_le_mono_nonneg_l; lia).
    lia.
Qed.

Lemma utils_min_mantissa_bounds (s1 s2 amountIn inR outR feeRate : Z) :
  0 <= inR -> is_uint64 outR -> 0 < scaled_divisor amountIn inR feeRate ->
  0 <= s1 <= s2 ->
  let om := out_mantissa amountIn inR outR feeRate in
  0 < om ->
  round_quot (om * (10000 - s2)) 10000 <= round_quot (om * (10000 - s1)) 10000
  /\ round_quot (om * (10000 - s1)) 10000 < 2 ^ 64 * 10 ^ 16.
Proof.
  intros Hi [Ho1 Ho2] Hd Hs om Hom.
  pose proof (out_mantissa_le amountIn inR outR feeRate Hi Ho1 Hd) as Hle.
  fold om in Hle.
  assert (Htop : round_quot (om * (10000 - s1)) 10000 <= om).
  { rewrite <- (round_quot_exact om 10000) at 2 by discriminate.
    apply round_quot_mono; nia. }
  split; [|lia].
  apply round_quot_mono; nia.
Qed.

(** With no fee, the returned exact output is within one unit of the
    output that keeps the product of the reserves. *)
Lemma conservation_bound (amountIn inR outR : Z) :
  0 <= inR -> 0 <= outR -> 0 < inR + amountIn ->
  let om := out_mantissa amountIn inR outR 0 in
  0 < om ->
  Z.abs (inR * outR - (inR + amountIn) * (outR - Z.quot om (10 ^ 16)))
  < inR + amountIn.
Proof.
  intros Hi Ho Hd. cbv zeta. unfold out_mantissa, scaled_divisor.
  set (D := inR + amountIn) in *. set (K := inR * outR) in *.
  replace ((inR * 1000000 + amountIn * (1000000 - 0)) * 10 ^ 10)
    with (D * 10 ^ 16) by (subst D; lia).
  set (rq := round_quot (K * 10 ^ 32) (D * 10 ^ 16)) in *.
  set (om := outR * 10 ^ 16 - rq). intros Hom.
  assert (HK : 0 <= K) by (subst K; nia).
  pose proof (round_quot_error (K * 10 ^ 32) (D * 10 ^ 16)
                ltac:(lia) ltac:(lia)) as Herr.
  fold rq in Herr.
  rewrite Z.quot_div_nonneg by lia.
  pose proof (Z.div_mod om (10 ^ 16) ltac:(discriminate)) as Hdm.
  pose proof (Z.mod_pos_bound om (10 ^ 16) eq_refl) as Hr.
  set (e := om / 10 ^ 16) in *. set (r := om mod 10 ^ 16) in *.
  set (w := outR - e).
  assert (Hom' : om = outR * 10 ^ 16 - rq) by reflexivity.
  assert (Hw : 10 ^ 16 * w = rq + r) by (subst w; lia).
  assert (HDw : D * (10 ^ 16 * w) = D * (rq + r)) by (rewrite Hw; reflexivity).
  assert (HDr : 0 <= D * r <= D * (10 ^ 16 - 1))
    by (split; [apply Z.mul_nonneg_nonneg | apply Z.mul_le_mono_nonneg_l]; lia).
  set (X := rq * D - K * 10 ^ 16).
  assert (HX : 2 * Z.abs X <= D).
  { apply (Z.mul_le_mono_pos_r _ _ (10 ^ 16)); [reflexivity|].
    replace (2 * Z.abs X * 10 ^ 16)
      with (2 * Z.abs (rq * (D * 10 ^ 16) - K * 10 ^ 32)); [assumption|].
    replace (rq * (D * 10 ^ 16) - K * 10 ^ 32) with (X * 10 ^ 16)
      by (subst X; lia).
    rewrite Z.abs_mul. change (Z.abs (10 ^ 16)) with (10 ^ 16). lia. }
  assert (HT : (D * w - K) * 10 ^ 16 = X + D * r) by (subst X; lia).
  replace (K - D * w) with (- (D * w - K)) by lia.
  rewrite Z.abs_opp. lia.
Qed.

(** ** The decoder *)

(** Decoding what [encodeU64] wrote gives the value back, modulo [2 ^ 64]. *)
Lemma Uint64_encodeU64_mod (val : Z) :
  LittleEndian_Uint64 (encodeU64 val) = Ret (val mod 2 ^ 64).
Proof.
  unfold encodeU64, LittleEndian_Uint64. f_equal.
  rewrite !byte.unsigned_of_Z. unfold byte.wrap.
  rewrite <- !Z.land_ones by lia.
  prove_Zeq_bitwise.
Qed.

Lemma Uint64_encodeU64 (val : Z) :
  is_uint64 val -> LittleEndian_Uint64 (encodeU64 val) = Ret val.
Proof.
  intros H. rewrite Uint64_encodeU64_mod. f_equal.
  apply Z.mod_small. exact H.
Qed.

(** ** The outcomes of the two quotes *)

Lemma CalcMinAmountOutBySwap_outcome
    (slipPageBP amountIn totalIn totalOut feeRate : Z) :
  CalcMinAmountOutBySwap slipPageBP amountIn totalIn totalOut feeRate
  = quote_outcome swap_quote None slipPageBP amountIn totalIn totalOut feeRate.
Proof.
  unfold quote_outcome. cbv zeta.
  destruct (Qeq_bool _ 0) eqn:E.
  - apply Qeq_bool_iff, newInputReserve_zero in E.
    apply CalcMinAmountOutBySwap_panic. assumption.
  - apply CalcMinAmountOutBySwap_quote. intros Hz.
    apply (newInputReserve_zero (round_places 16) exactly slipPageBP _ _ totalOut),
      Qeq_bool_iff in Hz.
    unfold swap_quote in E. congruence.
Qed.

Lemma CalculateMinAmountOut_outcome
    (slippageBP amountIn : Z) (isBuy : bool) (tokenAmount baseAmount feeRate : Z) :
  CalculateMinAmountOut slippageBP amountIn isBuy tokenAmount baseAmount feeRate
  = quote_outcome utils_quote zero_or_negative slippageBP amountIn
      (in_reserve isBuy tokenAmount baseAmount)
      (out_reserve isBuy tokenAmount baseAmount) feeRate.
Proof.
  unfold quote_outcome. cbv zeta.
  destruct (Qeq_bool _ 0) eqn:E.
  - apply Qeq_bool_iff, newInputReserve_zero in E.
    apply CalculateMinAmountOut_panic. assumption.
  - apply CalculateMinAmountOut_quote. intros Hz.
    apply (newInputReserve_zero (round_places 16) (round_places 16) slippageBP
             _ _ (out_reserve isBuy tokenAmount baseAmount)),
      Qeq_bool_iff in Hz.
    unfold utils_quote in E. congruence.
Qed.

(** ** The quote engine: the claims *)

(** C1 (as amended).  Whenever the divisor of step 4 is not zero, both
    quotes return, and what they return is given by the six steps
    [fee = amountIn * feeRate / 1,000,000], [amountInNet = amountIn - fee],
    [k = inputReserve * outputReserve],
    [newOutputReserve = k / (inputReserve + amountInNet)],
    [exactAmountOut = outputReserve - newOutputReserve],
    [minAmountOut = exactAmountOut * (10000 - slippage) / 10000]
    computed on rationals, with two departures from exact arithmetic: the
    quotient of step 4 is rounded to 16 digits after the decimal point (a
    half away from zero), and [CalculateMinAmountOut] rounds the result of
    step 6 in the same way.  The amounts returned are the integer parts,
    reduced modulo [2 ^ 64]; when one of the two amounts is not positive the
    result is [(0, 0)], with a [nil] error from [CalcMinAmountOutBySwap] and
    an error from [CalculateMinAmountOut]. *)
Theorem quote_follows_rounded_steps
    (slippage amountIn inputReserve outputReserve feeRate : Z) :
  ~ (newInputReserve
       (swap_quote slippage amountIn inputReserve outputReserve feeRate) == 0)%Q ->
  let swap_result :=
    Ret (quote_result
           (swap_quote slippage amountIn inputReserve outputReserve feeRate)
           None) in
  let utils_result :=
    Ret (quote_result
           (utils_quote slippage amountIn inputReserve outputReserve feeRate)
           zero_or_negative) in
  CalcMinAmountOutBySwap slippage amountIn inputReserve outputReserve feeRate
  = swap_result
  /\ CalcMinAmountOutByAmm slippage amountIn true outputReserve inputReserve feeRate
     = swap_result
  /\ CalcMinAmountOutByAmm slippage amountIn false inputReserve outputReserve feeRate
     = swap_result
  /\ CalculateMinAmountOut slippage amountIn true outputReserve inputReserve feeRate
     = utils_result
  /\ CalculateMinAmountOut slippage amountIn false inputReserve outputReserve feeRate
     = utils_result.
Proof.
  intros Hq.
  assert (Hd : scaled_divisor amountIn inputReserve feeRate <> 0).
  { intros Hz. apply Hq. apply newInputReserve_zero. assumption. }
  cbv zeta. unfold CalcMinAmountOutByAmm.
  split; [|split; [|split; [|split]]].
  - apply CalcMinAmountOutBySwap_quote. assumption.
  - apply CalcMinAmountOutBySwap_quote. assumption.
  - apply CalcMinAmountOutBySwap_quote. assumption.
  - apply (CalculateMinAmountOut_quote slippage amountIn true
             outputReserve inputReserve feeRate). assumption.
  - apply (CalculateMinAmountOut_quote slippage amountIn false
             inputReserve outputReserve feeRate). assumption.
Qed.

Lemma quote_follows_rounded_steps_witness :
  CalcMinAmountOutBySwap 100 100000 1000000 5000000 2500
  = Ret (quote_result (swap_quote 100 100000 1000000 5000000 2500) None)
  /\ CalcMinAmountOutByAmm 100 100000 true 5000000 1000000 2500
     = Ret (quote_result (swap_quote 100 100000 1000000 5000000 2500) None)
  /\ CalcMinAmountOutByAmm 100 100000 false 1000000 5000000 2500
     = Ret (quote_result (swap_quote 100 100000 1000000 5000000 2500) None)
  /\ CalculateMinAmountOut 100 100000 true 5000000 1000000 2500
     = Ret (quote_result (utils_quote 100 100000 1000000 5000000 2500)
              zero_or_negative)
  /\ CalculateMinAmountOut 100 100000 false 1000000 5000000 2500
     = Ret (quote_result (utils_quote 100 100000 1000000 5000000 2500)
              zero_or_negative).
Proof.
  apply (quote_follows_rounded_steps 100 100000 1000000 5000000 2500).
  intros H. vm_compute in H. discriminate H.
Defined.

(** C1, as stated, fails.  At the fee rate and slippage the callers use,
    with 3,200 paid into reserves of 21,000 and 5,000,000, the exact minimum
    is 653,125 and [CalcMinAmountOutBySwap] returns 653,124: the quotient of
    step 4 was rounded up in its 16th digit.  With both reserves at
    [10 ^ 17], one unit paid in, no fee and no slippage, the exact output is
    [1 - 1 / (10 ^ 17 + 1)], positive with integer part 0, and so is the
    exact minimum; both quotes return [(1, 1)]. *)
Lemma exact_arithmetic_counterexample :
  CalcMinAmountOutBySwap 100 3200 21000 5000000 2500
  = Ret (653124, 659722, None)
  /\ quote_result (exact_quote 100 3200 21000 5000000 2500) None
     = (653125, 659722, None)
  /\ CalcMinAmountOutBySwap 0 1 (10 ^ 17) (10 ^ 17) 0 = Ret (1, 1, None)
  /\ CalculateMinAmountOut 0 1 true (10 ^ 17) (10 ^ 17) 0 = Ret (1, 1, None)
  /\ quote_result (exact_quote 0 1 (10 ^ 17) (10 ^ 17) 0) None = (0, 0, None)
  /\ Qpositive (exactAmountOut (exact_quote 0 1 (10 ^ 17) (10 ^ 17) 0)) = true
  /\ Qpositive (minAmountOut (exact_quote 0 1 (10 ^ 17) (10 ^ 17) 0)) = true.
Proof. repeat split; vm_compute; reflexivity. Qed.

(** C2 (as amended).  For reserves 1,000,000 and 5,000,000, 100,000 paid
    in, a fee rate of 2500 and 100 basis points of slippage: the fee is 250,
    the net input 99,750, [k] is [5 * 10 ^ 12], the new output reserve is
    4,546,487.8381450329620368, the exact output 453,512.1618549670379632,
    and both quotes return [exactAmountOut = 453512] and
    [minAmountOut = 448977]. *)
Theorem concrete_scenario :
  let q := swap_quote 100 100000 1000000 5000000 2500 in
  (fee q == 250 # 1)%Q
  /\ (amountInNet q == 99750 # 1)%Q
  /\ (k q == 5 * 10 ^ 12 # 1)%Q
  /\ (newInputReserve q == 1099750 # 1)%Q
  /\ (newOutputReserve q == 45464878381450329620368 # 10 ^ 16)%Q
  /\ (exactAmountOut q == 4535121618549670379632 # 10 ^ 16)%Q
  /\ CalcMinAmountOutBySwap_decimals 100 100000 1000000 5000000 2500
     = Ret (New 44897704023641736758356800000000000000 (-32),
            New 4535121618549670379632 (-16))
  /\ CalcMinAmountOutBySwap 100 100000 1000000 5000000 2500
     = Ret (448977, 453512, None)
  /\ CalcMinAmountOutByAmm 100 100000 true 5000000 1000000 2500
     = Ret (448977, 453512, None)
  /\ CalculateMinAmountOut 100 100000 true 5000000 1000000 2500
     = Ret (448977, 453512, None)
  /\ CalculateMinAmountOut 100 100000 false 1000000 5000000 2500
     = Ret (448977, 453512, None).
Proof. cbv zeta. repeat split; vm_compute; reflexivity. Qed.

(** C2, as stated, fails: no quote of the scenario is within 200 units of
    the figures 453,740 and 449,202, and the integer part of the new output
    reserve is not 4,546,260 even in exact arithmetic. *)
Lemma concrete_scenario_counterexample :
  ~ (exists m e err,
        (CalcMinAmountOutBySwap 100 100000 1000000 5000000 2500 = Ret (m, e, err)
         \/ CalculateMinAmountOut 100 100000 true 5000000 1000000 2500
            = Ret (m, e, err))
        /\ (Z.abs (e - 453740) <= 200 \/ Z.abs (m - 449202) <= 200))
  /\ integer_part
       (newOutputReserve (exact_quote 100 100000 1000000 5000000 2500))
     = 4546487.
Proof.
  split.
  - intros (m & e & err & Hret & Hnear).
    assert (E : m = 448977 /\ e = 453512).
    { destruct Hret as [H|H]; vm_compute in H; injection H as <- <- _;
        split; reflexivity. }
    destruct E as [-> ->]. vm_compute in Hnear.
    destruct Hnear as [H|H]; apply H; reflexivity.
  - vm_compute. reflexivity.
Qed.

(** C3.  When the decimal computed for the exact output or for the minimum
    output is not positive, [CalcMinAmountOutBySwap] returns [(0, 0)] with a
    [nil] error and [CalculateMinAmountOut] returns [(0, 0)] with an error:
    the amounts computed are not returned. *)
Theorem zero_output_when_not_positive
    (slippage amountIn inputReserve outputReserve feeRate : Z)
    (isBuy : bool) (tokenAmount baseAmount : Z)
    (minOut outDecimal : Decimal) :
  (toQ outDecimal <= 0 \/ toQ minOut <= 0)%Q ->
  (CalcMinAmountOutBySwap_decimals
     slippage amountIn inputReserve outputReserve feeRate
   = Ret (minOut, outDecimal) ->
   CalcMinAmountOutBySwap slippage amountIn inputReserve outputReserve feeRate
   = Ret (0, 0, None))
  /\ (CalculateMinAmountOut_decimals
        slippage amountIn isBuy tokenAmount baseAmount feeRate
      = Ret (minOut, outDecimal) ->
      CalculateMinAmountOut slippage amountIn isBuy tokenAmount baseAmount feeRate
      = Ret (0, 0, zero_or_negative)
      /\ zero_or_negative <> None).
Proof.
  intros Hnp. split; intros Hd.
  - unfold CalcMinAmountOutBySwap. rewrite Hd. cbn [bind].
    replace (negb (IsPositive minOut) || negb (IsPositive outDecimal))
      with true; [reflexivity|].
    symmetry. apply orb_true_iff.
    destruct Hnp as [H|H]; [right|left]; apply negb_true_iff;
      apply not_true_is_false; intros Hp; apply IsPositive_toQ in Hp;
      apply (Qlt_not_le _ _ Hp); assumption.
  - split; [|discriminate].
    unfold CalculateMinAmountOut. rewrite Hd. cbn [bind].
    replace (LessThanOrEqual minOut Zero || LessThanOrEqual outDecimal Zero)
      with true; [reflexivity|].
    symmetry. apply orb_true_iff.
    destruct Hnp as [H|H]; [right|left]; apply LessThanOrEqual_Zero_toQ;
      assumption.
Qed.

Lemma zero_output_when_not_positive_witness :
  CalcMinAmountOutBySwap 10000 100000 1000000 5000000 2500 = Ret (0, 0, None)
  /\ CalculateMinAmountOut 100 0 true 5000000 1000000 2500
     = Ret (0, 0, zero_or_negative).
Proof.
  split.
  - apply (zero_output_when_not_positive 10000 100000 1000000 5000000 2500
             true 0 0 (New 0 (-32)) (New 4535121618549670379632 (-16))).
    + right. vm_compute. discriminate.
    + vm_compute. reflexivity.
  - apply (zero_output_when_not_positive 100 0 0 0 2500
             true 5000000 1000000 (New 0 (-16)) (New 0 (-16))).
    + left. vm_compute. discriminate.
    + vm_compute. reflexivity.
Defined.

(** C4.  The direction only names the reserves.  [CalcMinAmountOutByAmm]
    passes, for a buy, the base (SOL side) amount as input reserve and the
    token amount as output reserve to [CalcMinAmountOutBySwap], and the
    other way round for a sell.  [CalculateMinAmountOut] computes the same
    direction-free quote on the same assignment, so a buy on [(token, base)]
    is a sell on the two reserves exchanged. *)
Theorem direction_is_relabeling
    (slippage amountIn tokenAmount baseAmount feeRate : Z) :
  CalcMinAmountOutByAmm slippage amountIn true tokenAmount baseAmount feeRate
  = CalcMinAmountOutBySwap slippage amountIn baseAmount tokenAmount feeRate
  /\ CalcMinAmountOutByAmm slippage amountIn false tokenAmount baseAmount feeRate
     = CalcMinAmountOutBySwap slippage amountIn tokenAmount baseAmount feeRate
  /\ CalculateMinAmountOut slippage amountIn true tokenAmount baseAmount feeRate
     = quote_outcome utils_quote zero_or_negative
         slippage amountIn baseAmount tokenAmount feeRate
  /\ CalculateMinAmountOut slippage amountIn false tokenAmount baseAmount feeRate
     = quote_outcome utils_quote zero_or_negative
         slippage amountIn tokenAmount baseAmount feeRate
  /\ CalculateMinAmountOut slippage amountIn true tokenAmount baseAmount feeRate
     = CalculateMinAmountOut slippage amountIn false baseAmount tokenAmount feeRate
  /\ CalcMinAmountOutByAmm slippage amountIn true tokenAmount baseAmount feeRate
     = CalcMinAmountOutByAmm slippage amountIn false baseAmount tokenAmount feeRate.
Proof.
  repeat split; try reflexivity.
  - apply (CalculateMinAmountOut_outcome slippage amountIn true).
  - apply (CalculateMinAmountOut_outcome slippage amountIn false).
Qed.

(** C10.  With an empty input reserve and nothing paid in, the divisor of
    step 4 is zero whatever the other arguments are, and both quotes end in
    the panic of the division: no test comes before it. *)
Theorem division_by_zero_reachable (slippage outputReserve feeRate : Z) :
  CalcMinAmountOutBySwap slippage 0 0 outputReserve feeRate
  = Panic "decimal division by 0"
  /\ CalcMinAmountOutByAmm slippage 0 true outputReserve 0 feeRate
     = Panic "decimal division by 0"
  /\ CalculateMinAmountOut slippage 0 true outputReserve 0 feeRate
     = Panic "decimal division by 0"
  /\ CalculateMinAmountOut slippage 0 false 0 outputReserve feeRate
     = Panic "decimal division by 0".
Proof.
  repeat split.
  - apply CalcMinAmountOutBySwap_panic. reflexivity.
  - apply CalcMinAmountOutBySwap_panic. reflexivity.
  - apply CalculateMinAmountOut_panic. reflexivity.
  - apply CalculateMinAmountOut_panic. reflexivity.
Qed.

Lemma scaled_divisor_pos (amountIn inR feeRate : Z) :
  0 <= amountIn -> 0 <= inR -> feeRate <= 1000000 ->
  scaled_divisor amountIn inR feeRate <> 0 ->
  0 < scaled_divisor amountIn inR feeRate.
Proof.
  unfold scaled_divisor. intros Ha Hi Hf Hd.
  assert (0 <= amountIn * (1000000 - feeRate))
    by (apply Z.mul_nonneg_nonneg; lia).
  lia.
Qed.

(** C5 (as amended).  When the divisor of step 4,
    [inputReserve + amountInNet], is positive (as it is for every fee rate
    up to 1,000,000 unless it is zero), both quotes return at every
    slippage, the minimum returned does not grow when the slippage grows,
    and at slippage 0 the minimum returned is the exact output returned. *)
Theorem min_out_monotone_in_slippage
    (s1 s2 amountIn inputReserve outputReserve feeRate : Z) :
  is_uint64 inputReserve -> is_uint64 outputReserve ->
  0 <= s1 <= s2 ->
  (0 < newInputReserve
         (swap_quote s1 amountIn inputReserve outputReserve feeRate))%Q ->
  (exists m1 e1 m2 e2 m0,
      CalcMinAmountOutBySwap s1 amountIn inputReserve outputReserve feeRate
      = Ret (m1, e1, None)
      /\ CalcMinAmountOutBySwap s2 amountIn inputReserve outputReserve feeRate
         = Ret (m2, e2, None)
      /\ m2 <= m1
      /\ CalcMinAmountOutBySwap 0 amountIn inputReserve outputReserve feeRate
         = Ret (m0, m0, None))
  /\ (forall (isBuy : bool) (tokenAmount baseAmount : Z),
         in_reserve isBuy tokenAmount baseAmount = inputReserve ->
         out_reserve isBuy tokenAmount baseAmount = outputReserve ->
         exists m1 e1 err1 m2 e2 err2 m0 err0,
           CalculateMinAmountOut s1 amountIn isBuy tokenAmount baseAmount feeRate
           = Ret (m1, e1, err1)
           /\ CalculateMinAmountOut s2 amountIn isBuy tokenAmount baseAmount feeRate
              = Ret (m2, e2, err2)
           /\ m2 <= m1
           /\ CalculateMinAmountOut 0 amountIn isBuy tokenAmount baseAmount feeRate
              = Ret (m0, m0, err0)).
Proof.
  intros Hi Ho Hs Hq.
  assert (Hpos : 0 < scaled_divisor amountIn inputReserve feeRate)
    by (apply newInputReserve_pos in Hq; assumption).
  assert (Hd : scaled_divisor amountIn inputReserve feeRate <> 0) by lia.
  set (om := out_mantissa amountIn inputReserve outputReserve feeRate).
  split.
  - rewrite !CalcMinAmountOutBySwap_value by assumption. fold om.
    pose proof (result_min_mono (om * ((10000 - s1) * 10 ^ 12))
                  (om * ((10000 - s2) * 10 ^ 12)) 32 om None ltac:(lia)
                  (swap_min_mantissa_bounds s1 s2 amountIn inputReserve
                     outputReserve feeRate (proj1 Hi) Ho Hpos Hs)) as Hmono.
    pose proof (result_min_eq_exact (om * ((10000 - 0) * 10 ^ 12)) 32 om None)
      as Heq.
    destruct (result_of_mantissas (om * ((10000 - s1) * 10 ^ 12)) 32 om None)
      as [[m1 e1] err1] eqn:E1.
    destruct (result_of_mantissas (om * ((10000 - s2) * 10 ^ 12)) 32 om None)
      as [[m2 e2] err2] eqn:E2.
    destruct (result_of_mantissas (om * ((10000 - 0) * 10 ^ 12)) 32 om None)
      as [[m0 e0] err0] eqn:E0.
    cbn [fst snd] in Hmono, Heq.
    assert (err1 = None /\ err2 = None /\ err0 = None) as (-> & -> & ->).
    { unfold result_of_mantissas in E1, E2, E0.
      repeat split;
        [ destruct (_ && _) in E1 | destruct (_ && _) in E2
        | destruct (_ && _) in E0 ]; congruence. }
    rewrite <- Heq.
    + exists m1, e1, m2, e2, m0. repeat split. assumption.
    + replace (om * ((10000 - 0) * 10 ^ 12)) with (om * 10 ^ 16) by lia.
      change (10 ^ 32) with (10 ^ 16 * 10 ^ 16).
      apply Z.quot_mul_cancel_r; discriminate.
    + split; intros; nia.
  - intros isBuy tokenAmount baseAmount Hin Hout.
    rewrite !(CalculateMinAmountOut_value _ amountIn isBuy tokenAmount
                baseAmount feeRate) by (rewrite Hin; assumption).
    rewrite Hin, Hout. fold om.
    pose proof (result_min_mono (round_quot (om * (10000 - s1)) 10000)
                  (round_quot (om * (10000 - s2)) 10000) 16 om zero_or_negative
                  ltac:(lia)
                  (utils_min_mantissa_bounds s1 s2 amountIn inputReserve
                     outputReserve feeRate (proj1 Hi) Ho Hpos Hs)) as Hmono.
    pose proof (result_min_eq_exact (round_quot (om * (10000 - 0)) 10000) 16 om
                  zero_or_negative) as Heq.
    fold zero_or_negative.
    destruct (result_of_mantissas (round_quot (om * (10000 - s1)) 10000) 16 om
                zero_or_negative) as [[m1 e1] err1] eqn:E1.
    destruct (result_of_mantissas (round_quot (om * (10000 - s2)) 10000) 16 om
                zero_or_negative) as [[m2 e2] err2] eqn:E2.
    destruct (result_of_mantissas (round_quot (om * (10000 - 0)) 10000) 16 om
                zero_or_negative) as [[m0 e0] err0] eqn:E0.
    cbn [fst snd] in Hmono, Heq.
    rewrite <- Heq.
    + exists m1, e1, err1, m2, e2, err2, m0, err0. repeat split. assumption.
    + replace (om * (10000 - 0)) with (om * 10000) by lia.
      rewrite round_quot_exact by discriminate. reflexivity.
    + replace (om * (10000 - 0)) with (om * 10000) by lia.
      rewrite round_quot_exact by discriminate. reflexivity.
Qed.

Lemma min_out_monotone_in_slippage_witness :
  exists m1 e1 m2 e2 m0,
    CalcMinAmountOutBySwap 100 100000 1000000 5000000 2500 = Ret (m1, e1, None)
    /\ CalcMinAmountOutBySwap 500 100000 1000000 5000000 2500 = Ret (m2, e2, None)
    /\ m2 <= m1
    /\ CalcMinAmountOutBySwap 0 100000 1000000 5000000 2500 = Ret (m0, m0, None).
Proof.
  apply (min_out_monotone_in_slippage 100 500 100000 1000000 5000000 2500);
    unfold is_uint64; try lia.
  vm_compute. reflexivity.
Defined.

(** C5, as stated, fails when [inputReserve + amountInNet] is negative.
    With a fee rate of 2,000,000 the net input is negative; here the exact
    output is [2 ^ 64], returned as 0 at slippage 0, while at slippage 1 the
    minimum fits in 64 bits and is returned as it is. *)
Lemma slippage_monotonicity_counterexample :
  CalcMinAmountOutBySwap 0 2 1 (2 ^ 63) 2000000 = Ret (0, 0, None)
  /\ CalcMinAmountOutBySwap 1 2 1 (2 ^ 63) 2000000
     = Ret (18444899399302180660, 0, None)
  /\ CalculateMinAmountOut 0 2 false 1 (2 ^ 63) 2000000 = Ret (0, 0, None)
  /\ CalculateMinAmountOut 1 2 false 1 (2 ^ 63) 2000000
     = Ret (18444899399302180660, 0, None)
  /\ ~ (forall m1 e1 err1 m2 e2 err2,
          CalcMinAmountOutBySwap 0 2 1 (2 ^ 63) 2000000 = Ret (m1, e1, err1) ->
          CalcMinAmountOutBySwap 1 2 1 (2 ^ 63) 2000000 = Ret (m2, e2, err2) ->
          m2 <= m1).
Proof.
  repeat split; try (vm_compute; reflexivity).
  intros H.
  specialize (H 0 0 None 18444899399302180660 0 None
                ltac:(vm_compute; reflexivity) ltac:(vm_compute; reflexivity)).
  lia.
Qed.

Lemma result_exact_positive (mv n om e m : Z) (err err' : error) :
  result_of_mantissas mv n om err = (m, e, err') -> 0 < e ->
  0 < om /\ e = uint64 (Z.quot om (10 ^ 16)).
Proof.
  unfold result_of_mantissas. intros H He.
  destruct (0 <? mv); destruct (0 <? om) eqn:Eo; cbn [andb] in H;
    injection H as <- <- <-; try lia.
  apply Z.ltb_lt in Eo. split; [assumption | reflexivity].
Qed.

Lemma exact_output_conserves (mv n amountIn inR outR m e : Z) (err err' : error) :
  is_uint64 amountIn -> is_uint64 inR -> is_uint64 outR ->
  scaled_divisor amountIn inR 0 <> 0 ->
  result_of_mantissas mv n (out_mantissa amountIn inR outR 0) err = (m, e, err') ->
  0 < e ->
  Z.abs (inR * outR - (inR + amountIn) * (outR - e)) < inR + amountIn.
Proof.
  intros Ha Hi Ho Hd Hr He.
  destruct (result_exact_positive _ _ _ _ _ _ _ Hr He) as [Hom ->].
  assert (Hpos : 0 < scaled_divisor amountIn inR 0)
    by (apply scaled_divisor_pos; unfold is_uint64 in *; lia).
  pose proof (out_mantissa_le amountIn inR outR 0 (proj1 Hi) (proj1 Ho) Hpos).
  rewrite uint64_small.
  - apply conservation_bound; unfold is_uint64, scaled_divisor in *; lia.
  - split; [apply Z.quot_pos; lia|].
    apply quot_lt_of_lt; unfold is_uint64 in *; lia.
Qed.

(** C6 (as amended).  With no fee, when a quote returns a positive exact
    output [e], the product of the reserves after the swap,
    [(inputReserve + amountIn) * (outputReserve - e)], differs from the
    product before it by less than [inputReserve + amountIn]: [e] is within
    one unit of the output that conserves the product. *)
Theorem product_conserved_within_one_output_unit
    (slippage amountIn inputReserve outputReserve m e : Z) (err : error) :
  is_uint64 amountIn -> is_uint64 inputReserve -> is_uint64 outputReserve ->
  0 < e ->
  (CalcMinAmountOutBySwap slippage amountIn inputReserve outputReserve 0
   = Ret (m, e, err) ->
   Z.abs (inputReserve * outputReserve
          - (inputReserve + amountIn) * (outputReserve - e))
   < inputReserve + amountIn)
  /\ (forall (isBuy : bool) (tokenAmount baseAmount : Z),
         in_reserve isBuy tokenAmount baseAmount = inputReserve ->
         out_reserve isBuy tokenAmount baseAmount = outputReserve ->
         CalculateMinAmountOut slippage amountIn isBuy tokenAmount baseAmount 0
         = Ret (m, e, err) ->
         Z.abs (inputReserve * outputReserve
                - (inputReserve + amountIn) * (outputReserve - e))
         < inputReserve + amountIn).
Proof.
  intros Ha Hi Ho He. split.
  - intros Hret.
    destruct (Z.eq_dec (scaled_divisor amountIn inputReserve 0) 0) as [Hz|Hnz].
    + rewrite CalcMinAmountOutBySwap_panic in Hret by assumption. discriminate.
    + rewrite CalcMinAmountOutBySwap_value in Hret by assumption.
      injection Hret as Hret.
      apply (exact_output_conserves _ _ _ _ _ _ _ _ _ Ha Hi Ho Hnz Hret He).
  - intros isBuy tokenAmount baseAmount Hin Hout Hret.
    destruct (Z.eq_dec (scaled_divisor amountIn inputReserve 0) 0) as [Hz|Hnz].
    + rewrite CalculateMinAmountOut_panic in Hret by (rewrite Hin; assumption).
      discriminate.
    + rewrite CalculateMinAmountOut_value in Hret by (rewrite Hin; assumption).
      rewrite Hin, Hout in Hret. injection Hret as Hret.
      apply (exact_output_conserves _ _ _ _ _ _ _ _ _ Ha Hi Ho Hnz Hret He).
Qed.

Lemma product_conserved_within_one_output_unit_witness :
  Z.abs (1000000 * 5000000 - (1000000 + 100000) * (5000000 - 454545))
  < 1000000 + 100000.
Proof.
  apply (product_conserved_within_one_output_unit
           100 100000 1000000 5000000 449999 454545 None);
    unfold is_uint64; try lia.
  vm_compute. reflexivity.
Defined.

(** C6, as stated, fails: the two products need not agree within 1.  With
    reserves 10 and 10 and 3 paid in, the exact output returned is 2, and the
    products are 100 and 104. *)
Lemma product_tolerance_counterexample :
  CalcMinAmountOutBySwap 0 3 10 10 0 = Ret (2, 2, None)
  /\ CalculateMinAmountOut 0 3 false 10 10 0 = Ret (2, 2, None)
  /\ Z.abs (10 * 10 - (10 + 3) * (10 - 2)) = 4.
Proof. repeat split; vm_compute; reflexivity. Qed.

(** ** The decoder: the claims *)

Lemma bytes_Equal_true (a b : list byte) : bytes_Equal a b = true <-> a = b.
Proof.
  unfold bytes_Equal. destruct (list_eq_dec Byte.byte_eq_dec a b); split;
    congruence.
Qed.

Lemma bytes_Equal_false (a b : list byte) : a <> b -> bytes_Equal a b = false.
Proof.
  unfold bytes_Equal. destruct (list_eq_dec Byte.byte_eq_dec a b); congruence.
Qed.

Lemma bytes_Equal_refl (a : list byte) : bytes_Equal a a = true.
Proof. apply bytes_Equal_true. reflexivity. Qed.

Lemma len_nonneg {A : Type} (l : list A) : 0 <= len l.
Proof. unfold len. lia. Qed.

(** Settles a test of the payload length from the hypotheses. *)
Ltac length_test b :=
  match goal with
  | |- context [?x >=? ?n] =>
      replace (x >=? n) with b
        by (symmetry; rewrite Z.geb_leb;
            first [apply Z.leb_le; lia | apply Z.leb_gt; lia])
  end.

Lemma slice_prefix (s : list byte) (hi : Z) :
  0 <= hi <= len s -> slice s 0 hi = Ret (firstn (Z.to_nat hi) s).
Proof.
  intros H. unfold slice.
  replace ((0 <=? 0) && (0 <=? hi) && (hi <=? len s)) with true
    by (symmetry; rewrite !andb_true_iff, !Z.leb_le; lia).
  rewrite Z.sub_0_r. reflexivity.
Qed.

(** The bytes shown for an unknown instruction: at most 32. *)
Lemma slice_maxPrint (s : list byte) :
  slice s 0 (if len s >? 32 then 32 else len s) = Ret (firstn 32 s).
Proof.
  pose proof (len_nonneg s) as Hn.
  destruct (len s >? 32) eqn:E.
  - apply Z.gtb_lt in E. rewrite slice_prefix by lia. reflexivity.
  - rewrite Z.gtb_ltb in E. apply Z.ltb_ge in E.
    rewrite slice_prefix by lia. unfold len in *.
    rewrite Nat2Z.id, !firstn_all2 by lia. reflexivity.
Qed.

(** The inspection of a payload that carries a discriminator and fewer
    than 24 bytes, or a discriminator that is not known. *)
Lemma inspect_discriminator (st : Detection) (payload : list byte) :
  8 <= len payload ->
  exists r,
    inspectInstructionData st payload = Ret r
    /\ currentDiscriminator r = firstn 8 payload.
Proof.
  intros Hlen. unfold inspectInstructionData.
  length_test true.
  rewrite slice_prefix by lia. cbn [bind]. change (Z.to_nat 8) with 8%nat.
  set (d := firstn 8 payload).
  assert (Hs : forall lo hi, 0 <= lo <= hi -> hi <= 24 -> 24 <= len payload ->
                 exists p, slice payload lo hi = Ret p /\ len p = hi - lo).
  { intros lo hi H1 H2 H3. unfold slice.
    replace ((0 <=? lo) && (lo <=? hi) && (hi <=? len payload)) with true
      by (symmetry; rewrite !andb_true_iff, !Z.leb_le; lia).
    eexists. split; [reflexivity|]. unfold len in *.
    rewrite length_firstn, length_skipn. lia. }
  assert (Hu : forall p, len p = 8 -> exists v, LittleEndian_Uint64 p = Ret v).
  { intros p Hp. unfold len in Hp.
    do 8 (destruct p as [|? p]; [simpl in Hp; lia|]).
    eexists. reflexivity. }
  destruct (bytes_Equal d BuyDiscriminator);
    [|destruct (bytes_Equal d SellDiscriminator);
      [|destruct (bytes_Equal d CreatePoolDiscriminator)]].
  - destruct (len payload >=? 24) eqn:E24; [|eexists; split; reflexivity].
    rewrite Z.geb_leb in E24. apply Z.leb_le in E24.
    destruct (Hs 8 16 ltac:(lia) ltac:(lia) E24) as (p1 & -> & Hp1).
    destruct (Hs 16 24 ltac:(lia) ltac:(lia) E24) as (p2 & -> & Hp2).
    destruct (Hu p1 Hp1) as [v1 Hv1]. destruct (Hu p2 Hp2) as [v2 Hv2].
    cbn [bind]. rewrite Hv1. cbn [bind]. rewrite Hv2. cbn [bind].
    eexists; split; reflexivity.
  - destruct (len payload >=? 24) eqn:E24; [|eexists; split; reflexivity].
    rewrite Z.geb_leb in E24. apply Z.leb_le in E24.
    destruct (Hs 8 16 ltac:(lia) ltac:(lia) E24) as (p1 & -> & Hp1).
    destruct (Hs 16 24 ltac:(lia) ltac:(lia) E24) as (p2 & -> & Hp2).
    destruct (Hu p1 Hp1) as [v1 Hv1]. destruct (Hu p2 Hp2) as [v2 Hv2].
    cbn [bind]. rewrite Hv1. cbn [bind]. rewrite Hv2. cbn [bind].
    eexists; split; reflexivity.
  - eexists; split; reflexivity.
  - rewrite slice_maxPrint. cbn [bind]. eexists; split; reflexivity.
Qed.

(** The inspection never panics: every slice it takes is in range. *)
Lemma inspectInstructionData_returns (st : Detection) (payload : list byte) :
  exists r, inspectInstructionData st payload = Ret r.
Proof.
  destruct (Z.le_gt_cases 8 (len payload)) as [H|H].
  - destruct (inspect_discriminator st payload H) as (r & Hr & _).
    exists r. assumption.
  - unfold inspectInstructionData.
    length_test false.
    eexists. reflexivity.
Qed.

(** C7.  A payload made of the Buy discriminator, [encodeU64 X] and
    [encodeU64 Y] is recognised as a buy, with [X] decoded from bytes 8 to 16
    as the base amount out and [Y] from bytes 16 to 24 as the maximum quote
    amount in; with the Sell discriminator it is recognised as a sell, with
    [X] as the base amount in and [Y] as the minimum quote amount out. *)
Theorem classifier_round_trip (st : Detection) (X Y : Z) :
  is_uint64 X -> is_uint64 Y ->
  inspectInstructionData st (BuyDiscriminator ++ encodeU64 X ++ encodeU64 Y)
  = Ret {| detection :=
             {| isSwapInstruction := true; isBuy := true; isSell := isSell st;
                summary := set_amounts
                             (set_direction (summary st) "Buy (SOL → Token)")
                             Y X |};
           currentDiscriminator := BuyDiscriminator;
           printed := [InstructionDiscriminator BuyDiscriminator;
                       BuyParameters X Y] |}
  /\ inspectInstructionData st (SellDiscriminator ++ encodeU64 X ++ encodeU64 Y)
     = Ret {| detection :=
                {| isSwapInstruction := true; isBuy := isBuy st; isSell := true;
                   summary := set_amounts
                                (set_direction (summary st) "Sell (Token → SOL)")
                                X Y |};
              currentDiscriminator := SellDiscriminator;
              printed := [InstructionDiscriminator SellDiscriminator;
                          SellParameters X Y] |}
  /\ instructionType BuyDiscriminator = "Buy"%string
  /\ instructionType SellDiscriminator = "Sell"%string.
Proof.
  intros HX HY. split; [|split; [|split; reflexivity]].
  - unfold inspectInstructionData.
    change (len (BuyDiscriminator ++ encodeU64 X ++ encodeU64 Y) >=? 8) with true.
    change (len (BuyDiscriminator ++ encodeU64 X ++ encodeU64 Y) >=? 24) with true.
    change (slice (BuyDiscriminator ++ encodeU64 X ++ encodeU64 Y) 0 8)
      with (Ret BuyDiscriminator).
    change (slice (BuyDiscriminator ++ encodeU64 X ++ encodeU64 Y) 8 16)
      with (Ret (encodeU64 X)).
    change (slice (BuyDiscriminator ++ encodeU64 X ++ encodeU64 Y) 16 24)
      with (Ret (encodeU64 Y)).
    cbn [bind]. rewrite bytes_Equal_refl, !Uint64_encodeU64 by assumption.
    reflexivity.
  - unfold inspectInstructionData.
    change (len (SellDiscriminator ++ encodeU64 X ++ encodeU64 Y) >=? 8) with true.
    change (len (SellDiscriminator ++ encodeU64 X ++ encodeU64 Y) >=? 24) with true.
    change (slice (SellDiscriminator ++ encodeU64 X ++ encodeU64 Y) 0 8)
      with (Ret SellDiscriminator).
    change (slice (SellDiscriminator ++ encodeU64 X ++ encodeU64 Y) 8 16)
      with (Ret (encodeU64 X)).
    change (slice (SellDiscriminator ++ encodeU64 X ++ encodeU64 Y) 16 24)
      with (Ret (encodeU64 Y)).
    cbn [bind].
    change (bytes_Equal SellDiscriminator BuyDiscriminator) with false.
    rewrite bytes_Equal_refl, !Uint64_encodeU64 by assumption.
    reflexivity.
Qed.

Lemma classifier_round_trip_witness :
  inspectInstructionData initial_detection
    (BuyDiscriminator ++ encodeU64 5 ++ encodeU64 (2 ^ 64 - 1))
  = Ret {| detection :=
             {| isSwapInstruction := true; isBuy := true; isSell := false;
                summary := set_amounts
                             (set_direction initial_summary "Buy (SOL → Token)")
                             (2 ^ 64 - 1) 5 |};
           currentDiscriminator := BuyDiscriminator;
           printed := [InstructionDiscriminator BuyDiscriminator;
                       BuyParameters 5 (2 ^ 64 - 1)] |}.
Proof.
  apply (classifier_round_trip initial_detection 5 (2 ^ 64 - 1));
    unfold is_uint64; lia.
Defined.

(** C8.  The inspection of a payload always returns: no payload makes it
    panic.  A payload of fewer than 8 bytes is reported as too short: the
    inspection changes no detection variable, stores no discriminator and
    decodes nothing, and the loop goes on with the following instructions.  A payload of at least 8 bytes whose first 8
    bytes are none of the three discriminators is reported as unknown: the
    detection variables are unchanged, nothing is decoded, and the 8 bytes
    are kept as the instruction's discriminator and shown in the report. *)
Theorem too_short_and_unknown (st : Detection) (payload : list byte) :
  (len payload < 8 ->
   inspectInstructionData st payload
   = Ret {| detection := st; currentDiscriminator := [];
            printed := [DataTooShort (len payload)] |}
   /\ forall rest : list (list byte),
        inspectInstructions st (payload :: rest)
        = (rs <- inspectInstructions st rest ;;
           Ret (fst rs, DataTooShort (len payload) :: snd rs)))
  /\ (8 <= len payload ->
      firstn 8 payload <> BuyDiscriminator ->
      firstn 8 payload <> SellDiscriminator ->
      firstn 8 payload <> CreatePoolDiscriminator ->
      inspectInstructionData st payload
      = Ret {| detection := st; currentDiscriminator := firstn 8 payload;
               printed := [InstructionDiscriminator (firstn 8 payload);
                           UnknownInstructionType (firstn 8 payload)
                                                  (firstn 32 payload)] |}
      /\ instructionType (firstn 8 payload) = "Unknown"%string)
  /\ (exists r, inspectInstructionData st payload = Ret r).
Proof.
  split; [|split; [|apply inspectInstructionData_returns]].
  - intros Hlen.
    assert (E : inspectInstructionData st payload
                = Ret {| detection := st; currentDiscriminator := [];
                         printed := [DataTooShort (len payload)] |}).
    { unfold inspectInstructionData.
      length_test false.
      reflexivity. }
    split; [assumption|].
    intros rest. cbn [inspectInstructions]. rewrite E. reflexivity.
  - intros Hlen Hb Hs Hc. unfold inspectInstructionData, instructionType.
    length_test true.
    rewrite slice_prefix by lia. cbn [bind]. change (Z.to_nat 8) with 8%nat.
    rewrite !bytes_Equal_false by assumption.
    rewrite slice_maxPrint. split; reflexivity.
Qed.

Lemma too_short_and_unknown_witness :
  inspectInstructionData initial_detection (unsigned_bytes [1; 2; 3])
  = Ret {| detection := initial_detection; currentDiscriminator := [];
           printed := [DataTooShort 3] |}
  /\ inspectInstructionData initial_detection
       (unsigned_bytes [0; 0; 0; 0; 0; 0; 0; 0; 7])
     = Ret {| detection := initial_detection;
              currentDiscriminator := unsigned_bytes [0; 0; 0; 0; 0; 0; 0; 0];
              printed :=
                [InstructionDiscriminator (unsigned_bytes [0; 0; 0; 0; 0; 0; 0; 0]);
                 UnknownInstructionType
                   (unsigned_bytes [0; 0; 0; 0; 0; 0; 0; 0])
                   (unsigned_bytes [0; 0; 0; 0; 0; 0; 0; 0; 7])] |}.
Proof.
  split.
  - apply (too_short_and_unknown initial_detection (unsigned_bytes [1; 2; 3])).
    vm_compute. reflexivity.
  - apply (too_short_and_unknown initial_detection
             (unsigned_bytes [0; 0; 0; 0; 0; 0; 0; 0; 7]));
      vm_compute; discriminate.
Defined.

(** C9 (as amended).  A payload of 8 to 23 bytes that starts with the Buy
    or the Sell discriminator is recognised as a buy or a sell and nothing
    is decoded: no parameter report is printed and the amounts of the
    summary, plain integers, stay as they were (zero in a fresh summary). *)
Theorem short_swap_payload_keeps_amounts (st : Detection) (payload : list byte) :
  8 <= len payload < 24 ->
  (firstn 8 payload = BuyDiscriminator ->
   inspectInstructionData st payload
   = Ret {| detection :=
              {| isSwapInstruction := true; isBuy := true; isSell := isSell st;
                 summary := set_direction (summary st) "Buy (SOL → Token)" |};
            currentDiscriminator := BuyDiscriminator;
            printed := [InstructionDiscriminator BuyDiscriminator] |})
  /\ (firstn 8 payload = SellDiscriminator ->
      inspectInstructionData st payload
      = Ret {| detection :=
                 {| isSwapInstruction := true; isBuy := isBuy st; isSell := true;
                    summary := set_direction (summary st) "Sell (Token → SOL)" |};
               currentDiscriminator := SellDiscriminator;
               printed := [InstructionDiscriminator SellDiscriminator] |})
  /\ (forall dir : string,
        AmountIn (set_direction (summary st) dir) = AmountIn (summary st)
        /\ AmountOut (set_direction (summary st) dir) = AmountOut (summary st)).
Proof.
  intros Hlen. split; [|split].
  - intros Hd. unfold inspectInstructionData.
    length_test true.
    rewrite slice_prefix by lia. cbn [bind]. change (Z.to_nat 8) with 8%nat.
    rewrite Hd, bytes_Equal_refl.
    length_test false.
    reflexivity.
  - intros Hd. unfold inspectInstructionData.
    length_test true.
    rewrite slice_prefix by lia. cbn [bind]. change (Z.to_nat 8) with 8%nat.
    rewrite Hd.
    change (bytes_Equal SellDiscriminator BuyDiscriminator) with false.
    rewrite bytes_Equal_refl.
    length_test false.
    reflexivity.
  - intros dir. split; reflexivity.
Qed.

Lemma short_swap_payload_keeps_amounts_witness :
  inspectInstructionData initial_detection (BuyDiscriminator ++ encodeU64 5)
  = Ret {| detection :=
             {| isSwapInstruction := true; isBuy := true; isSell := false;
                summary := set_direction initial_summary "Buy (SOL → Token)" |};
           currentDiscriminator := BuyDiscriminator;
           printed := [InstructionDiscriminator BuyDiscriminator] |}.
Proof.
  apply (short_swap_payload_keeps_amounts initial_detection
           (BuyDiscriminator ++ encodeU64 5)).
  - vm_compute. split; [discriminate | reflexivity].
  - reflexivity.
Defined.

(** C9, as stated, fails: after a Buy payload that stops at the
    discriminator, the detection variables and the summary are those left by
    a 24-byte Buy payload whose two amounts are zero; so is the stored
    discriminator.  Only the parameter report tells the two apart. *)
Lemma short_payload_counterexample :
  exists r1 r2,
    inspectInstructionData initial_detection BuyDiscriminator = Ret r1
    /\ inspectInstructionData initial_detection
         (BuyDiscriminator ++ encodeU64 0 ++ encodeU64 0) = Ret r2
    /\ detection r1 = detection r2
    /\ AmountIn (summary (detection r1)) = 0
    /\ AmountOut (summary (detection r1)) = 0
    /\ currentDiscriminator r1 = currentDiscriminator r2
    /\ printed r2 = printed r1 ++ [BuyParameters 0 0].
Proof.
  eexists. eexists.
  split; [vm_compute; reflexivity|].
  split; [vm_compute; reflexivity|].
  repeat split.
Qed.

(** * Further properties of the code *)

(** ** The quote engine *)

Lemma div_le_cross (p q p' q' : Z) :
  0 < q -> 0 < q' -> p' * q <= p * q' -> p' / q' <= p / q.
Proof.
  intros Hq Hq' H.
  apply Z.div_le_lower_bound; [assumption|].
  pose proof (Z.mul_div_le p' q' Hq') as Hfl.
  assert (Hc : q' * (q * (p' / q')) <= q' * p).
  { replace (q' * (q * (p' / q'))) with (q * (q' * (p' / q'))) by ring.
    apply Z.le_trans with (q * p').
    - apply Z.mul_le_mono_nonneg_l; lia.
    - lia. }
  apply Z.mul_le_mono_pos_l in Hc; assumption.
Qed.

(** A larger divisor gives a smaller rounded quotient. *)
Lemma round_quot_antitone (a b b' : Z) :
  0 <= a -> 0 < b <= b' -> round_quot a b' <= round_quot a b.
Proof.
  intros Ha Hb. rewrite !round_quot_nonneg by lia.
  apply div_le_cross; try lia.
  assert (a * b <= a * b') by (apply Z.mul_le_mono_nonneg_l; lia).
  lia.
Qed.

(** The output mantissa grows with the divisor of step 4. *)
Lemma out_mantissa_mono (a1 f1 a2 f2 inR outR : Z) :
  0 <= inR -> 0 <= outR ->
  0 < scaled_divisor a1 inR f1 <= scaled_divisor a2 inR f2 ->
  out_mantissa a1 inR outR f1 <= out_mantissa a2 inR outR f2.
Proof.
  intros Hi Ho Hd. unfold out_mantissa.
  assert (round_quot (inR * outR * 10 ^ 32) (scaled_divisor a2 inR f2 * 10 ^ 10)
          <= round_quot (inR * outR * 10 ^ 32) (scaled_divisor a1 inR f1 * 10 ^ 10))
    by (apply round_quot_antitone; nia).
  lia.
Qed.

(** The returned pair grows with the two mantissas. *)
Lemma result_mono (mv1 mv2 n om1 om2 : Z) (err : error) :
  0 <= n -> om2 <= om1 ->
  (0 < om2 -> 0 < mv2 -> mv2 <= mv1) ->
  (0 < om1 -> mv1 < 2 ^ 64 * 10 ^ n) ->
  om1 < 2 ^ 64 * 10 ^ 16 ->
  fst (fst (result_of_mantissas mv2 n om2 err))
  <= fst (fst (result_of_mantissas mv1 n om1 err))
  /\ snd (fst (result_of_mantissas mv2 n om2 err))
     <= snd (fst (result_of_mantissas mv1 n om1 err)).
Proof.
  intros Hn Hom Hmv Hb1 Hb2. unfold result_of_mantissas.
  assert (Hp : 0 < 10 ^ n) by (apply Z.pow_pos_nonneg; lia).
  assert (Hnn : forall x k, 0 <= uint64 (Z.quot x (10 ^ k)))
    by (intros; unfold uint64; apply Z.mod_pos_bound; reflexivity).
  destruct (0 <? mv2) eqn:E2; destruct (0 <? om2) eqn:Eo2; cbn [andb fst snd];
    try (destruct ((0 <? mv1) && (0 <? om1)); cbn [fst snd];
         split; first [apply Hnn | lia]).
  apply Z.ltb_lt in E2, Eo2.
  specialize (Hmv Eo2 E2). specialize (Hb1 ltac:(lia)).
  replace (0 <? mv1) with true by (symmetry; apply Z.ltb_lt; lia).
  replace (0 <? om1) with true by (symmetry; apply Z.ltb_lt; lia).
  cbn [andb fst snd].
  rewrite !uint64_small.
  - split; apply Z.quot_le_mono; lia.
  - split; [apply Z.quot_pos; lia | apply quot_lt_of_lt; lia].
  - split; [apply Z.quot_pos; lia | apply quot_lt_of_lt; lia].
  - split; [apply Z.quot_pos; lia | apply quot_lt_of_lt; lia].
  - split; [apply Z.quot_pos; lia | apply quot_lt_of_lt; lia].
Qed.

(** The returned minimum is at most the returned exact output. *)
Lemma result_min_le_exact (mv n om : Z) (err : error) :
  16 <= n -> (0 < om -> mv <= om * 10 ^ (n - 16)) -> om < 2 ^ 64 * 10 ^ 16 ->
  0 <= fst (fst (result_of_mantissas mv n om err))
    <= snd (fst (result_of_mantissas mv n om err)).
Proof.
  intros Hn Hmv Hb. unfold result_of_mantissas.
  destruct (0 <? mv) eqn:E; destruct (0 <? om) eqn:Eo; cbn [andb fst snd];
    try lia.
  apply Z.ltb_lt in E, Eo. specialize (Hmv Eo).
  assert (Hp : 0 < 10 ^ (n - 16)) by (apply Z.pow_pos_nonneg; lia).
  assert (Hpn : 10 ^ n = 10 ^ 16 * 10 ^ (n - 16))
    by (rewrite <- Z.pow_add_r by lia; f_equal; lia).
  assert (Hq : Z.quot mv (10 ^ n) <= Z.quot om (10 ^ 16)).
  { rewrite <- (Z.quot_mul_cancel_r om (10 ^ 16) (10 ^ (n - 16))) by lia.
    rewrite <- Hpn. apply Z.quot_le_mono; lia. }
  assert (0 <= Z.quot mv (10 ^ n)) by (apply Z.quot_pos; lia).
  assert (Z.quot om (10 ^ 16) < 2 ^ 64) by (apply quot_lt_of_lt; lia).
  rewrite !uint64_small by lia. lia.
Qed.

Lemma result_exact_le (mv n om bound : Z) (err : error) :
  0 <= bound < 2 ^ 64 -> om <= bound * 10 ^ 16 ->
  snd (fst (result_of_mantissas mv n om err)) <= bound.
Proof.
  intros Hb Hom. unfold result_of_mantissas.
  destruct (0 <? mv); destruct (0 <? om) eqn:Eo; cbn [andb fst snd]; try lia.
  apply Z.ltb_lt in Eo.
  assert (Z.quot om (10 ^ 16) <= bound).
  { rewrite Z.quot_div_nonneg by lia.
    apply Z.lt_succ_r, Z.div_lt_upper_bound; lia. }
  assert (0 <= Z.quot om (10 ^ 16)) by (apply Z.quot_pos; lia).
  rewrite uint64_small by lia. assumption.
Qed.

Lemma round_quot_le_numerator_part (om c : Z) :
  0 < om -> c <= 10000 -> round_quot (om * c) 10000 <= om.
Proof.
  intros Hom Hc.
  rewrite <- (round_quot_exact om 10000) at 2 by discriminate.
  apply round_quot_mono; nia.
Qed.

(** The unfolding of a returned triple. *)
Lemma result_eta (mv n om : Z) (err : error) :
  exists m e err',
    result_of_mantissas mv n om err = (m, e, err')
    /\ m = fst (fst (result_of_mantissas mv n om err))
    /\ e = snd (fst (result_of_mantissas mv n om err)).
Proof.
  destruct (result_of_mantissas mv n om err) as [[m e] err'].
  exists m, e, err'. repeat split.
Qed.

Lemma swap_returns (s a inR outR f : Z) :
  scaled_divisor a inR f <> 0 ->
  exists m e,
    returns (CalcMinAmountOutBySwap s a inR outR f) m e
    /\ m = fst (fst (result_of_mantissas
                       (out_mantissa a inR outR f * ((10000 - s) * 10 ^ 12)) 32
                       (out_mantissa a inR outR f) None))
    /\ e = snd (fst (result_of_mantissas
                       (out_mantissa a inR outR f * ((10000 - s) * 10 ^ 12)) 32
                       (out_mantissa a inR outR f) None)).
Proof.
  intros Hd. rewrite CalcMinAmountOutBySwap_value by assumption.
  destruct (result_eta (out_mantissa a inR outR f * ((10000 - s) * 10 ^ 12)) 32
              (out_mantissa a inR outR f) None) as (m & e & err & E & Hm & He).
  exists m, e. split; [exists err; rewrite E; reflexivity | split; assumption].
Qed.

Lemma utils_returns (s a : Z) (isBuy : bool) (t b f inR outR : Z) :
  in_reserve isBuy t b = inR -> out_reserve isBuy t b = outR ->
  scaled_divisor a inR f <> 0 ->
  exists m e,
    returns (CalculateMinAmountOut s a isBuy t b f) m e
    /\ m = fst (fst (result_of_mantissas
                       (round_quot (out_mantissa a inR outR f * (10000 - s)) 10000)
                       16 (out_mantissa a inR outR f) zero_or_negative))
    /\ e = snd (fst (result_of_mantissas
                       (round_quot (out_mantissa a inR outR f * (10000 - s)) 10000)
                       16 (out_mantissa a inR outR f) zero_or_negative)).
Proof.
  intros Hin Hout Hd.
  rewrite CalculateMinAmountOut_value by (rewrite Hin; assumption).
  rewrite Hin, Hout. fold zero_or_negative.
  destruct (result_eta (round_quot (out_mantissa a inR outR f * (10000 - s)) 10000)
              16 (out_mantissa a inR outR f) zero_or_negative)
    as (m & e & err & E & Hm & He).
  exists m, e. split; [exists err; rewrite E; reflexivity | split; assumption].
Qed.

(** X1.  When [inputReserve + amountInNet] is positive, what a quote
    returns is ordered: [0 <= minAmountOut <= exactAmountOut <=
    outputReserve].  A quote never promises more than the pool holds. *)
Theorem quote_within_reserve
    (slippage amountIn inputReserve outputReserve feeRate : Z) :
  is_uint64 inputReserve -> is_uint64 outputReserve -> 0 <= slippage ->
  (0 < newInputReserve
         (swap_quote slippage amountIn inputReserve outputReserve feeRate))%Q ->
  (exists m e,
      returns (CalcMinAmountOutBySwap slippage amountIn inputReserve
                 outputReserve feeRate) m e
      /\ 0 <= m <= e /\ e <= outputReserve)
  /\ (forall (isBuy : bool) (tokenAmount baseAmount : Z),
         in_reserve isBuy tokenAmount baseAmount = inputReserve ->
         out_reserve isBuy tokenAmount baseAmount = outputReserve ->
         exists m e,
           returns (CalculateMinAmountOut slippage amountIn isBuy tokenAmount
                      baseAmount feeRate) m e
           /\ 0 <= m <= e /\ e <= outputReserve).
Proof.
  intros Hi Ho Hs Hq.
  assert (Hpos : 0 < scaled_divisor amountIn inputReserve feeRate)
    by (apply newInputReserve_pos in Hq; assumption).
  pose proof (out_mantissa_le amountIn inputReserve outputReserve feeRate
                (proj1 Hi) (proj1 Ho) Hpos) as Hle.
  set (om := out_mantissa amountIn inputReserve outputReserve feeRate) in *.
  assert (Hb : om < 2 ^ 64 * 10 ^ 16) by (unfold is_uint64 in Ho; lia).
  split.
  - destruct (swap_returns slippage amountIn inputReserve outputReserve feeRate
                ltac:(lia)) as (m & e & Hr & -> & ->).
    do 2 eexists. split; [exact Hr|]. fold om. split.
    + apply result_min_le_exact; [lia | | assumption].
      intros Hom. change (10 ^ (32 - 16)) with (10000 * 10 ^ 12).
      apply Z.mul_le_mono_nonneg_l; lia.
    + apply result_exact_le; assumption.
  - intros isBuy t b Hin Hout.
    destruct (utils_returns slippage amountIn isBuy t b feeRate _ _ Hin Hout
                ltac:(lia)) as (m & e & Hr & -> & ->).
    do 2 eexists. split; [exact Hr|]. fold om. split.
    + apply result_min_le_exact; [lia | | assumption].
      intros Hom. change (10 ^ (16 - 16)) with 1. rewrite Z.mul_1_r.
      apply round_quot_le_numerator_part; lia.
    + apply result_exact_le; assumption.
Qed.

Lemma quote_within_reserve_witness :
  exists m e,
    returns (CalcMinAmountOutBySwap 100 3200 21000 5000000 2500) m e
    /\ 0 <= m <= e /\ e <= 5000000.
Proof.
  refine (proj1 (quote_within_reserve 100 3200 21000 5000000 2500 _ _ _ _)).
  - unfold is_uint64. lia.
  - unfold is_uint64. lia.
  - lia.
  - vm_compute. reflexivity.
Defined.

(** Both amounts returned grow with the divisor of step 4. *)
Lemma quote_mono_in_divisor (s a1 f1 a2 f2 inR outR : Z) :
  is_uint64 inR -> is_uint64 outR -> 0 <= s ->
  0 < scaled_divisor a1 inR f1 <= scaled_divisor a2 inR f2 ->
  (exists m1 e1 m2 e2,
      returns (CalcMinAmountOutBySwap s a1 inR outR f1) m1 e1
      /\ returns (CalcMinAmountOutBySwap s a2 inR outR f2) m2 e2
      /\ m1 <= m2 /\ e1 <= e2)
  /\ (forall (isBuy : bool) (t b : Z),
         in_reserve isBuy t b = inR -> out_reserve isBuy t b = outR ->
         exists m1 e1 m2 e2,
           returns (CalculateMinAmountOut s a1 isBuy t b f1) m1 e1
           /\ returns (CalculateMinAmountOut s a2 isBuy t b f2) m2 e2
           /\ m1 <= m2 /\ e1 <= e2).
Proof.
  intros Hi Ho Hs Hd.
  pose proof (out_mantissa_mono a1 f1 a2 f2 inR outR (proj1 Hi) (proj1 Ho) Hd)
    as Hmono.
  pose proof (out_mantissa_le a2 inR outR f2 (proj1 Hi) (proj1 Ho) ltac:(lia))
    as Hle.
  set (om1 := out_mantissa a1 inR outR f1) in *.
  set (om2 := out_mantissa a2 inR outR f2) in *.
  assert (Hb : om2 < 2 ^ 64 * 10 ^ 16) by (unfold is_uint64 in Ho; lia).
  split.
  - destruct (swap_returns s a1 inR outR f1 ltac:(lia)) as (m1 & e1 & Hr1 & -> & ->).
    destruct (swap_returns s a2 inR outR f2 ltac:(lia)) as (m2 & e2 & Hr2 & -> & ->).
    do 4 eexists. split; [exact Hr1|]. split; [exact Hr2|].
    fold om1 om2. apply result_mono; [lia | assumption | | | assumption].
    + intros H1 Hm. apply Z.mul_le_mono_nonneg_r; [nia | assumption].
    + intros H2.
      assert (om2 * ((10000 - s) * 10 ^ 12) <= om2 * (10000 * 10 ^ 12))
        by (apply Z.mul_le_mono_nonneg_l; lia).
      lia.
  - intros isBuy t b Hin Hout.
    destruct (utils_returns s a1 isBuy t b f1 _ _ Hin Hout ltac:(lia))
      as (m1 & e1 & Hr1 & -> & ->).
    destruct (utils_returns s a2 isBuy t b f2 _ _ Hin Hout ltac:(lia))
      as (m2 & e2 & Hr2 & -> & ->).
    do 4 eexists. split; [exact Hr1|]. split; [exact Hr2|].
    fold om1 om2. apply result_mono; [lia | assumption | | | assumption].
    + intros H1 Hm. apply round_quot_mono; [|lia].
      destruct (Z.le_gt_cases (10000 - s) 0) as [Hc|Hc].
      * pose proof (round_quot_nonpos (om1 * (10000 - s)) 10000
                      ltac:(nia) ltac:(lia)). lia.
      * apply Z.mul_le_mono_nonneg_r; lia.
    + intros H2.
      pose proof (round_quot_le_numerator_part om2 (10000 - s) H2 ltac:(lia)).
      lia.
Qed.

(** X2.  A higher fee rate never gives more: for a fixed trade, both
    amounts returned are non-increasing in the fee rate, as long as
    [inputReserve + amountInNet] stays positive. *)
Theorem fee_monotonicity
    (slippage amountIn inputReserve outputReserve fee1 fee2 : Z) :
  0 <= amountIn -> is_uint64 inputReserve -> is_uint64 outputReserve ->
  0 <= slippage -> fee1 <= fee2 ->
  (0 < newInputReserve
         (swap_quote slippage amountIn inputReserve outputReserve fee2))%Q ->
  (exists m1 e1 m2 e2,
      returns (CalcMinAmountOutBySwap slippage amountIn inputReserve
                 outputReserve fee1) m1 e1
      /\ returns (CalcMinAmountOutBySwap slippage amountIn inputReserve
                    outputReserve fee2) m2 e2
      /\ m2 <= m1 /\ e2 <= e1)
  /\ (forall (isBuy : bool) (tokenAmount baseAmount : Z),
         in_reserve isBuy tokenAmount baseAmount = inputReserve ->
         out_reserve isBuy tokenAmount baseAmount = outputReserve ->
         exists m1 e1 m2 e2,
           returns (CalculateMinAmountOut slippage amountIn isBuy tokenAmount
                      baseAmount fee1) m1 e1
           /\ returns (CalculateMinAmountOut slippage amountIn isBuy tokenAmount
                         baseAmount fee2) m2 e2
           /\ m2 <= m1 /\ e2 <= e1).
Proof.
  intros Ha Hi Ho Hs Hf Hq.
  assert (Hpos : 0 < scaled_divisor amountIn inputReserve fee2)
    by (apply newInputReserve_pos in Hq; assumption).
  assert (Hd : 0 < scaled_divisor amountIn inputReserve fee2
               <= scaled_divisor amountIn inputReserve fee1).
  { split; [assumption|]. unfold scaled_divisor.
    assert (amountIn * (1000000 - fee2) <= amountIn * (1000000 - fee1))
      by (apply Z.mul_le_mono_nonneg_l; lia).
    lia. }
  destruct (quote_mono_in_divisor slippage amountIn fee2 amountIn fee1
              inputReserve outputReserve Hi Ho Hs Hd) as [Hswap Hutils].
  split.
  - destruct Hswap as (m2 & e2 & m1 & e1 & H2 & H1 & Hm & He).
    exists m1, e1, m2, e2. repeat split; assumption.
  - intros isBuy t b Hin Hout.
    destruct (Hutils isBuy t b Hin Hout) as (m2 & e2 & m1 & e1 & H2 & H1 & Hm & He).
    exists m1, e1, m2, e2. repeat split; assumption.
Qed.

Lemma fee_monotonicity_witness :
  exists m1 e1 m2 e2,
    returns (CalcMinAmountOutBySwap 100 100000 1000000 5000000 2500) m1 e1
    /\ returns (CalcMinAmountOutBySwap 100 100000 1000000 5000000 30000) m2 e2
    /\ m2 <= m1 /\ e2 <= e1.
Proof.
  refine (proj1 (fee_monotonicity 100 100000 1000000 5000000 2500 30000
                   _ _ _ _ _ _));
    try (unfold is_uint64; lia).
  vm_compute. reflexivity.
Defined.

(** X3.  Paying more in never gives less: for a fee rate of at most
    1,000,000, both amounts returned are non-decreasing in [amountIn]. *)
Theorem amount_in_monotonicity
    (slippage amountIn1 amountIn2 inputReserve outputReserve feeRate : Z) :
  amountIn1 <= amountIn2 -> feeRate <= 1000000 ->
  is_uint64 inputReserve -> is_uint64 outputReserve -> 0 <= slippage ->
  (0 < newInputReserve
         (swap_quote slippage amountIn1 inputReserve outputReserve feeRate))%Q ->
  (exists m1 e1 m2 e2,
      returns (CalcMinAmountOutBySwap slippage amountIn1 inputReserve
                 outputReserve feeRate) m1 e1
      /\ returns (CalcMinAmountOutBySwap slippage amountIn2 inputReserve
                    outputReserve feeRate) m2 e2
      /\ m1 <= m2 /\ e1 <= e2)
  /\ (forall (isBuy : bool) (tokenAmount baseAmount : Z),
         in_reserve isBuy tokenAmount baseAmount = inputReserve ->
         out_reserve isBuy tokenAmount baseAmount = outputReserve ->
         exists m1 e1 m2 e2,
           returns (CalculateMinAmountOut slippage amountIn1 isBuy tokenAmount
                      baseAmount feeRate) m1 e1
           /\ returns (CalculateMinAmountOut slippage amountIn2 isBuy tokenAmount
                         baseAmount feeRate) m2 e2
           /\ m1 <= m2 /\ e1 <= e2).
Proof.
  intros Ha Hf Hi Ho Hs Hq.
  assert (Hpos : 0 < scaled_divisor amountIn1 inputReserve feeRate)
    by (apply newInputReserve_pos in Hq; assumption).
  apply quote_mono_in_divisor; try assumption.
  split; [assumption|]. unfold scaled_divisor.
  assert (amountIn1 * (1000000 - feeRate) <= amountIn2 * (1000000 - feeRate))
    by (apply Z.mul_le_mono_nonneg_r; lia).
  lia.
Qed.

Lemma amount_in_monotonicity_witness :
  exists m1 e1 m2 e2,
    returns (CalcMinAmountOutBySwap 100 100000 1000000 5000000 2500) m1 e1
    /\ returns (CalcMinAmountOutBySwap 100 200000 1000000 5000000 2500) m2 e2
    /\ m1 <= m2 /\ e1 <= e2.
Proof.
  refine (proj1 (amount_in_monotonicity 100 100000 200000 1000000 5000000 2500
                   _ _ _ _ _ _));
    try (unfold is_uint64; lia).
  vm_compute. reflexivity.
Defined.




Lemma out_mantissa_zero_amount (inR outR f : Z) :
  inR <> 0 -> out_mantissa 0 inR outR f = 0.
Proof.
  intros Hi. unfold out_mantissa, scaled_divisor.
  replace (inR * outR * 10 ^ 32)
    with (outR * 10 ^ 16 * ((inR * 1000000 + 0 * (1000000 - f)) * 10 ^ 10))
    by ring.
  rewrite round_quot_exact by lia. lia.
Qed.

(** X5.  A trade of nothing against a non-empty input reserve is the zero
    result: [(0, 0)] with a [nil] error from [CalcMinAmountOutBySwap], and
    [(0, 0)] with the error from [CalculateMinAmountOut], which so refuses
    an empty trade. *)
Theorem zero_amount_in (slippage inputReserve outputReserve feeRate : Z) :
  inputReserve <> 0 ->
  CalcMinAmountOutBySwap slippage 0 inputReserve outputReserve feeRate
  = Ret (0, 0, None)
  /\ (forall (isBuy : bool) (tokenAmount baseAmount : Z),
         in_reserve isBuy tokenAmount baseAmount = inputReserve ->
         out_reserve isBuy tokenAmount baseAmount = outputReserve ->
         CalculateMinAmountOut slippage 0 isBuy tokenAmount baseAmount feeRate
         = Ret (0, 0, zero_or_negative)).
Proof.
  intros Hi.
  assert (Hd : scaled_divisor 0 inputReserve feeRate <> 0)
    by (unfold scaled_divisor; lia).
  split.
  - rewrite CalcMinAmountOutBySwap_value by assumption.
    rewrite out_mantissa_zero_amount by assumption. reflexivity.
  - intros isBuy t b Hin Hout.
    rewrite CalculateMinAmountOut_value by (rewrite Hin; assumption).
    rewrite Hin, Hout, out_mantissa_zero_amount by assumption. reflexivity.
Qed.

Lemma zero_amount_in_witness :
  CalcMinAmountOutBySwap 100 0 1000000 5000000 2500 = Ret (0, 0, None).
Proof.
  refine (proj1 (zero_amount_in 100 1000000 5000000 2500 _)). discriminate.
Defined.

(** X6.  A slippage of 10,000 basis points or more gives the zero result
    whatever the trade: no negative minimum is ever converted to a
    [uint64]. *)
Theorem full_slippage_gives_zero
    (slippage amountIn inputReserve outputReserve feeRate : Z) :
  10000 <= slippage ->
  ~ (newInputReserve
       (swap_quote slippage amountIn inputReserve outputReserve feeRate) == 0)%Q ->
  CalcMinAmountOutBySwap slippage amountIn inputReserve outputReserve feeRate
  = Ret (0, 0, None)
  /\ (forall (isBuy : bool) (tokenAmount baseAmount : Z),
         in_reserve isBuy tokenAmount baseAmount = inputReserve ->
         out_reserve isBuy tokenAmount baseAmount = outputReserve ->
         CalculateMinAmountOut slippage amountIn isBuy tokenAmount baseAmount
           feeRate
         = Ret (0, 0, zero_or_negative)).
Proof.
  intros Hs Hq.
  assert (Hd : scaled_divisor amountIn inputReserve feeRate <> 0).
  { intros Hz. apply Hq. apply newInputReserve_zero. assumption. }
  set (om := out_mantissa amountIn inputReserve outputReserve feeRate).
  assert (Hz : forall mv n err,
             (0 < om -> mv <= 0) ->
             result_of_mantissas mv n om err = (0, 0, err)).
  { intros mv n err Hmv. unfold result_of_mantissas.
    destruct (0 <? om) eqn:Eo; [|rewrite andb_false_r; reflexivity].
    apply Z.ltb_lt in Eo. specialize (Hmv Eo).
    replace (0 <? mv) with false by (symmetry; apply Z.ltb_ge; assumption).
    reflexivity. }
  split.
  - rewrite CalcMinAmountOutBySwap_value by assumption. fold om.
    rewrite Hz; [reflexivity|]. intros Hom. nia.
  - intros isBuy t b Hin Hout.
    rewrite CalculateMinAmountOut_value by (rewrite Hin; assumption).
    rewrite Hin, Hout. fold om. rewrite Hz; [reflexivity|].
    intros Hom. apply round_quot_nonpos; nia.
Qed.

Lemma full_slippage_gives_zero_witness :
  CalcMinAmountOutBySwap 12000 100000 1000000 5000000 2500 = Ret (0, 0, None).
Proof.
  refine (proj1 (full_slippage_gives_zero 12000 100000 1000000 5000000 2500
                   _ _)).
  - lia.
  - intros H. vm_compute in H. discriminate H.
Defined.

(** ** The encoders *)

(** X7.  The two [encodeU64] functions write the same 8 bytes, the loop of
    the utils package never leaving its buffer, and reading the bytes back
    as a little-endian integer gives the value modulo [2 ^ 64]: the very
    value for a [uint64]. *)
Theorem encoders_agree (val : Z) :
  utils.encodeU64 val = Ret (encodeU64 val)
  /\ len (encodeU64 val) = 8
  /\ LittleEndian_Uint64 (encodeU64 val) = Ret (val mod 2 ^ 64).
Proof.
  split; [|split; [reflexivity | apply Uint64_encodeU64_mod]].
  unfold utils.encodeU64.
  cbn -[byte.of_Z Z.shiftr].
  rewrite Z.shiftr_0_r. reflexivity.
Qed.

Lemma byte_unsigned_land (b : byte) :
  byte.unsigned b = Z.land (byte.unsigned b) (Z.ones 8).
Proof.
  rewrite Z.land_ones by lia.
  rewrite <- (byte.wrap_unsigned b) at 1. reflexivity.
Qed.


(** The little-endian value of 8 numbers cut to bytes. *)
Lemma le64_bits (u0 u1 u2 u3 u4 u5 u6 u7 : Z) :
  let m := Z.ones 8 in
  let v := Z.lor (Z.land u0 m)
          (Z.lor (Z.shiftl (Z.land u1 m) 8)
          (Z.lor (Z.shiftl (Z.land u2 m) 16)
          (Z.lor (Z.shiftl (Z.land u3 m) 24)
          (Z.lor (Z.shiftl (Z.land u4 m) 32)
          (Z.lor (Z.shiftl (Z.land u5 m) 40)
          (Z.lor (Z.shiftl (Z.land u6 m) 48)
                 (Z.shiftl (Z.land u7 m) 56))))))) in
  Z.land v (Z.ones 64) = v
  /\ Z.land v m = Z.land u0 m
  /\ Z.land (Z.shiftr v 8) m = Z.land u1 m
  /\ Z.land (Z.shiftr v 16) m = Z.land u2 m
  /\ Z.land (Z.shiftr v 24) m = Z.land u3 m
  /\ Z.land (Z.shiftr v 32) m = Z.land u4 m
  /\ Z.land (Z.shiftr v 40) m = Z.land u5 m
  /\ Z.land (Z.shiftr v 48) m = Z.land u6 m
  /\ Z.land (Z.shiftr v 56) m = Z.land u7 m.
Proof.
  cbv zeta. repeat split; prove_Zeq_bitwise.
Qed.

Lemma Uint64_bytes (b0 b1 b2 b3 b4 b5 b6 b7 : byte) (rest : list byte) :
  exists v,
    LittleEndian_Uint64 (b0 :: b1 :: b2 :: b3 :: b4 :: b5 :: b6 :: b7 :: rest)
    = Ret v
    /\ is_uint64 v /\ encodeU64 v = [b0; b1; b2; b3; b4; b5; b6; b7].
Proof.
  eexists. split; [reflexivity|].
  rewrite (byte_unsigned_land b0), (byte_unsigned_land b1),
    (byte_unsigned_land b2), (byte_unsigned_land b3), (byte_unsigned_land b4),
    (byte_unsigned_land b5), (byte_unsigned_land b6), (byte_unsigned_land b7).
  destruct (le64_bits (byte.unsigned b0) (byte.unsigned b1) (byte.unsigned b2)
              (byte.unsigned b3) (byte.unsigned b4) (byte.unsigned b5)
              (byte.unsigned b6) (byte.unsigned b7))
    as (H & H0 & H1 & H2 & H3 & H4 & H5 & H6 & H7).
  cbv zeta in *.
  set (v := Z.lor _ _) in *.
  split.
  - rewrite <- H. rewrite Z.land_ones by lia.
    apply Z.mod_pos_bound. reflexivity.
  - unfold encodeU64.
    repeat f_equal; apply byte.unsigned_inj; rewrite byte.unsigned_of_Z;
      unfold byte.wrap; rewrite <- Z.land_ones by lia;
      (etransitivity; [eassumption | symmetry; apply byte_unsigned_land]).
Qed.

Lemma decode_bytes (b : list byte) :
  8 <= len b ->
  exists v,
    LittleEndian_Uint64 b = Ret v /\ is_uint64 v /\ encodeU64 v = firstn 8 b.
Proof.
  unfold len. intros Hlen.
  do 8 (destruct b as [|? b]; [cbn [List.length] in Hlen; lia|]).
  apply Uint64_bytes.
Qed.

(** X8.  Every 8 bytes, whatever follows them, decode to a [uint64] whose
    encoding is these 8 bytes; fewer than 8 bytes make the decoder panic. *)
Theorem decode_then_encode (b : list byte) :
  (8 <= len b ->
   exists v,
     LittleEndian_Uint64 b = Ret v /\ is_uint64 v /\ encodeU64 v = firstn 8 b)
  /\ (len b < 8 -> LittleEndian_Uint64 b = Panic "index out of range").
Proof.
  split; [apply decode_bytes|].
  unfold len. intros Hlen.
  do 8 (destruct b as [|? b]; [reflexivity|]).
  cbn [List.length] in Hlen. lia.
Qed.

(** ** The instruction decoder *)

(** A window of 8 bytes inside a slice is the encoding of the [uint64] it
    decodes to. *)
Lemma slice_Uint64 (s : list byte) (lo : Z) :
  0 <= lo -> lo + 8 <= len s ->
  exists v,
    slice s lo (lo + 8) = Ret (encodeU64 v)
    /\ is_uint64 v
    /\ firstn 8 (skipn (Z.to_nat lo) s) = encodeU64 v.
Proof.
  intros Hlo Hhi. unfold slice.
  replace ((0 <=? lo) && (lo <=? lo + 8) && (lo + 8 <=? len s)) with true
    by (symmetry; rewrite !andb_true_iff, !Z.leb_le; lia).
  replace (lo + 8 - lo) with 8 by lia. change (Z.to_nat 8) with 8%nat.
  destruct (decode_bytes (skipn (Z.to_nat lo) s)) as (v & _ & Hv & He).
  { unfold len in *. rewrite length_skipn. lia. }
  exists v. rewrite He. repeat split; apply Hv.
Qed.

Lemma firstn_24 (s : list byte) :
  firstn 24 s = firstn 8 s ++ firstn 8 (skipn 8 s) ++ firstn 8 (skipn 16 s).
Proof.
  rewrite <- (firstn_skipn 8 (firstn 24 s)).
  rewrite firstn_firstn. change (Nat.min 8 24) with 8%nat. f_equal.
  change 24%nat with (8 + 16)%nat. rewrite <- firstn_skipn_comm.
  rewrite <- (firstn_skipn 8 (firstn 16 (skipn 8 s))).
  rewrite firstn_firstn. change (Nat.min 8 16) with 8%nat. f_equal.
  change 16%nat with (8 + 8)%nat at 1. rewrite <- firstn_skipn_comm.
  rewrite skipn_skipn. reflexivity.
Qed.

(** The inspection of a swap payload of 24 bytes or more. *)
Lemma long_swap_decodes (st : Detection) (payload : list byte) :
  24 <= len payload ->
  (firstn 8 payload = BuyDiscriminator ->
   exists X Y,
     is_uint64 X /\ is_uint64 Y
     /\ firstn 24 payload = BuyDiscriminator ++ encodeU64 X ++ encodeU64 Y
     /\ inspectInstructionData st payload
        = Ret {| detection :=
                   {| isSwapInstruction := true; isBuy := true;
                      isSell := isSell st;
                      summary := set_amounts
                                   (set_direction (summary st) "Buy (SOL → Token)")
                                   Y X |};
                 currentDiscriminator := BuyDiscriminator;
                 printed := [InstructionDiscriminator BuyDiscriminator;
                             BuyParameters X Y] |})
  /\ (firstn 8 payload = SellDiscriminator ->
      exists X Y,
        is_uint64 X /\ is_uint64 Y
        /\ firstn 24 payload = SellDiscriminator ++ encodeU64 X ++ encodeU64 Y
        /\ inspectInstructionData st payload
           = Ret {| detection :=
                      {| isSwapInstruction := true; isBuy := isBuy st;
                         isSell := true;
                         summary := set_amounts
                                      (set_direction (summary st)
                                         "Sell (Token → SOL)")
                                      X Y |};
                    currentDiscriminator := SellDiscriminator;
                    printed := [InstructionDiscriminator SellDiscriminator;
                                SellParameters X Y] |}).
Proof.
  intros Hlen.
  destruct (slice_Uint64 payload 8 ltac:(lia) ltac:(lia)) as (X & HsX & HX & HfX).
  destruct (slice_Uint64 payload 16 ltac:(lia) ltac:(lia)) as (Y & HsY & HY & HfY).
  change (8 + 8) with 16 in HsX. change (16 + 8) with 24 in HsY.
  change (Z.to_nat 8) with 8%nat in HfX. change (Z.to_nat 16) with 16%nat in HfY.
  split; intros Hd; exists X, Y;
    (split; [assumption|]); (split; [assumption|]);
    (split; [rewrite firstn_24, Hd, HfX, HfY; reflexivity|]);
    unfold inspectInstructionData;
    length_test true;
    rewrite slice_prefix by lia; cbn [bind]; change (Z.to_nat 8) with 8%nat;
    rewrite Hd.
  - rewrite bytes_Equal_refl.
    length_test true.
    rewrite HsX, HsY. cbn [bind]. rewrite !Uint64_encodeU64 by assumption.
    reflexivity.
  - change (bytes_Equal SellDiscriminator BuyDiscriminator) with false.
    rewrite bytes_Equal_refl.
    length_test true.
    rewrite HsX, HsY. cbn [bind]. rewrite !Uint64_encodeU64 by assumption.
    reflexivity.
Qed.


(** The inspection of a swap payload of 8 to 23 bytes. *)
Lemma short_swap_inspected (st : Detection) (payload : list byte) :
  8 <= len payload < 24 ->
  (firstn 8 payload = BuyDiscriminator ->
   inspectInstructionData st payload
   = Ret {| detection :=
              {| isSwapInstruction := true; isBuy := true; isSell := isSell st;
                 summary := set_direction (summary st) "Buy (SOL → Token)" |};
            currentDiscriminator := BuyDiscriminator;
            printed := [InstructionDiscriminator BuyDiscriminator] |})
  /\ (firstn 8 payload = SellDiscriminator ->
      inspectInstructionData st payload
      = Ret {| detection :=
                 {| isSwapInstruction := true; isBuy := isBuy st; isSell := true;
                    summary := set_direction (summary st) "Sell (Token → SOL)" |};
               currentDiscriminator := SellDiscriminator;
               printed := [InstructionDiscriminator SellDiscriminator] |}).
Proof.
  intros Hlen.
  split; intros Hd; unfold inspectInstructionData;
    length_test true;
    rewrite slice_prefix by lia; cbn [bind]; change (Z.to_nat 8) with 8%nat;
    rewrite Hd.
  - rewrite bytes_Equal_refl.
    length_test false.
    reflexivity.
  - change (bytes_Equal SellDiscriminator BuyDiscriminator) with false.
    rewrite bytes_Equal_refl.
    length_test false.
    reflexivity.
Qed.

(** X9.  A payload of 24 bytes or more that starts with the Buy or the Sell
    discriminator is always decoded: the two amounts reported are [uint64]
    values whose encodings are bytes 8 to 24 of the payload, so the first 24
    bytes are those of the payload built from the two amounts, and what
    follows byte 24 has no influence. *)
Theorem long_swap_payload_decodes (st : Detection) (payload : list byte) :
  24 <= len payload ->
  (firstn 8 payload = BuyDiscriminator ->
   exists X Y,
     is_uint64 X /\ is_uint64 Y
     /\ firstn 24 payload = BuyDiscriminator ++ encodeU64 X ++ encodeU64 Y
     /\ inspectInstructionData st payload
        = Ret {| detection :=
                   {| isSwapInstruction := true; isBuy := true;
                      isSell := isSell st;
                      summary := set_amounts
                                   (set_direction (summary st) "Buy (SOL → Token)")
                                   Y X |};
                 currentDiscriminator := BuyDiscriminator;
                 printed := [InstructionDiscriminator BuyDiscriminator;
                             BuyParameters X Y] |})
  /\ (firstn 8 payload = SellDiscriminator ->
      exists X Y,
        is_uint64 X /\ is_uint64 Y
        /\ firstn 24 payload = SellDiscriminator ++ encodeU64 X ++ encodeU64 Y
        /\ inspectInstructionData st payload
           = Ret {| detection :=
                      {| isSwapInstruction := true; isBuy := isBuy st;
                         isSell := true;
                         summary := set_amounts
                                      (set_direction (summary st)
                                         "Sell (Token → SOL)")
                                      X Y |};
                    currentDiscriminator := SellDiscriminator;
                    printed := [InstructionDiscriminator SellDiscriminator;
                                SellParameters X Y] |}).
Proof. apply long_swap_decodes. Qed.

Lemma long_swap_payload_decodes_witness :
  exists X Y,
    is_uint64 X /\ is_uint64 Y
    /\ firstn 24 (SellDiscriminator ++ encodeU64 500 ++ encodeU64 7
                    ++ unsigned_bytes [1; 2; 3])
       = SellDiscriminator ++ encodeU64 X ++ encodeU64 Y
    /\ inspectInstructionData initial_detection
         (SellDiscriminator ++ encodeU64 500 ++ encodeU64 7
            ++ unsigned_bytes [1; 2; 3])
       = Ret {| detection :=
                  {| isSwapInstruction := true;
                     isBuy := isBuy initial_detection;
                     isSell := true;
                     summary := set_amounts
                                  (set_direction (summary initial_detection)
                                     "Sell (Token → SOL)")
                                  X Y |};
                currentDiscriminator := SellDiscriminator;
                printed := [InstructionDiscriminator SellDiscriminator;
                            SellParameters X Y] |}.
Proof.
  refine (proj2 (long_swap_payload_decodes initial_detection
                   (SellDiscriminator ++ encodeU64 500 ++ encodeU64 7
                      ++ unsigned_bytes [1; 2; 3]) _) _).
  - vm_compute. discriminate.
  - reflexivity.
Defined.

(** What one inspection does to the detection variables and to the
    direction of the summary. *)
Lemma inspect_detection (st : Detection) (payload : list byte) :
  exists r,
    inspectInstructionData st payload = Ret r
    /\ isBuy (detection r) = isBuy st || is_buy payload
    /\ isSell (detection r) = isSell st || is_sell payload
    /\ isSwapInstruction (detection r)
       = isSwapInstruction st || is_buy payload || is_sell payload
    /\ Direction (summary (detection r))
       = if is_buy payload then "Buy (SOL → Token)"%string
         else if is_sell payload then "Sell (Token → SOL)"%string
         else Direction (summary st).
Proof.
  unfold is_buy, is_sell, starts_with.
  destruct (Z.le_gt_cases 8 (len payload)) as [H8|H8].
  - replace (8 <=? len payload) with true by (symmetry; apply Z.leb_le; lia).
    cbn [andb].
    destruct (bytes_Equal (firstn 8 payload) BuyDiscriminator) eqn:EB.
    { apply bytes_Equal_true in EB. rewrite EB.
      change (bytes_Equal BuyDiscriminator SellDiscriminator) with false.
      rewrite !orb_true_r, !orb_false_r.
      destruct (Z.le_gt_cases 24 (len payload)) as [H24|H24].
      - destruct (long_swap_decodes st payload H24) as [HB _].
        destruct (HB EB) as (X & Y & _ & _ & _ & ->).
        eexists. split; [reflexivity|]. repeat split.
      - destruct (short_swap_inspected st payload (conj H8 H24)) as [HB _].
        rewrite (HB EB). eexists. split; [reflexivity|]. repeat split. }
    destruct (bytes_Equal (firstn 8 payload) SellDiscriminator) eqn:ES.
    { apply bytes_Equal_true in ES.
      rewrite !orb_true_r, !orb_false_r.
      destruct (Z.le_gt_cases 24 (len payload)) as [H24|H24].
      - destruct (long_swap_decodes st payload H24) as [_ HS].
        destruct (HS ES) as (X & Y & _ & _ & _ & ->).
        eexists. split; [reflexivity|]. repeat split.
      - destruct (short_swap_inspected st payload (conj H8 H24)) as [_ HS].
        rewrite (HS ES). eexists. split; [reflexivity|]. repeat split. }
    rewrite !orb_false_r.
    unfold inspectInstructionData.
    length_test true.
    rewrite slice_prefix by lia. cbn [bind]. change (Z.to_nat 8) with 8%nat.
    rewrite EB, ES.
    destruct (bytes_Equal (firstn 8 payload) CreatePoolDiscriminator).
    + eexists. split; [reflexivity|]. repeat split.
    + rewrite slice_maxPrint. cbn [bind].
      eexists. split; [reflexivity|]. repeat split.
  - replace (8 <=? len payload) with false by (symmetry; apply Z.leb_gt; lia).
    cbn [andb]. rewrite !orb_false_r.
    unfold inspectInstructionData.
    length_test false.
    eexists. split; [reflexivity|]. repeat split.
Qed.

(** The flags after the loop. *)
Lemma detection_flags (insts : list (list byte)) (st : Detection) :
  exists st' out,
    inspectInstructions st insts = Ret (st', out)
    /\ isBuy st' = isBuy st || existsb is_buy insts
    /\ isSell st' = isSell st || existsb is_sell insts
    /\ isSwapInstruction st'
       = isSwapInstruction st || existsb is_buy insts || existsb is_sell insts.
Proof.
  revert st. induction insts as [|p rest IH]; intros st.
  - exists st, []. cbn [inspectInstructions existsb].
    rewrite !orb_false_r. repeat split.
  - destruct (inspect_detection st p) as (r & Hr & HB & HS & HW & _).
    destruct (IH (detection r)) as (st' & out & Hl & HB' & HS' & HW').
    exists st', (printed r ++ out).
    cbn [inspectInstructions existsb]. rewrite Hr. cbn [bind].
    rewrite Hl. cbn [bind fst snd].
    split; [reflexivity|].
    rewrite HB', HS', HW', HB, HS, HW.
    repeat split;
      destruct (isSwapInstruction st), (isBuy st), (isSell st), (is_buy p),
        (is_sell p), (existsb is_buy rest), (existsb is_sell rest);
      reflexivity.
Qed.

(** X10.  The loop over the instructions never panics, and the three flags
    only accumulate: after the loop [isBuy] holds when it held before or
    some payload starts with the Buy discriminator, [isSell] likewise, and
    [isSwapInstruction] when it held before or one of the two was met.  No
    instruction resets a flag, whatever the order. *)
Theorem detection_flags_accumulate (insts : list (list byte)) (st : Detection) :
  exists st' out,
    inspectInstructions st insts = Ret (st', out)
    /\ isBuy st' = isBuy st || existsb is_buy insts
    /\ isSell st' = isSell st || existsb is_sell insts
    /\ isSwapInstruction st'
       = isSwapInstruction st || existsb is_buy insts || existsb is_sell insts.
Proof. apply detection_flags. Qed.

(** The loop over two lists of instructions in a row. *)
Lemma inspectInstructions_app (a b : list (list byte)) (st : Detection) :
  inspectInstructions st (a ++ b)
  = (ra <- inspectInstructions st a ;;
     rb <- inspectInstructions (fst ra) b ;;
     Ret (fst rb, snd ra ++ snd rb)).
Proof.
  revert st. induction a as [|p a IH]; intros st.
  - cbn [app inspectInstructions bind fst snd].
    destruct (inspectInstructions st b) as [[st' out]|msg]; reflexivity.
  - cbn [app inspectInstructions].
    destruct (inspectInstructionData st p) as [r|msg]; [|reflexivity].
    cbn [bind]. rewrite IH.
    destruct (inspectInstructions (detection r) a) as [[sa oa]|msg];
      [|reflexivity].
    cbn [bind fst snd].
    destruct (inspectInstructions sa b) as [[sb ob]|msg]; [|reflexivity].
    cbn [bind fst snd]. rewrite app_assoc. reflexivity.
Qed.

(** Instructions that are no swap leave the direction of the summary. *)
Lemma direction_kept (insts : list (list byte)) (st : Detection) :
  existsb is_buy insts = false -> existsb is_sell insts = false ->
  exists st' out,
    inspectInstructions st insts = Ret (st', out)
    /\ Direction (summary st') = Direction (summary st).
Proof.
  revert st. induction insts as [|p rest IH]; intros st HB HS.
  - exists st, []. split; reflexivity.
  - cbn [existsb] in HB, HS. apply orb_false_iff in HB, HS.
    destruct HB as [HB HB'], HS as [HS HS'].
    destruct (inspect_detection st p) as (r & Hr & _ & _ & _ & HD).
    rewrite HB, HS in HD.
    destruct (IH (detection r) HB' HS') as (st' & out & Hl & HD').
    exists st', (printed r ++ out).
    cbn [inspectInstructions]. rewrite Hr. cbn [bind].
    rewrite Hl. cbn [bind fst snd].
    split; [reflexivity | congruence].
Qed.

(** X11.  When a transaction holds a buy and, after it, a sell that is its
    last swap instruction, the report after the loop says
    "Direction: Buy" while the direction of the summary is that of the
    sell: the report tests [isBuy] first, the summary keeps the last
    direction written. *)
Theorem report_and_summary_disagree
    (st : Detection) (pre : list (list byte)) (p : list byte)
    (post : list (list byte)) :
  existsb is_buy pre = true -> is_sell p = true ->
  existsb is_buy post = false -> existsb is_sell post = false ->
  exists st' out,
    inspectInstructions st (pre ++ p :: post) = Ret (st', out)
    /\ Direction (summary st') = "Sell (Token → SOL)"%string
    /\ detectionReport true st'
       = ["Summary: This is a PumpSwap transaction"%string;
          "Operation: Swap"%string;
          "Direction: Buy (SOL → Token)"%string].
Proof.
  intros Hpre Hp HpostB HpostS.
  destruct (detection_flags (pre ++ p :: post) st)
    as (st' & out & Hl & HB & _ & HW).
  exists st', out. split; [assumption|].
  rewrite existsb_app, Hpre in HB, HW.
  rewrite !orb_true_r in HB. rewrite !orb_true_r in HW. cbn [orb] in HW.
  split.
  - rewrite inspectInstructions_app in Hl.
    destruct (inspectInstructions st pre) as [[s1 o1]|msg]; [|discriminate Hl].
    cbn [bind fst snd inspectInstructions] in Hl.
    destruct (inspect_detection s1 p) as (r & Hr & _ & _ & _ & HD).
    rewrite Hr in Hl. cbn [bind] in Hl.
    destruct (direction_kept post (detection r) HpostB HpostS)
      as (s2 & o2 & Hl2 & HD2).
    rewrite Hl2 in Hl. cbn [bind fst snd] in Hl.
    injection Hl as <- _.
    rewrite HD2, HD, Hp.
    destruct (is_buy p) eqn:EB; [|reflexivity].
    exfalso. unfold is_buy, is_sell, starts_with in EB, Hp.
    apply andb_true_iff in EB, Hp.
    destruct EB as [_ EB], Hp as [_ Hp].
    apply bytes_Equal_true in EB, Hp. rewrite EB in Hp. discriminate Hp.
  - unfold detectionReport. rewrite HW, HB. reflexivity.
Qed.

Lemma report_and_summary_disagree_witness :
  exists st' out,
    inspectInstructions initial_detection
      ([BuyDiscriminator] ++ SellDiscriminator :: [])
    = Ret (st', out)
    /\ Direction (summary st') = "Sell (Token → SOL)"%string
    /\ detectionReport true st'
       = ["Summary: This is a PumpSwap transaction"%string;
          "Operation: Swap"%string;
          "Direction: Buy (SOL → Token)"%string].
Proof.
  refine (report_and_summary_disagree initial_detection [BuyDiscriminator]
            SellDiscriminator [] _ _ _ _); reflexivity.
Defined.



(** ** The token metadata decoder *)

Lemma slice_returns (s : list byte) (lo hi : Z) :
  0 <= lo <= hi -> hi <= len s ->
  slice s lo hi = Ret (firstn (Z.to_nat (hi - lo)) (skipn (Z.to_nat lo) s)).
Proof.
  intros H1 H2. unfold slice.
  replace ((0 <=? lo) && (lo <=? hi) && (hi <=? len s)) with true
    by (symmetry; rewrite !andb_true_iff, !Z.leb_le; lia).
  reflexivity.
Qed.

Lemma len_window (s : list byte) (lo n : Z) :
  0 <= lo -> 0 <= n -> lo + n <= len s ->
  len (firstn (Z.to_nat n) (skipn (Z.to_nat lo) s)) = n.
Proof.
  unfold len. intros H1 H2 H3. rewrite length_firstn, length_skipn. lia.
Qed.

Lemma le32_bits (u0 u1 u2 u3 : Z) :
  let m := Z.ones 8 in
  let v := Z.lor (Z.land u0 m)
          (Z.lor (Z.shiftl (Z.land u1 m) 8)
          (Z.lor (Z.shiftl (Z.land u2 m) 16)
                 (Z.shiftl (Z.land u3 m) 24))) in
  Z.land v (Z.ones 32) = v.
Proof.
  cbv zeta. prove_Zeq_bitwise.
Qed.

Lemma Uint32_returns (b : list byte) :
  4 <= len b -> exists v, LittleEndian_Uint32 b = Ret v /\ 0 <= v < 2 ^ 32.
Proof.
  unfold len. intros H.
  do 4 (destruct b as [|? b]; [cbn [List.length] in H; lia|]).
  eexists. split; [reflexivity|].
  rewrite (byte_unsigned_land b0), (byte_unsigned_land b1),
    (byte_unsigned_land b2), (byte_unsigned_land b3).
  rewrite <- le32_bits. rewrite Z.land_ones by lia.
  apply Z.mod_pos_bound. reflexivity.
Qed.

Lemma index_0 (s : list byte) :
  1 <= len s -> exists k, index s 0 = Ret k /\ hd_error s = Some k.
Proof.
  unfold index, len. destruct s as [|k s]; cbn [List.length]; intros H; [lia|].
  replace ((0 <=? 0) && (0 <? Z.of_nat (S (List.length s)))) with true
    by (symmetry; rewrite andb_true_iff, Z.leb_le, Z.ltb_lt; lia).
  exists k. split; reflexivity.
Qed.

(** Steps of the proofs about [decodeTokenMetadata]: a slice within the
    data, a length prefix, a test of the length of the data. *)
Ltac slice_step :=
  match goal with
  | |- context [slice ?s ?lo ?hi] =>
      rewrite (slice_returns s lo hi) by lia; cbn [bind]
  end.

Ltac length_prefix_step n Hn :=
  match goal with
  | |- context [LittleEndian_Uint32 ?l] =>
      destruct (Uint32_returns l) as (n & -> & Hn);
      [unfold len in *; rewrite length_firstn, length_skipn; lia | cbn [bind]]
  end.

Ltac length_guard E :=
  match goal with
  | |- context [len ?s >=? ?x] =>
      destruct (len s >=? x) eqn:E;
      [rewrite Z.geb_leb in E; apply Z.leb_le in E |]
  end.

Lemma len_app (a b : list byte) : len (a ++ b) = len a + len b.
Proof. unfold len. rewrite length_app. lia. Qed.

(** The slice that cuts the part [x] out of [pre ++ x ++ post]. *)
Lemma slice_at (s pre x post : list byte) (lo hi : Z) :
  s = pre ++ x ++ post -> len pre = lo -> len x = hi - lo ->
  slice s lo hi = Ret x.
Proof.
  intros -> Hpre Hx.
  pose proof (len_nonneg pre). pose proof (len_nonneg x).
  pose proof (len_nonneg post).
  rewrite slice_returns by (rewrite ?len_app; lia).
  f_equal. unfold len in *.
  rewrite skipn_app, skipn_all2 by lia.
  replace (Z.to_nat lo - List.length pre)%nat with 0%nat by lia.
  cbn [skipn app].
  rewrite firstn_app, firstn_all2 by lia.
  replace (Z.to_nat (hi - lo) - List.length x)%nat with 0%nat by lia.
  cbn [firstn]. apply app_nil_r.
Qed.

Section metadata_decoder.

Variable PublicKey_String : list byte -> string.

(** X13.  [decodeTokenMetadata] never panics: every slice it takes is
    within the data.  It returns the error "metadata too short" and no
    metadata for empty data, and otherwise metadata, whose key is the first
    byte, with a [nil] error, however the data are cut off or whatever
    lengths they announce. *)
Theorem decodeTokenMetadata_never_panics (data : list byte) :
  (len data < 1 ->
   metadata.decodeTokenMetadata PublicKey_String data
   = Ret (None, Some "metadata too short"%string))
  /\ (1 <= len data ->
      exists md,
        metadata.decodeTokenMetadata PublicKey_String data = Ret (Some md, None)
        /\ hd_error data = Some (metadata.Key md)).
Proof.
  split; intros Hlen; unfold metadata.decodeTokenMetadata.
  - replace (len data <? 1) with true by (symmetry; apply Z.ltb_lt; lia).
    reflexivity.
  - replace (len data <? 1) with false by (symmetry; apply Z.ltb_ge; lia).
    destruct (index_0 data Hlen) as (k & -> & Hk). cbn [bind].
    destruct (len data <? 65) eqn:E65;
      [eexists; split; [reflexivity | exact Hk]|].
    apply Z.ltb_ge in E65.
    do 2 slice_step.
    destruct (len data >? 69) eqn:E69;
      [|eexists; split; [reflexivity | exact Hk]].
    rewrite Z.gtb_ltb in E69. apply Z.ltb_lt in E69.
    slice_step. length_prefix_step n1 Hn1.
    length_guard G1; [|eexists; split; [reflexivity | exact Hk]].
    slice_step.
    length_guard G2; [|eexists; split; [reflexivity | exact Hk]].
    slice_step. length_prefix_step n2 Hn2.
    length_guard G3; [|eexists; split; [reflexivity | exact Hk]].
    slice_step.
    length_guard G4; [|eexists; split; [reflexivity | exact Hk]].
    slice_step. length_prefix_step n3 Hn3.
    length_guard G5; [|eexists; split; [reflexivity | exact Hk]].
    slice_step.
    eexists; split; [reflexivity | exact Hk].
Qed.

(** X14.  Data laid out as the key, the 32 bytes of the update authority,
    the 32 bytes of the mint and then the name, the symbol and the URI, each
    after the 4 bytes of its length, decode to these very fields, whatever
    bytes follow. *)
Theorem metadata_layout_round_trip
    (key : byte) (auth mint ln name ls symbol lu uri rest : list byte) :
  len auth = 32 -> len mint = 32 ->
  len ln = 4 -> LittleEndian_Uint32 ln = Ret (len name) ->
  len ls = 4 -> LittleEndian_Uint32 ls = Ret (len symbol) ->
  len lu = 4 -> LittleEndian_Uint32 lu = Ret (len uri) ->
  metadata.decodeTokenMetadata PublicKey_String
    ([key] ++ auth ++ mint ++ ln ++ name ++ ls ++ symbol ++ lu ++ uri ++ rest)
  = Ret (Some {| metadata.Key := key;
                 metadata.UpdateAuth := PublicKey_String auth;
                 metadata.Mint := PublicKey_String mint;
                 metadata.Data :=
                   {| metadata.Name := string_of_list_byte name;
                      metadata.Symbol := string_of_list_byte symbol;
                      metadata.Uri := string_of_list_byte uri |} |},
         None).
Proof.
  intros Hauth Hmint Hln Hname Hls Hsymbol Hlu Huri.
  pose proof (len_nonneg name). pose proof (len_nonneg symbol).
  pose proof (len_nonneg uri). pose proof (len_nonneg rest).
  set (data := [key] ++ auth ++ mint ++ ln ++ name ++ ls ++ symbol ++ lu
                 ++ uri ++ rest).
  assert (Hlen : len data
                 = 77 + len name + len symbol + len uri + len rest).
  { subst data. rewrite !len_app. change (len [key]) with 1. lia. }
  unfold metadata.decodeTokenMetadata.
  replace (len data <? 1) with false by (symmetry; apply Z.ltb_ge; lia).
  change (index data 0) with (Ret key). cbn [bind].
  replace (len data <? 65) with false by (symmetry; apply Z.ltb_ge; lia).
  pose proof (fun pre x post lo hi (E : pre ++ x ++ post = data) =>
                slice_at data pre x post lo hi (eq_sym E)) as Hcut.
  assert (Hk : len [key] = 1) by reflexivity.
  rewrite (Hcut [key] auth
             (mint ++ ln ++ name ++ ls ++ symbol ++ lu ++ uri ++ rest) 1 33)
    by (try reflexivity; lia).
  rewrite (Hcut ([key] ++ auth) mint
             (ln ++ name ++ ls ++ symbol ++ lu ++ uri ++ rest) 33 65)
    by (subst data; rewrite <- ?app_assoc, ?len_app; try reflexivity; lia).
  cbn [bind].
  replace (len data >? 69) with true
    by (symmetry; rewrite Z.gtb_ltb; apply Z.ltb_lt; lia).
  rewrite (Hcut ([key] ++ auth ++ mint) ln
             (name ++ ls ++ symbol ++ lu ++ uri ++ rest) 65 69)
    by (subst data; rewrite <- ?app_assoc, ?len_app; try reflexivity; lia).
  cbn [bind]. rewrite Hname. cbn [bind].
  length_test true.
  rewrite (Hcut ([key] ++ auth ++ mint ++ ln) name
             (ls ++ symbol ++ lu ++ uri ++ rest) 69 (69 + len name))
    by (subst data; rewrite <- ?app_assoc, ?len_app; try reflexivity; lia).
  cbn [bind].
  length_test true.
  rewrite (Hcut ([key] ++ auth ++ mint ++ ln ++ name) ls
             (symbol ++ lu ++ uri ++ rest) (69 + len name) (69 + len name + 4))
    by (subst data; rewrite <- ?app_assoc, ?len_app; try reflexivity; lia).
  cbn [bind]. rewrite Hsymbol. cbn [bind].
  length_test true.
  rewrite (Hcut ([key] ++ auth ++ mint ++ ln ++ name ++ ls) symbol
             (lu ++ uri ++ rest) (69 + len name + 4)
             (69 + len name + 4 + len symbol))
    by (subst data; rewrite <- ?app_assoc, ?len_app; try reflexivity; lia).
  cbn [bind].
  length_test true.
  rewrite (Hcut ([key] ++ auth ++ mint ++ ln ++ name ++ ls ++ symbol) lu
             (uri ++ rest) (69 + len name + 4 + len symbol)
             (69 + len name + 4 + len symbol + 4))
    by (subst data; rewrite <- ?app_assoc, ?len_app; try reflexivity; lia).
  cbn [bind]. rewrite Huri. cbn [bind].
  length_test true.
  rewrite (Hcut ([key] ++ auth ++ mint ++ ln ++ name ++ ls ++ symbol ++ lu)
             uri rest (69 + len name + 4 + len symbol + 4)
             (69 + len name + 4 + len symbol + 4 + len uri))
    by (subst data; rewrite <- ?app_assoc, ?len_app; try reflexivity; lia).
  reflexivity.
Qed.

End metadata_decoder.

Lemma metadata_layout_round_trip_witness :
  metadata.decodeTokenMetadata string_of_list_byte
    ([Byte.x04] ++ repeat Byte.x11 32 ++ repeat Byte.x22 32
       ++ unsigned_bytes [3; 0; 0; 0] ++ unsigned_bytes [80; 85; 77]
       ++ unsigned_bytes [2; 0; 0; 0] ++ unsigned_bytes [80; 70]
       ++ unsigned_bytes [0; 0; 0; 0] ++ [] ++ unsigned_bytes [0; 0; 9])
  = Ret (Some {| metadata.Key := Byte.x04;
                 metadata.UpdateAuth := string_of_list_byte (repeat Byte.x11 32);
                 metadata.Mint := string_of_list_byte (repeat Byte.x22 32);
                 metadata.Data :=
                   {| metadata.Name :=
                        string_of_list_byte (unsigned_bytes [80; 85; 77]);
                      metadata.Symbol :=
                        string_of_list_byte (unsigned_bytes [80; 70]);
                      metadata.Uri := string_of_list_byte [] |} |},
         None).
Proof.
  apply (metadata_layout_round_trip string_of_list_byte); reflexivity.
Defined.

(** ** The conversion of the amount *)


Lemma rescale_0_opp (v e : Z) :
  value (rescale (New (- v) e) 0) = - value (rescale (New v e) 0).
Proof.
  unfold rescale. cbn [exp value].
  destruct (e =? 0); [reflexivity|].
  assert (Hp : 10 ^ Z.abs (0 - e) <> 0)
    by (apply Z.pow_nonzero; lia).
  destruct (0 >? e); cbn [value].
  - apply Z.quot_opp_l. assumption.
  - lia.
Qed.













(** X16.  The sign of the amount is lost: [ExecutePumpSwap] converts an
    amount and its opposite to the same number of units, as
    [big.Int.Uint64] reads the magnitude only.  A negative amount is so
    sent as the positive one. *)
Theorem amount_sign_is_dropped (v e : Z) (isBuy : bool) :
  amountInLamports (New (- v) e) isBuy = amountInLamports (New v e) isBuy.
Proof.
  unfold amountInLamports, bigUint64, BigInt, Mul. cbn [value exp].
  rewrite !Z.mul_1_r.
  destruct isBuy; rewrite rescale_0_opp, Z.abs_opp; reflexivity.
Qed.

(** ** The reserves of the pool *)

Section reserves_facts.

Variable decodeAmount : list byte -> Z + string.

Lemma balances_loop_decoded
    (values : list (option (list byte))) (acc amounts : list Z) :
  Forall2 (fun data amount => decodeAmount data = inl amount)
    (present values) amounts ->
  balances_loop decodeAmount values acc = (acc ++ amounts, None).
Proof.
  revert acc amounts. induction values as [|[data|] rest IH];
    intros acc amounts H.
  - inversion H. cbn. rewrite app_nil_r. reflexivity.
  - change (present (Some data :: rest)) with (data :: present rest) in H.
    inversion H as [|d a ds as' Hd Hrest]; subst.
    cbn [balances_loop]. rewrite Hd.
    rewrite (IH (acc ++ [a]) as' Hrest), <- app_assoc. reflexivity.
  - cbn [balances_loop]. apply IH. assumption.
Qed.

Lemma len_present (values : list (option (list byte))) :
  len (present values) <= len values
  /\ (In None values -> len (present values) < len values).
Proof.
  unfold len. induction values as [|[data|] rest [IH1 IH2]].
  - split; [reflexivity | intros []].
  - change (present (Some data :: rest)) with (data :: present rest).
    cbn [List.length In]. split; [lia|].
    intros [H|H]; [discriminate | specialize (IH2 H); lia].
  - change (present (None :: rest)) with (present rest).
    cbn [List.length In]. split; [lia|]. intros _. lia.
Qed.

(** X17.  [GetMulTokenBalance] returns the amounts of the accounts that are
    present, in their order, when each of them decodes: an account that
    is [nil] or has no data is skipped without an error, so the result is
    shorter than the list of accounts and its positions no longer match. *)
Theorem balances_skip_absent_accounts
    (values : list (option (list byte))) (amounts : list Z) :
  Forall2 (fun data amount => decodeAmount data = inl amount)
    (present values) amounts ->
  GetMulTokenBalance decodeAmount (inl values) = (amounts, None)
  /\ len amounts <= len values
  /\ (In None values -> len amounts < len values).
Proof.
  intros H. split.
  - cbn [GetMulTokenBalance].
    apply (balances_loop_decoded values [] amounts H).
  - pose proof (len_present values) as [H1 H2].
    apply Forall2_length in H. unfold len in *. rewrite <- H.
    split; assumption.
Qed.

(** X18.  When fewer than two balances come back for the two pool
    accounts, because the call failed, an account is missing or its data
    do not decode, [ExecutePumpSwap] returns an error, while
    [executePumpSwap], which reads [amounts[0]] and [amounts[1]] without
    looking at the error or the length, panics. *)
Theorem missing_reserve_error_or_panic
    {K : Type} (poolBaseAccount poolQuoteAccount : K) (res : AccountsResult)
    (slippage amountInLamports : Z) (isBuy : bool) :
  len (fst (GetMulTokenBalance decodeAmount res)) < 2 ->
  (exists msg,
      ExecutePumpSwap_minAmountOut decodeAmount poolBaseAccount
        poolQuoteAccount res slippage amountInLamports isBuy
      = Ret (inr msg))
  /\ executePumpSwap_minAmountOut decodeAmount res isBuy
     = Panic "index out of range".
Proof.
  unfold ExecutePumpSwap_minAmountOut, executePumpSwap_minAmountOut.
  change (GetMultipleTokenBalances decodeAmount
            [poolBaseAccount; poolQuoteAccount] res)
    with (GetMulTokenBalance decodeAmount res).
  destruct (GetMulTokenBalance decodeAmount res) as [amounts err].
  cbn [fst]. intros Hlen. split.
  - destruct err as [e|]; [eexists; reflexivity|].
    replace (len amounts <? 2) with true by (symmetry; apply Z.ltb_lt; lia).
    eexists; reflexivity.
  - cbv zeta.
    destruct amounts as [|a0 [|a1 rest]]; [reflexivity | reflexivity |].
    unfold len in Hlen. cbn [List.length] in Hlen. lia.
Qed.

(** X19.  [ExecutePumpSwap] takes its slippage as a [uint64] and passes
    it on as a [uint32]: a slippage of [2 ^ 32] basis points more gives the
    same result, so that 4,294,967,396 basis points are treated as 100. *)
Theorem slippage_wraps_at_32_bits
    {K : Type} (poolBaseAccount poolQuoteAccount : K) (res : AccountsResult)
    (slippage amountInLamports : Z) (isBuy : bool) :
  ExecutePumpSwap_minAmountOut decodeAmount poolBaseAccount poolQuoteAccount
    res (slippage + 2 ^ 32) amountInLamports isBuy
  = ExecutePumpSwap_minAmountOut decodeAmount poolBaseAccount poolQuoteAccount
      res slippage amountInLamports isBuy.
Proof.
  unfold ExecutePumpSwap_minAmountOut, uint32.
  replace ((slippage + 2 ^ 32) mod 2 ^ 32) with (slippage mod 2 ^ 32);
    [reflexivity|].
  rewrite <- (Z.mul_1_l (2 ^ 32)) at 2.
  rewrite Z.mod_add by discriminate. reflexivity.
Qed.

End reserves_facts.

Lemma balances_skip_absent_accounts_witness :
  GetMulTokenBalance (fun data => inl (len data))
    (inl [None; Some [Byte.x01; Byte.x02]])
  = ([2], None)
  /\ len [2] <= len [None; Some [Byte.x01; Byte.x02]]
  /\ (In None [None; Some [Byte.x01; Byte.x02]] ->
      len [2] < len [None; Some [Byte.x01; Byte.x02]]).
Proof.
  refine (balances_skip_absent_accounts (fun data => inl (len data))
            [None; Some [Byte.x01; Byte.x02]] [2] _).
  repeat constructor.
Defined.

Lemma missing_reserve_error_or_panic_witness :
  (exists msg,
      ExecutePumpSwap_minAmountOut (fun data => inl (len data))
        "base"%string "quote"%string (inl [Some [Byte.x01]; None]) 100 1000 true
      = Ret (inr msg))
  /\ executePumpSwap_minAmountOut (fun data => inl (len data))
       (inl [Some [Byte.x01]; None]) true
     = Panic "index out of range".
Proof.
  refine (missing_reserve_error_or_panic (fun data => inl (len data))
            "base"%string "quote"%string (inl [Some [Byte.x01]; None])
            100 1000 true _).
  vm_compute. reflexivity.
Defined.

(** ** A positive output below one unit *)

(** X20.  A positive exact output below one unit passes the test for "zero
    or negative": with a slippage of at most 5,000 basis points both quote
    functions return [(0, 0)] with a [nil] error, so that
    [CalculateMinAmountOut] does not report the error it has for a zero
    result and the swap goes on with a minimum of zero. *)
Theorem sub_unit_output_passes_the_check
    (slippage amountIn inputReserve outputReserve feeRate : Z)
    (isBuy : bool) (tokenAmount baseAmount : Z) :
  in_reserve isBuy tokenAmount baseAmount = inputReserve ->
  out_reserve isBuy tokenAmount baseAmount = outputReserve ->
  0 <= slippage <= 5000 ->
  ~ (newInputReserve
       (swap_quote slippage amountIn inputReserve outputReserve feeRate) == 0)%Q ->
  (0 < exactAmountOut
         (swap_quote slippage amountIn inputReserve outputReserve feeRate))%Q ->
  (exactAmountOut
     (swap_quote slippage amountIn inputReserve outputReserve feeRate) < 1)%Q ->
  CalculateMinAmountOut slippage amountIn isBuy tokenAmount baseAmount feeRate
  = Ret (0, 0, None)
  /\ CalcMinAmountOutBySwap slippage amountIn inputReserve outputReserve feeRate
     = Ret (0, 0, None).
Proof.
  intros Hin Hout Hs Hq H0 H1.
  assert (Hd : scaled_divisor amountIn inputReserve feeRate <> 0).
  { intros Hz. apply Hq. apply newInputReserve_zero. assumption. }
  unfold swap_quote in H0, H1.
  rewrite rounded_exactAmountOut in H0, H1 by assumption.
  set (om := out_mantissa amountIn inputReserve outputReserve feeRate) in *.
  unfold Qlt in H0, H1. cbn [Qnum Qden] in H0, H1.
  change (Z.pos (10 ^ 16)) with (10 ^ 16) in H0, H1.
  assert (Hom : 0 < om < 10 ^ 16) by lia. clear H0 H1.
  split.
  - rewrite CalculateMinAmountOut_value by (rewrite Hin; assumption).
    rewrite Hin, Hout. fold om.
    set (mv := round_quot (om * (10000 - slippage)) 10000).
    assert (Hmv : 0 < mv <= om).
    { subst mv. split.
      - rewrite round_quot_nonneg by nia.
        apply Z.div_str_pos. nia.
      - apply round_quot_le_numerator_part; lia. }
    unfold result_of_mantissas.
    replace (0 <? mv) with true by (symmetry; apply Z.ltb_lt; lia).
    replace (0 <? om) with true by (symmetry; apply Z.ltb_lt; lia).
    cbn [andb].
    rewrite !Z.quot_small by lia. reflexivity.
  - rewrite CalcMinAmountOutBySwap_value by assumption. fold om.
    unfold result_of_mantissas.
    replace (0 <? om * ((10000 - slippage) * 10 ^ 12)) with true
      by (symmetry; apply Z.ltb_lt; nia).
    replace (0 <? om) with true by (symmetry; apply Z.ltb_lt; lia).
    cbn [andb].
    rewrite !Z.quot_small by nia. reflexivity.
Qed.

Lemma sub_unit_output_passes_the_check_witness :
  CalculateMinAmountOut 100 1 true 500000 1000000 2500 = Ret (0, 0, None)
  /\ CalcMinAmountOutBySwap 100 1 1000000 500000 2500 = Ret (0, 0, None).
Proof.
  refine (sub_unit_output_passes_the_check 100 1 1000000 500000 2500
            true 500000 1000000 _ _ _ _ _ _).
  - reflexivity.
  - reflexivity.
  - lia.
  - intros H. vm_compute in H. discriminate H.
  - vm_compute. reflexivity.
  - vm_compute. reflexivity.
Defined.

(** ** The retry loop *)

Section retry_facts.

Variable T : Type.
Variable call : nat -> T + string.

Lemma retry_from_succeeds (k n i : nat) (last : T + string) (slept : list Z)
    (v : T) :
  (k < n)%nat -> (i + n <= maxRetries)%nat ->
  (forall j, (j < k)%nat -> exists e, call (i + j) = inr e) ->
  call (i + k) = inl v ->
  retry_from T call n i last slept
  = (inl v, S (i + k), slept ++ map Z.of_nat (seq (i + 1) k)).
Proof.
  revert n i last slept.
  induction k as [|k IH]; intros n i last slept Hk Hn Hfail Hv.
  - destruct n as [|n]; [lia|]. cbn [retry_from].
    rewrite Nat.add_0_r in Hv. rewrite Hv, Nat.add_0_r.
    cbn [seq map]. rewrite app_nil_r. reflexivity.
  - destruct n as [|n]; [lia|]. cbn [retry_from].
    destruct (Hfail 0%nat ltac:(lia)) as [e He].
    rewrite Nat.add_0_r in He. rewrite He.
    replace (i <? maxRetries - 1)%nat with true
      by (symmetry; apply Nat.ltb_lt; lia).
    rewrite (IH n (S i) (inr e) (slept ++ [Z.of_nat (i + 1)])).
    + rewrite <- app_assoc. cbn [seq map app].
      replace (S i + k)%nat with (i + S k)%nat by lia.
      replace (S i + 1)%nat with (S (i + 1)) by lia.
      reflexivity.
    + lia.
    + lia.
    + intros j Hj. destruct (Hfail (S j) ltac:(lia)) as [e' He'].
      exists e'. rewrite <- He'. f_equal. lia.
    + rewrite <- Hv. f_equal. lia.
Qed.

Lemma retry_from_fails (n i : nat) (last : T + string) (slept : list Z)
    (e : string) :
  (0 < n)%nat -> (i + n = maxRetries)%nat ->
  (forall j, (j < n)%nat -> exists e', call (i + j) = inr e') ->
  call (i + n - 1) = inr e ->
  retry_from T call n i last slept
  = (inr e, maxRetries, slept ++ map Z.of_nat (seq (i + 1) (n - 1))).
Proof.
  revert i last slept.
  induction n as [|n IH]; intros i last slept Hn Hi Hfail He; [lia|].
  cbn [retry_from].
  destruct (Hfail 0%nat ltac:(lia)) as [e0 He0].
  rewrite Nat.add_0_r in He0. rewrite He0.
  destruct n as [|n].
  - replace (i <? maxRetries - 1)%nat with false
      by (symmetry; apply Nat.ltb_ge; lia).
    cbn [retry_from seq map Nat.sub]. rewrite app_nil_r.
    replace (i + 1 - 1)%nat with i in He by lia.
    rewrite He in He0. injection He0 as <-.
    rewrite <- Hi. repeat f_equal. lia.
  - replace (i <? maxRetries - 1)%nat with true
      by (symmetry; apply Nat.ltb_lt; lia).
    rewrite (IH (S i) (inr e0) (slept ++ [Z.of_nat (i + 1)])).
    + rewrite <- app_assoc.
      replace (S (S n) - 1)%nat with (S n) by lia.
      replace (S n - 1)%nat with n by lia.
      cbn [seq map app].
      replace (S i + 1)%nat with (S (i + 1)) by lia.
      reflexivity.
    + lia.
    + lia.
    + intros j Hj. destruct (Hfail (S j) ltac:(lia)) as [e' He'].
      exists e'. rewrite <- He'. f_equal. lia.
    + rewrite <- He. f_equal. lia.
Qed.

(** X21.  The retry loop stops at the first answer that is no error and
    makes at most three calls: when attempt [k], counted from 0, is the
    first to succeed, its value is kept after [k + 1] calls and sleeps of
    1, ..., [k] seconds; when the three attempts fail, the error of the
    third is kept after sleeps of 1 and 2 seconds, none after the last
    attempt. *)
Theorem retry_is_bounded (zero : T) :
  (forall (k : nat) (v : T),
      (k < maxRetries)%nat ->
      (forall j, (j < k)%nat -> exists e, call j = inr e) ->
      call k = inl v ->
      with_retries T call zero = (inl v, S k, map Z.of_nat (seq 1 k)))
  /\ (forall e : string,
        (forall j, (j < maxRetries)%nat -> exists e', call j = inr e') ->
        call (maxRetries - 1) = inr e ->
        with_retries T call zero = (inr e, maxRetries, [1; 2])).
Proof.
  unfold with_retries. split.
  - intros k v Hk Hfail Hv.
    apply (retry_from_succeeds k maxRetries 0 (inl zero) [] v); try lia;
      assumption.
  - intros e Hfail He.
    apply (retry_from_fails maxRetries 0 (inl zero) [] e);
      try assumption; unfold maxRetries; lia.
Qed.

End retry_facts.

(** ** The sell quote on the bonding curve *)

Section sell_quote_facts.

Variable float64 : Type.
Variable scaled_by : Z -> float64 -> Z.

Lemma to_int64_small (x : Z) : 0 <= x < 2 ^ 63 -> to_int64 x = x.
Proof.
  intros H. unfold to_int64. rewrite Z.mod_small by lia. lia.
Qed.

(** X22.  For positive virtual reserves and an amount below [2 ^ 63],
    [calculateSellQuote] returns as its second result a SOL output between
    0 and the SOL reserve that is rounded up, in favour of the seller:
    paying it out leaves a product of the reserves that is at most the
    product before, and paying one lamport less would leave more. *)
Theorem sell_quote_keeps_the_product
    (tokenAmount virtualSolReserves virtualTokenReserves : Z)
    (percentage : float64) :
  0 <= tokenAmount < 2 ^ 63 ->
  0 < virtualSolReserves < 2 ^ 64 -> 0 < virtualTokenReserves ->
  exists final out,
    calculateSellQuote float64 scaled_by tokenAmount virtualSolReserves
      virtualTokenReserves percentage
    = Ret (final, out)
    /\ 0 <= out <= virtualSolReserves
    /\ (virtualSolReserves - out) * (virtualTokenReserves + tokenAmount)
       <= virtualSolReserves * virtualTokenReserves
    /\ virtualSolReserves * virtualTokenReserves
       < (virtualSolReserves - (out - 1)) * (virtualTokenReserves + tokenAmount).
Proof.
  intros Ha Hs Ht. unfold calculateSellQuote. cbv zeta.
  rewrite to_int64_small by assumption.
  unfold bigDiv.
  replace (virtualTokenReserves + tokenAmount =? 0) with false
    by (symmetry; apply Z.eqb_neq; lia).
  replace (0 <? virtualTokenReserves + tokenAmount) with true
    by (symmetry; apply Z.ltb_lt; lia).
  cbn [bind].
  set (y := virtualTokenReserves + tokenAmount).
  set (x := virtualSolReserves * virtualTokenReserves).
  assert (Hy : 0 < y) by (subst y; lia).
  pose proof (Z.mul_div_le x y Hy) as Hlo.
  pose proof (Z.mul_succ_div_gt x y Hy) as Hhi.
  assert (Hq0 : 0 <= x / y) by (apply Z.div_pos; subst x; nia).
  assert (Hq1 : x / y <= virtualSolReserves).
  { apply Z.div_le_upper_bound; [assumption|]. subst x y. nia. }
  do 2 eexists. split; [reflexivity|].
  unfold bigUint64.
  rewrite Z.abs_eq, Z.mod_small by lia.
  replace (virtualSolReserves - (virtualSolReserves - x / y)) with (x / y)
    by lia.
  replace (virtualSolReserves - (virtualSolReserves - x / y - 1))
    with (Z.succ (x / y)) by lia.
  fold y. rewrite !(Z.mul_comm _ y).
  repeat split; lia.
Qed.

(** X23.  An amount of [2 ^ 63] or more is read as a negative [int64]:
    the amount [2 ^ 64 - virtualTokenReserves] makes the divisor zero and
    [calculateSellQuote] panic. *)
Theorem sell_quote_panics
    (virtualSolReserves virtualTokenReserves : Z) (percentage : float64) :
  0 < virtualTokenReserves <= 2 ^ 63 ->
  is_uint64 (2 ^ 64 - virtualTokenReserves)
  /\ calculateSellQuote float64 scaled_by (2 ^ 64 - virtualTokenReserves)
       virtualSolReserves virtualTokenReserves percentage
     = Panic "division by zero".
Proof.
  intros Ht. split; [unfold is_uint64; lia|].
  unfold calculateSellQuote. cbv zeta.
  assert (E : to_int64 (2 ^ 64 - virtualTokenReserves) = - virtualTokenReserves).
  { unfold to_int64.
    replace (2 ^ 64 - virtualTokenReserves + 2 ^ 63)
      with (2 ^ 63 - virtualTokenReserves + 1 * 2 ^ 64) by lia.
    rewrite Z.mod_add by discriminate.
    rewrite Z.mod_small by lia. lia. }
  rewrite E. unfold bigDiv.
  replace (virtualTokenReserves + - virtualTokenReserves =? 0) with true
    by (symmetry; apply Z.eqb_eq; lia).
  reflexivity.
Qed.

End sell_quote_facts.

Lemma sell_quote_keeps_the_product_witness :
  exists final out,
    calculateSellQuote Z (fun out p => out * p / 100) 1000 30000000 1000000 98
    = Ret (final, out)
    /\ 0 <= out <= 30000000
    /\ (30000000 - out) * (1000000 + 1000) <= 30000000 * 1000000
    /\ 30000000 * 1000000 < (30000000 - (out - 1)) * (1000000 + 1000).
Proof.
  refine (sell_quote_keeps_the_product Z (fun out p => out * p / 100)
            1000 30000000 1000000 98 _ _ _); lia.
Defined.

Lemma sell_quote_panics_witness :
  is_uint64 (2 ^ 64 - 1000000)
  /\ calculateSellQuote Z (fun out p => out * p / 100) (2 ^ 64 - 1000000)
       30000000 1000000 98
     = Panic "division by zero".
Proof.
  refine (sell_quote_panics Z (fun out p => out * p / 100)
            30000000 1000000 98 _). lia.
Defined.

(** ** The swap instruction *)

Lemma Validate_accepts (recipient : string) :
  amm.ValidateProtocolFeeRecipient recipient = None
  <-> In recipient validProtocolFeeRecipients.
Proof.
  unfold amm.ValidateProtocolFeeRecipient, amm.recipient_at,
    amm.ProtocolFeeRecipients, validProtocolFeeRecipients.
  cbn [nth In].
  unfold amm.ProtocolFeeRecipient0x00, amm.ProtocolFeeRecipient0x01,
    amm.ProtocolFeeRecipient0x02, amm.ProtocolFeeRecipient0x03,
    amm.ProtocolFeeRecipient0x04, amm.ProtocolFeeRecipient0x05,
    amm.ProtocolFeeRecipient0x06, amm.ProtocolFeeRecipient0x07.
  repeat match goal with
         | |- context [String.eqb recipient ?c] =>
             let E := fresh "E" in
             destruct (String.eqb recipient c) eqn:E;
             [apply String.eqb_eq in E; subst recipient;
              split; [intros _; auto 10 | reflexivity]
             | apply String.eqb_neq in E]
         end.
  cbn [negb andb]. split; [discriminate|].
  intros H.
  repeat match goal with
         | H : _ \/ _ |- _ => destruct H as [H|H]
         end;
    try (symmetry in H; contradiction); contradiction.
Qed.

(** X24.  [ValidateProtocolFeeRecipient] accepts exactly the keys of
    [validProtocolFeeRecipients]: the table of 8 recipients holds the key
    of 0x06 twice, so 7 keys are accepted, the 7 distinct keys of the list
    of the swap client. *)
Theorem fee_recipient_table :
  (forall recipient : string,
      amm.ValidateProtocolFeeRecipient recipient = None
      <-> In recipient validProtocolFeeRecipients)
  /\ NoDup validProtocolFeeRecipients
  /\ len validProtocolFeeRecipients = 7
  /\ len amm.ProtocolFeeRecipients = 8
  /\ amm.recipient_at 6 = amm.recipient_at 7.
Proof.
  split; [exact Validate_accepts|].
  split; [|repeat split].
  unfold validProtocolFeeRecipients.
  repeat (constructor;
          [cbn [In]; intros H;
           repeat (destruct H as [H|H]; [discriminate H|]); exact H|]).
  constructor.
Qed.

Section swap_instruction_facts.

Variable Instruction : Type.
Variable NewBuyInstruction NewSellInstruction
  : amm.SwapParam -> option Instruction * error.

(** X25.  [createPumpSwapInstruction] never returns an error.  With a fee
    recipient that is not accepted it returns a [nil] instruction and a
    [nil] error, no builder being called; with an accepted one it returns
    what the Buy builder returns for the base amount out [minAmountOut] and
    the maximum quote amount in [amountIn], without the builder's error:
    the Sell builder is never used. *)
Theorem createPumpSwapInstruction_hides_errors
    (pool user baseMint quoteMint userBaseTokenAccount userQuoteTokenAccount
       poolBaseTokenAccount poolQuoteTokenAccount protocolFeeRecipient
       protocolFeeRecipientTokenAccount : string)
    (minAmountOut amountIn : Z) :
  let result :=
    createPumpSwapInstruction Instruction NewBuyInstruction NewSellInstruction
      pool user baseMint quoteMint userBaseTokenAccount userQuoteTokenAccount
      poolBaseTokenAccount poolQuoteTokenAccount protocolFeeRecipient
      protocolFeeRecipientTokenAccount minAmountOut amountIn in
  snd result = None
  /\ (~ In protocolFeeRecipient validProtocolFeeRecipients ->
      result = (None, None))
  /\ (In protocolFeeRecipient validProtocolFeeRecipients ->
      exists para,
        fst result = fst (NewBuyInstruction para)
        /\ amm.Direction para = amm.BuyDirection
        /\ amm.TokenAmount1 para = minAmountOut
        /\ amm.TokenAmount2 para = amountIn
        /\ amm.ProtocolFeeRecipient para = protocolFeeRecipient).
Proof.
  cbv zeta. unfold createPumpSwapInstruction, amm.NewSwapInstruction.
  cbn [amm.Direction amm.ProtocolFeeRecipient].
  change (amm.BuyDirection =? amm.BuyDirection) with true. cbv iota.
  destruct (amm.ValidateProtocolFeeRecipient protocolFeeRecipient) as [e|] eqn:E.
  - split; [reflexivity|]. split; [reflexivity|].
    intros Hin. apply Validate_accepts in Hin. congruence.
  - match goal with
    | |- context [NewBuyInstruction ?p] =>
        set (para := p); destruct (NewBuyInstruction para) as [i e] eqn:Ei
    end.
    split; [reflexivity|]. split.
    + intros Hn. exfalso. apply Hn. apply Validate_accepts. assumption.
    + intros _. exists para. rewrite Ei. repeat split.
Qed.

End swap_instruction_facts.

(** ** The loop over the instructions of a transaction *)

Lemma index_in_range {A : Type} (l : list A) (i : Z) :
  0 <= i < len l ->
  exists x, index l i = Ret x /\ nth_error l (Z.to_nat i) = Some x.
Proof.
  intros H. unfold index.
  replace ((0 <=? i) && (i <? len l)) with true
    by (symmetry; rewrite andb_true_iff, Z.leb_le, Z.ltb_lt; lia).
  destruct (nth_error l (Z.to_nat i)) as [x|] eqn:E.
  - exists x. split; reflexivity.
  - apply nth_error_None in E. unfold len in H. lia.
Qed.

(** The inspection of the data of an instruction leaves the base mint and
    the token information of the summary. *)
Lemma inspect_keeps_token (st : Detection) (payload : list byte) :
  exists r,
    inspectInstructionData st payload = Ret r
    /\ TokenInfoPtr (summary (detection r)) = TokenInfoPtr (summary st)
    /\ BaseMint (summary (detection r)) = BaseMint (summary st).
Proof.
  destruct (Z.le_gt_cases 8 (len payload)) as [H8|H8].
  - destruct (bytes_Equal (firstn 8 payload) BuyDiscriminator) eqn:EB.
    { apply bytes_Equal_true in EB.
      destruct (Z.le_gt_cases 24 (len payload)) as [H24|H24].
      - destruct (long_swap_decodes st payload H24) as [HB _].
        destruct (HB EB) as (X & Y & _ & _ & _ & ->).
        eexists. split; [reflexivity|]. split; reflexivity.
      - destruct (short_swap_inspected st payload (conj H8 H24)) as [HB _].
        rewrite (HB EB). eexists. split; [reflexivity|]. split; reflexivity. }
    destruct (bytes_Equal (firstn 8 payload) SellDiscriminator) eqn:ES.
    { apply bytes_Equal_true in ES.
      destruct (Z.le_gt_cases 24 (len payload)) as [H24|H24].
      - destruct (long_swap_decodes st payload H24) as [_ HS].
        destruct (HS ES) as (X & Y & _ & _ & _ & ->).
        eexists. split; [reflexivity|]. split; reflexivity.
      - destruct (short_swap_inspected st payload (conj H8 H24)) as [_ HS].
        rewrite (HS ES). eexists. split; [reflexivity|]. split; reflexivity. }
    unfold inspectInstructionData.
    length_test true.
    rewrite slice_prefix by lia. cbn [bind]. change (Z.to_nat 8) with 8%nat.
    rewrite EB, ES.
    destruct (bytes_Equal (firstn 8 payload) CreatePoolDiscriminator).
    + eexists. split; [reflexivity|]. split; reflexivity.
    + rewrite slice_maxPrint. cbn [bind].
      eexists. split; [reflexivity|]. split; reflexivity.
  - unfold inspectInstructionData.
    length_test false.
    eexists. split; [reflexivity|]. split; reflexivity.
Qed.

Section analysis_facts.

Variable getTokenInfo : string -> option TokenInfo * error.

Lemma captureBaseMint_BaseMint (s : TransactionSummary) (m : string) :
  BaseMint (captureBaseMint getTokenInfo s m) = m.
Proof.
  unfold captureBaseMint. cbv zeta. cbn [TokenInfoPtr set_BaseMint].
  destruct (TokenInfoPtr s); [reflexivity|].
  destruct (getTokenInfo m) as [[i|] [e|]]; reflexivity.
Qed.

Lemma captureBaseMint_sticky (s : TransactionSummary) (m : string)
    (info : TokenInfo) :
  TokenInfoPtr s = Some info ->
  TokenInfoPtr (captureBaseMint getTokenInfo s m) = Some info.
Proof.
  intros H. unfold captureBaseMint. cbv zeta. cbn [TokenInfoPtr set_BaseMint].
  rewrite H. cbn [TokenInfoPtr]. assumption.
Qed.

Lemma captureBaseMint_resolves (s : TransactionSummary) (m : string)
    (info : TokenInfo) :
  TokenInfoPtr s = None -> getTokenInfo m = (Some info, None) ->
  TokenInfoPtr (captureBaseMint getTokenInfo s m) = Some info.
Proof.
  intros H Hg. unfold captureBaseMint. cbv zeta.
  cbn [TokenInfoPtr set_BaseMint]. rewrite H, Hg. reflexivity.
Qed.

(** After the role of the base mint no account changes the summary. *)
Lemma accountsLoop_after_roles (AccountKeys : list string) (accounts : list Z)
    (j : Z) (s : TransactionSummary) :
  4 <= j -> Forall (fun accIdx => 0 <= accIdx) accounts ->
  accountsLoop getTokenInfo AccountKeys accounts j s = Ret s.
Proof.
  revert j. induction accounts as [|accIdx rest IH]; intros j Hj Hty;
    [reflexivity|].
  inversion Hty as [|? ? H0 Hrest]; subst.
  cbn [accountsLoop].
  destruct (accIdx <? len AccountKeys) eqn:E; [|apply IH; [lia | assumption]].
  apply Z.ltb_lt in E.
  destruct (index_in_range AccountKeys accIdx ltac:(lia)) as (k & -> & _).
  cbn [bind].
  destruct (j <? len accountRoles) eqn:Ej; [|apply IH; [lia | assumption]].
  apply Z.ltb_lt in Ej. change (len accountRoles) with 17 in Ej.
  assert (Hc : j = 4 \/ j = 5 \/ j = 6 \/ j = 7 \/ j = 8 \/ j = 9 \/ j = 10
               \/ j = 11 \/ j = 12 \/ j = 13 \/ j = 14 \/ j = 15 \/ j = 16)
    by lia.
  repeat (destruct Hc as [-> | Hc]; [apply IH; [lia | assumption]|]).
  subst j. apply IH; [lia | assumption].
Qed.

(** The loop over the accounts of an instruction: only the fourth
    account, the base mint, counts. *)
Lemma accountsLoop_spec (AccountKeys : list string) (accounts : list Z)
    (s : TransactionSummary) :
  Forall (fun accIdx => 0 <= accIdx) accounts ->
  accountsLoop getTokenInfo AccountKeys accounts 0 s
  = Ret match base_mint AccountKeys accounts with
        | Some tokenAddress => captureBaseMint getTokenInfo s tokenAddress
        | None => s
        end.
Proof.
  intros Hty.
  assert (Hstep : forall accIdx rest j s',
             0 <= accIdx -> (j = 0 \/ j = 1 \/ j = 2) ->
             accountsLoop getTokenInfo AccountKeys (accIdx :: rest) j s'
             = accountsLoop getTokenInfo AccountKeys rest (j + 1) s').
  { intros accIdx rest j s' H0 Hj. cbn [accountsLoop].
    destruct (accIdx <? len AccountKeys) eqn:E; [|reflexivity].
    apply Z.ltb_lt in E.
    destruct (index_in_range AccountKeys accIdx ltac:(lia)) as (k & -> & _).
    cbn [bind].
    destruct Hj as [-> | [-> | ->]]; reflexivity. }
  destruct accounts as [|a0 [|a1 [|a2 [|a3 rest]]]];
    try reflexivity;
    repeat match goal with
           | H : Forall _ (_ :: _) |- _ => inversion H; subst; clear H
           end.
  - rewrite Hstep by (try assumption; auto). reflexivity.
  - rewrite !Hstep by (try assumption; auto). reflexivity.
  - rewrite !Hstep by (try assumption; auto). reflexivity.
  - rewrite !Hstep by (try assumption; auto).
    change (0 + 1 + 1 + 1) with 3.
    cbn [accountsLoop base_mint].
    destruct (a3 <? len AccountKeys) eqn:E.
    + apply Z.ltb_lt in E.
      destruct (index_in_range AccountKeys a3 ltac:(lia)) as (k & -> & ->).
      cbn [bind].
      change (3 <? len accountRoles) with true. cbv iota.
      change (index accountRoles 3) with (Ret "Base Mint (Token)"%string).
      cbn [bind].
      change (("Base Mint (Token)" =? "Base Mint (Token)")%string) with true.
      cbv iota.
      apply accountsLoop_after_roles; [lia | assumption].
    + apply accountsLoop_after_roles; [lia | assumption].
Qed.

(** One round of the loop: an instruction of another program changes
    nothing; for one of the PumpSwap program the data are inspected and
    the base mint is captured. *)
Lemma analyzeInstruction_spec (AccountKeys : list string)
    (b : bool) (st : Detection) (inst : CompiledInstruction) :
  indices_typed inst ->
  analyzeInstruction getTokenInfo AccountKeys (b, st) inst
  = if uses_PumpSwap AccountKeys inst
    then
      r <- inspectInstructionData st (InstData inst) ;;
      Ret (true,
           {| isSwapInstruction := isSwapInstruction (detection r);
              isBuy := isBuy (detection r);
              isSell := isSell (detection r);
              summary :=
                match base_mint AccountKeys (Accounts inst) with
                | Some tokenAddress =>
                    captureBaseMint getTokenInfo (summary (detection r))
                      tokenAddress
                | None => summary (detection r)
                end |})
    else Ret (b, st).
Proof.
  intros [Hp Ha]. unfold analyzeInstruction, uses_PumpSwap. cbv zeta.
  destruct (ProgramIDIndex inst <? len AccountKeys) eqn:E; [|reflexivity].
  apply Z.ltb_lt in E.
  destruct (index_in_range AccountKeys (ProgramIDIndex inst) ltac:(lia))
    as (k & -> & ->).
  cbn [bind andb snd].
  destruct (k =? pumpSwapProgramID)%string; [|reflexivity].
  destruct (inspectInstructionData st (InstData inst)) as [r|msg];
    [|reflexivity].
  cbn [bind]. rewrite accountsLoop_spec by assumption. reflexivity.
Qed.

(** The flags after the loop over the instructions of the transaction. *)
Lemma analysis_flags (AccountKeys : list string)
    (insts : list CompiledInstruction) (b : bool) (st : Detection) :
  Forall indices_typed insts ->
  let payloads := map InstData (filter (uses_PumpSwap AccountKeys) insts) in
  exists b' st',
    analyzeInstructions getTokenInfo AccountKeys (b, st) insts = Ret (b', st')
    /\ b' = b || existsb (uses_PumpSwap AccountKeys) insts
    /\ isBuy st' = isBuy st || existsb is_buy payloads
    /\ isSell st' = isSell st || existsb is_sell payloads
    /\ isSwapInstruction st'
       = isSwapInstruction st || existsb is_buy payloads
         || existsb is_sell payloads.
Proof.
  cbv zeta. revert b st.
  induction insts as [|inst rest IH]; intros b st Hty.
  - exists b, st. cbn [analyzeInstructions filter map existsb].
    rewrite !orb_false_r. repeat split.
  - inversion Hty as [|? ? Hi Hrest]; subst.
    cbn [analyzeInstructions filter existsb].
    rewrite analyzeInstruction_spec by assumption.
    destruct (uses_PumpSwap AccountKeys inst).
    + destruct (inspect_detection st (InstData inst))
        as (r & -> & HB & HS & HW & _).
      cbn [bind].
      match goal with
      | |- context [analyzeInstructions _ _ (true, ?d) rest] =>
          destruct (IH true d Hrest) as (b' & st' & -> & Hb & HB' & HS' & HW')
      end.
      cbn [isBuy isSell isSwapInstruction] in HB', HS', HW'.
      exists b', st'. split; [reflexivity|].
      cbn [map existsb]. rewrite Hb, HB', HS', HW', HB, HS, HW.
      rewrite orb_true_r.
      repeat split;
        destruct (isSwapInstruction st), (isBuy st), (isSell st),
          (is_buy (InstData inst)), (is_sell (InstData inst)),
          (existsb is_buy
             (map InstData (filter (uses_PumpSwap AccountKeys) rest))),
          (existsb is_sell
             (map InstData (filter (uses_PumpSwap AccountKeys) rest)));
        reflexivity.
    + cbn [bind].
      destruct (IH b st Hrest) as (b' & st' & -> & Hb & HB' & HS' & HW').
      exists b', st'. split; [reflexivity|].
      rewrite orb_false_l. repeat split; assumption.
Qed.

(** X26.  The loop over the instructions of a transaction never panics
    and looks at the instructions of the PumpSwap program only:
    [isPumpSwap] holds after it when it held before or one instruction is
    of that program, and the three flags are those the payloads of these
    instructions give, whatever the instructions of other programs hold. *)
Theorem other_programs_are_ignored (AccountKeys : list string)
    (insts : list CompiledInstruction) (b : bool) (st : Detection) :
  Forall indices_typed insts ->
  let payloads := map InstData (filter (uses_PumpSwap AccountKeys) insts) in
  exists b' st',
    analyzeInstructions getTokenInfo AccountKeys (b, st) insts = Ret (b', st')
    /\ b' = b || existsb (uses_PumpSwap AccountKeys) insts
    /\ isBuy st' = isBuy st || existsb is_buy payloads
    /\ isSell st' = isSell st || existsb is_sell payloads
    /\ isSwapInstruction st'
       = isSwapInstruction st || existsb is_buy payloads
         || existsb is_sell payloads.
Proof. apply analysis_flags. Qed.

(** Token information once captured stays to the end of the loop. *)
Lemma token_info_sticky (AccountKeys : list string)
    (insts : list CompiledInstruction) (b : bool) (st : Detection)
    (info : TokenInfo) :
  Forall indices_typed insts ->
  TokenInfoPtr (summary st) = Some info ->
  exists b' st',
    analyzeInstructions getTokenInfo AccountKeys (b, st) insts = Ret (b', st')
    /\ TokenInfoPtr (summary st') = Some info.
Proof.
  revert b st. induction insts as [|inst rest IH]; intros b st Hty Hinfo.
  - exists b, st. split; [reflexivity | assumption].
  - inversion Hty as [|? ? Hi Hrest]; subst.
    cbn [analyzeInstructions].
    rewrite analyzeInstruction_spec by assumption.
    destruct (uses_PumpSwap AccountKeys inst).
    + destruct (inspect_keeps_token st (InstData inst)) as (r & -> & Ht & _).
      cbn [bind]. apply IH; [assumption|]. cbn [summary].
      rewrite Hinfo in Ht.
      destruct (base_mint AccountKeys (Accounts inst));
        [apply captureBaseMint_sticky|]; assumption.
    + cbn [bind]. apply IH; assumption.
Qed.

(** X27.  The base mint of the summary and its token information can be
    those of two tokens: when the first instruction of the PumpSwap
    program names a base mint whose information is found, and the last
    one names another base mint, the summary ends with the base mint of
    the last instruction and the token information, looked up only once,
    of the first. *)
Theorem base_mint_and_token_info
    (AccountKeys : list string)
    (first last : CompiledInstruction) (mid : list CompiledInstruction)
    (b : bool) (st : Detection) (mint1 mint2 : string) (info : TokenInfo) :
  Forall indices_typed (first :: mid ++ [last]) ->
  TokenInfoPtr (summary st) = None ->
  uses_PumpSwap AccountKeys first = true ->
  base_mint AccountKeys (Accounts first) = Some mint1 ->
  getTokenInfo mint1 = (Some info, None) ->
  uses_PumpSwap AccountKeys last = true ->
  base_mint AccountKeys (Accounts last) = Some mint2 ->
  exists b' st',
    analyzeInstructions getTokenInfo AccountKeys (b, st)
      (first :: mid ++ [last])
    = Ret (b', st')
    /\ BaseMint (summary st') = mint2
    /\ TokenInfoPtr (summary st') = Some info.
Proof.
  intros Hty Hnone Hu1 Hm1 Hg Hu2 Hm2.
  inversion Hty as [|? ? Hfirst Hrest]; subst.
  apply Forall_app in Hrest. destruct Hrest as [Hmid Hlast].
  inversion Hlast as [|? ? Hl _]; subst.
  cbn [analyzeInstructions].
  rewrite analyzeInstruction_spec, Hu1, Hm1 by assumption.
  destruct (inspect_keeps_token st (InstData first)) as (r & -> & Ht & _).
  cbn [bind]. rewrite Hnone in Ht.
  pose proof (captureBaseMint_resolves (summary (detection r)) mint1 info Ht Hg)
    as Hinfo.
  set (st1 := {| isSwapInstruction := _; isBuy := _; isSell := _;
                 summary := captureBaseMint getTokenInfo
                              (summary (detection r)) mint1 |}).
  assert (Hloop : forall insts b0 st0,
             analyzeInstructions getTokenInfo AccountKeys (b0, st0)
               (insts ++ [last])
             = (state <- analyzeInstructions getTokenInfo AccountKeys
                           (b0, st0) insts ;;
                analyzeInstruction getTokenInfo AccountKeys state last)).
  { induction insts as [|i insts IHi]; intros b0 st0.
    - cbn [app analyzeInstructions bind].
      destruct (analyzeInstruction getTokenInfo AccountKeys (b0, st0) last);
        reflexivity.
    - cbn [app analyzeInstructions].
      destruct (analyzeInstruction getTokenInfo AccountKeys (b0, st0) i)
        as [[b1 s1]|msg]; [|reflexivity].
      cbn [bind]. apply IHi. }
  rewrite Hloop.
  destruct (token_info_sticky AccountKeys mid true st1 info Hmid Hinfo)
    as (b2 & st2 & -> & Hinfo2).
  cbn [bind].
  rewrite analyzeInstruction_spec, Hu2, Hm2 by assumption.
  destruct (inspect_keeps_token st2 (InstData last)) as (r2 & -> & Ht2 & _).
  cbn [bind]. do 2 eexists. split; [reflexivity|]. cbn [summary]. split.
  - apply captureBaseMint_BaseMint.
  - apply captureBaseMint_sticky. rewrite Ht2. assumption.
Qed.

End analysis_facts.

Lemma other_programs_are_ignored_witness :
  exists b' st',
    analyzeInstructions (fun m => (Some (token_named m), None))
      ["wallet"%string; pumpSwapProgramID]
      (false, initial_detection)
      [ {| ProgramIDIndex := 0; InstData := BuyDiscriminator; Accounts := [] |};
        {| ProgramIDIndex := 1; InstData := SellDiscriminator;
           Accounts := [0] |} ]
    = Ret (b', st')
    /\ b' = true
    /\ isBuy st' = false
    /\ isSell st' = true
    /\ isSwapInstruction st' = true.
Proof.
  refine (other_programs_are_ignored (fun m => (Some (token_named m), None))
            ["wallet"%string; pumpSwapProgramID]
            [ {| ProgramIDIndex := 0; InstData := BuyDiscriminator;
                 Accounts := [] |};
              {| ProgramIDIndex := 1; InstData := SellDiscriminator;
                 Accounts := [0] |} ]
            false initial_detection _).
  repeat constructor; cbn; lia.
Defined.

Lemma base_mint_and_token_info_witness :
  exists b' st',
    analyzeInstructions (fun m => (Some (token_named m), None))
      [pumpSwapProgramID; "mintA"%string; "mintB"%string]
      (false, initial_detection)
      ({| ProgramIDIndex := 0; InstData := []; Accounts := [0; 0; 0; 1] |}
       :: [] ++
       [ {| ProgramIDIndex := 0; InstData := []; Accounts := [0; 0; 0; 2] |} ])
    = Ret (b', st')
    /\ BaseMint (summary st') = "mintB"%string
    /\ TokenInfoPtr (summary st') = Some (token_named "mintA").
Proof.
  refine (base_mint_and_token_info (fun m => (Some (token_named m), None))
            [pumpSwapProgramID; "mintA"%string; "mintB"%string]
            {| ProgramIDIndex := 0; InstData := []; Accounts := [0; 0; 0; 1] |}
            {| ProgramIDIndex := 0; InstData := []; Accounts := [0; 0; 0; 2] |}
            [] false initial_detection "mintA"%string "mintB"%string
            (token_named "mintA") _ _ _ _ _ _ _);
    try reflexivity.
  repeat constructor; cbn; lia.
Defined.

(** ** The balances of the package utils *)

Lemma set_index_middle {A : Type} (done rest : list A) (old new : A) :
  set_index (done ++ old :: rest) (List.length done) new
  = Ret (done ++ new :: rest).
Proof.
  induction done as [|x done IH]; [reflexivity|].
  cbn [app List.length set_index]. rewrite IH. reflexivity.
Qed.

Section utils_balances_facts.

Variable GetTokenAccountBalance : string -> string + string.
Variable ParseUint : string -> Z + string.

Lemma utils_loop_fills (accounts : list string) (balances done : list Z) :
  Forall2 (balance_of GetTokenAccountBalance ParseUint) accounts balances ->
  utils.GetMulTokenBalance_loop GetTokenAccountBalance ParseUint accounts
    (len done) (done ++ repeat 0 (List.length accounts))
  = Ret (done ++ balances, None).
Proof.
  intros H. revert done.
  induction H as [|account balance accounts balances Hb Hrest IH];
    intros done.
  - cbn. reflexivity.
  - destruct Hb as (amount & Ha & Hp).
    cbn [utils.GetMulTokenBalance_loop List.length repeat].
    rewrite Ha, Hp. unfold len at 1. rewrite Nat2Z.id, set_index_middle.
    cbn [bind].
    replace (len done + 1) with (len (done ++ [balance]))
      by (unfold len; rewrite length_app; cbn [List.length]; lia).
    replace (done ++ balance :: repeat 0 (List.length accounts))
      with ((done ++ [balance]) ++ repeat 0 (List.length accounts))
      by (rewrite <- app_assoc; reflexivity).
    rewrite IH, <- app_assoc. reflexivity.
Qed.

(** X28.  [GetMulTokenBalance] of the package [utils] returns one balance
    for each account, in the order of the accounts, when every call and
    every parse succeeds: its writes of [balances[i]] never leave the
    slice.  For no account it returns the error "no accounts provided". *)
Theorem utils_balances_in_order (accounts : list string) (balances : list Z) :
  (accounts <> [] ->
   Forall2 (balance_of GetTokenAccountBalance ParseUint) accounts balances ->
   utils.GetMulTokenBalance GetTokenAccountBalance ParseUint accounts
   = Ret (balances, None)
   /\ len balances = len accounts)
  /\ utils.GetMulTokenBalance GetTokenAccountBalance ParseUint []
     = Ret ([], Some "no accounts provided"%string).
Proof.
  split; [|reflexivity].
  intros Hne H. split.
  - unfold utils.GetMulTokenBalance.
    destruct accounts as [|a accounts]; [congruence|].
    replace (len (a :: accounts) =? 0) with false
      by (symmetry; apply Z.eqb_neq; unfold len; cbn [List.length]; lia).
    cbv zeta. apply (utils_loop_fills (a :: accounts) balances [] H).
  - apply Forall2_length in H. unfold len. rewrite H. reflexivity.
Qed.

End utils_balances_facts.

Lemma utils_balances_in_order_witness :
  utils.GetMulTokenBalance (fun account => inl account)
    (fun amount => inl (Z.of_nat (String.length amount)))
    ["ab"%string; "cde"%string]
  = Ret ([2; 3], None)
  /\ len [2; 3] = len ["ab"%string; "cde"%string].
Proof.
  refine (proj1 (utils_balances_in_order (fun account => inl account)
                   (fun amount => inl (Z.of_nat (String.length amount)))
                   ["ab"%string; "cde"%string] [2; 3]) _ _).
  - discriminate.
  - repeat constructor; eexists; split; reflexivity.
Defined.

(** ** The fallback endpoints *)

Section fallback_facts.

Variable run : string -> error.

Lemma try_fallbacks_spec (rpcEndpoint : string) (endpoints ran : list string) :
  NoDup endpoints ->
  NoDup ran ->
  (forall e, In e ran -> e = rpcEndpoint \/ ~ In e endpoints) ->
  (forall e, In e ran -> run e <> None) ->
  let '(success, ran') := try_fallbacks run rpcEndpoint endpoints ran in
  NoDup ran'
  /\ (success = true ->
      exists pre e,
        ran' = pre ++ [e] /\ run e = None
        /\ forall x, In x pre -> run x <> None)
  /\ (success = false ->
      (forall e, In e ran' -> run e <> None)
      /\ forall e, In e ran \/ (In e endpoints /\ e <> rpcEndpoint) ->
                   In e ran').
Proof.
  revert ran. induction endpoints as [|endpoint rest IH];
    intros ran Hnd Hran Hsep Hfail.
  - cbn [try_fallbacks]. split; [assumption|]. split; [discriminate|].
    intros _. split; [assumption|].
    intros e [He|[[] _]]. assumption.
  - inversion Hnd as [|? ? Hnotin Hnd']; subst.
    cbn [try_fallbacks].
    destruct (endpoint =? rpcEndpoint)%string eqn:E.
    + apply String.eqb_eq in E. subst endpoint.
      specialize (IH ran Hnd' Hran).
      destruct (try_fallbacks run rpcEndpoint rest ran) as [success ran'].
      destruct IH as (H1 & H2 & H3); try assumption.
      * intros e He. destruct (Hsep e He) as [->|Hn]; [left; reflexivity|].
        right. intros Hin. apply Hn. right. assumption.
      * split; [assumption|]. split; [assumption|].
        intros Hs. destruct (H3 Hs) as [H3a H3b]. split; [assumption|].
        intros e [He|[[<-|He] Hne]].
        -- apply H3b. left. assumption.
        -- congruence.
        -- apply H3b. right. split; assumption.
    + apply String.eqb_neq in E.
      assert (Hnew : ~ In endpoint ran).
      { intros Hin. destruct (Hsep endpoint Hin) as [->|Hn];
          [congruence | apply Hn; left; reflexivity]. }
      assert (Hnd2 : NoDup (ran ++ [endpoint])).
      { apply NoDup_app; [assumption | repeat constructor; intros [] |].
        intros x Hx [<-|[]]. contradiction. }
      destruct (run endpoint) as [err|] eqn:Er.
      * specialize (IH (ran ++ [endpoint]) Hnd' Hnd2).
        destruct (try_fallbacks run rpcEndpoint rest (ran ++ [endpoint]))
          as [success ran'].
        destruct IH as (H1 & H2 & H3).
        -- intros e He. apply in_app_or in He. destruct He as [He|[<-|[]]].
           ++ destruct (Hsep e He) as [->|Hn]; [left; reflexivity|].
              right. intros Hin. apply Hn. right. assumption.
           ++ right. assumption.
        -- intros e He. apply in_app_or in He. destruct He as [He|[<-|[]]].
           ++ apply Hfail. assumption.
           ++ congruence.
        -- split; [assumption|]. split; [assumption|].
           intros Hs. destruct (H3 Hs) as [H3a H3b]. split; [assumption|].
           intros e [He|[[<-|He] Hne]].
           ++ apply H3b. left. apply in_or_app. left. assumption.
           ++ apply H3b. left. apply in_or_app. right. left. reflexivity.
           ++ apply H3b. right. split; assumption.
      * split; [assumption|]. split; [|discriminate].
        intros _. exists ran, endpoint.
        split; [reflexivity|]. split; assumption.
Qed.

Lemma try_fallbacks_prefix (rpcEndpoint : string) (endpoints ran : list string) :
  exists tail,
    snd (try_fallbacks run rpcEndpoint endpoints ran) = ran ++ tail.
Proof.
  revert ran. induction endpoints as [|endpoint rest IH]; intros ran.
  - exists []. cbn. rewrite app_nil_r. reflexivity.
  - cbn [try_fallbacks].
    destruct (endpoint =? rpcEndpoint)%string; [apply IH|].
    destruct (run endpoint).
    + destruct (IH (ran ++ [endpoint])) as [tail Ht].
      exists ([endpoint] ++ tail). rewrite Ht, <- app_assoc. reflexivity.
    + exists [endpoint]. reflexivity.
Qed.

(** X29.  The command runs the primary endpoint first and each endpoint at
    most once, the primary endpoint being skipped among the fallbacks.  It
    succeeds exactly at the first endpoint that returns no error, the last
    one run; when it fails, the primary endpoint and every fallback have
    been run and have returned an error. *)
Theorem fallbacks_run_once (rpcEndpoint : string) :
  let '(success, ran) := with_fallbacks run rpcEndpoint in
  NoDup ran
  /\ hd_error ran = Some rpcEndpoint
  /\ (success = true ->
      exists pre e,
        ran = pre ++ [e] /\ run e = None
        /\ forall x, In x pre -> run x <> None)
  /\ (success = false ->
      (forall e, In e ran -> run e <> None)
      /\ forall e, e = rpcEndpoint \/ In e fallbackRPCEndpoints -> In e ran).
Proof.
  unfold with_fallbacks.
  destruct (run rpcEndpoint) as [err|] eqn:Er.
  - pose proof (try_fallbacks_spec rpcEndpoint fallbackRPCEndpoints
                  [rpcEndpoint]) as H.
    pose proof (try_fallbacks_prefix rpcEndpoint fallbackRPCEndpoints
                  [rpcEndpoint]) as [tail Ht].
    destruct (try_fallbacks run rpcEndpoint fallbackRPCEndpoints [rpcEndpoint])
      as [success ran].
    cbn [snd] in Ht.
    destruct H as (H1 & H2 & H3).
    + unfold fallbackRPCEndpoints.
      repeat (constructor;
              [cbn [In]; intros H;
               repeat (destruct H as [H|H]; [discriminate H|]); exact H|]).
      constructor.
    + repeat constructor. intros [].
    + intros e [<-|[]]. left. reflexivity.
    + intros e [<-|[]]. congruence.
    + split; [assumption|]. split; [rewrite Ht; reflexivity|].
      split; [assumption|].
      intros Hs. destruct (H3 Hs) as [H3a H3b]. split; [assumption|].
      intros e [->|He].
      * apply H3b. left. left. reflexivity.
      * destruct (String.eqb_spec e rpcEndpoint) as [->|Hne].
        -- apply H3b. left. left. reflexivity.
        -- apply H3b. right. split; assumption.
  - split; [repeat constructor; intros []|].
    split; [reflexivity|]. split; [|discriminate].
    intros _. exists [], rpcEndpoint.
    split; [reflexivity|]. split; [assumption | intros x []].
Qed.

End fallback_facts.
